(** * WEBP-TO-JPEG: item registry, batch scheduler, document assembler, packager

    A shallow embedding of the conversion pipeline of [src/App.tsx],
    [services/pdfService] and [services/imageService].

    Conventions of the embedding:
    - React state ([useState]) is passed explicitly; a call
      [setFiles(prev => e)] is the function [fun prev => e], and queued
      updaters are applied in the order in which they were queued.
    - Host capabilities (uuid generation, object URLs, image decoding, the
      jsPDF and JSZip containers) are parameters or logged calls.
    - The layout code is written once over an interface of JavaScript
      numbers.  Its instance for the browser is IEEE 754 binary64
      ([float]), in which the properties of the layout are stated; the
      instance of exact rationals ([Q]) serves for the page constants,
      which are integers.
    - A run queues its updaters one after the other; the user can act on
      the collection in between, and every updater is applied to the
      collection as it is when its turn comes ([Live]). *)

From Stdlib Require Import QArith Lqa Floats Uint63 Ascii String.
From stdpp Require Import gmap strings list.

Local Open Scope list_scope.
Local Open Scope nat_scope.

(** ** Data model ([types.ts]) *)

Inductive ConversionStatus : Type :=
  | IDLE
  | CONVERTING
  | COMPLETED
  | ERROR.

#[global] Instance ConversionStatus_eq_dec : EqDecision ConversionStatus.
Proof. solve_decision. Defined.

(** A browser [File]: only its name and an opaque handle to its bytes. *)
Record File : Type := mkFile { name : string; bytes : nat }.

(** A [Blob] is an opaque artifact handle. *)
Definition Blob : Type := string.

Record FileItem : Type := mkItem {
  id : string;
  file : File;
  previewUrl : string;
  status : ConversionStatus;
  convertedBlob : option Blob;
  error : option string
}.

(** [Partial<FileItem>]: every key may be present or not. *)
Record PartialFileItem : Type := mkPartial {
  p_id : option string;
  p_file : option File;
  p_previewUrl : option string;
  p_status : option ConversionStatus;
  p_convertedBlob : option Blob;
  p_error : option string
}.

(** The default argument [extra = {}]. *)
Definition no_extra : PartialFileItem := mkPartial None None None None None None.
Definition extra_blob (b : Blob) : PartialFileItem :=
  mkPartial None None None None (Some b) None.
Definition extra_error (e : string) : PartialFileItem :=
  mkPartial None None None None None (Some e).

Inductive AppMode : Type := JPEG | PDF.
Inductive PdfMargin : Type := none | small | big.
Inductive PdfOrientation : Type := portrait | landscape.
Record PdfOptions : Type := mkOptions { margin : PdfMargin; orientation : PdfOrientation }.

(** ** Item registry ([App.tsx], the [files] state and its handlers) *)

Module Registry.

(** The object spread [{ ...f, status, ...extra }]. *)
Definition spread (f : FileItem) (st : ConversionStatus) (extra : PartialFileItem)
  : FileItem :=
  {| id := default (id f) (p_id extra);
     file := default (file f) (p_file extra);
     previewUrl := default (previewUrl f) (p_previewUrl extra);
     status := default st (p_status extra);
     convertedBlob :=
       match p_convertedBlob extra with Some b => Some b | None => convertedBlob f end;
     error :=
       match p_error extra with Some e => Some e | None => error f end |}.

(** [updateStatus]: [prev.map(f => f.id === id ? { ...f, status, ...extra } : f)]. *)
Definition updateStatus (i : string) (st : ConversionStatus) (extra : PartialFileItem)
    (prev : list FileItem) : list FileItem :=
  map (fun f => if String.eqb (id f) i then spread f st extra else f) prev.

(** One item of [handleFilesAdded]; the uuid and the object URL come from
    the host. *)
Definition newItem (src : File * (string * string)) : FileItem :=
  let '(f, (uuid, url)) := src in
  {| id := uuid; file := f; previewUrl := url; status := IDLE;
     convertedBlob := None; error := None |}.

(** [handleFilesAdded]: [[...prev, ...newItems]].  (This handler and the
    next two also call [setPdfBlob(null)]; the stored document is not part
    of the collection and is left out here.) *)
Definition handleFilesAdded (newFiles : list (File * (string * string)))
    (prev : list FileItem) : list FileItem :=
  prev ++ map newItem newFiles.

(** [handleRemoveFile]: the new collection and the URLs handed to
    [URL.revokeObjectURL]. *)
Definition handleRemoveFile (i : string) (prev : list FileItem)
  : list FileItem * list string :=
  let fileToRemove := List.find (fun f => String.eqb (id f) i) prev in
  let revoked :=
    match fileToRemove with
    | Some f => [previewUrl f]
    | None => []
    end in
  (List.filter (fun f => negb (String.eqb (id f) i)) prev, revoked).

(** [handleClearAll]; [confirmed] is the answer of [window.confirm]. *)
Definition handleClearAll (confirmed : bool) (files : list FileItem)
  : list FileItem * list string :=
  if confirmed then ([], map previewUrl files) else (files, []).

End Registry.

(** ** Batch conversion scheduler ([startConversion], [startJpegConversion]) *)

Module Scheduler.

Definition BATCH_SIZE : nat := 3.

(** [Array.prototype.slice(a, b)] for [0 <= a <= b]. *)
Definition slice {A : Type} (a b : nat) (l : list A) : list A :=
  firstn (b - a) (skipn a l).

(** [f.status === IDLE || f.status === ERROR]. *)
Definition isPending (f : FileItem) : bool :=
  match status f with
  | IDLE | ERROR => true
  | CONVERTING | COMPLETED => false
  end.

(** [files.filter(f => f.status === IDLE || f.status === ERROR)]. *)
Definition pendingFiles (files : list FileItem) : list FileItem :=
  List.filter isPending files.

(** The batches formed by
    [for (let i = 0; i < pendingFiles.length; i += BATCH_SIZE)]; the fuel
    bounds the number of iterations. *)
Fixpoint batches_from {A : Type} (fuel i : nat) (pending : list A) : list (list A) :=
  match fuel with
  | O => []
  | S fuel' =>
      if i <? length pending
      then slice i (i + BATCH_SIZE) pending :: batches_from fuel' (i + BATCH_SIZE) pending
      else []
  end.

Definition batches {A : Type} (pending : list A) : list (list A) :=
  batches_from (length pending) 0 pending.

(** How the promise returned by [convertWebPToJpeg] settles. *)
Inductive outcome : Type :=
  | Resolved (jpegBlob : Blob)
  | Rejected.

(** What can be observed of a run; [k] is a position in [pendingFiles]. *)
Inductive event : Type :=
  | EvSlice (i : nat)                 (* loop test passed, [batch] taken *)
  | EvMark (k : nat)                  (* [updateStatus(item.id, CONVERTING)] *)
  | EvDispatch (k : nat)              (* [convertWebPToJpeg(item.file)] called *)
  | EvAwaitAll                        (* [batch.map] returned, [Promise.all] awaited *)
  | EvSettle (k : nat) (o : outcome)  (* promise settled, final [updateStatus] *)
  | EvResume                          (* [Promise.all] fulfilled, [i += BATCH_SIZE] *)
  | EvExit.                           (* loop test failed *)

(** Control points of [startJpegConversion]. *)
Inductive pc : Type :=
  | AtLoop (i : nat)
  | InMap (i : nat) (todo inflight : list nat)
  | Marked (i k : nat) (todo inflight : list nat)
  | Awaiting (i : nat) (inflight : list nat)
  | Finished.

Definition remove_nat (k : nat) (l : list nat) : list nat :=
  List.filter (fun x => negb (x =? k)) l.

(** One transition; [n] is [pendingFiles.length].  The async arrow of
    [batch.map] runs synchronously up to its [await], so the items of a
    batch are marked and dispatched in order before anything settles;
    while [Promise.all] is awaited the host settles the promises in
    flight in any order. *)
Definition step (n : nat) (s : pc) (e : event) : option pc :=
  match s, e with
  | AtLoop i, EvSlice j =>
      if (i =? j) && (i <? n)
      then Some (InMap i (slice i (i + BATCH_SIZE) (seq 0 n)) [])
      else None
  | AtLoop i, EvExit => if i <? n then None else Some Finished
  | InMap i todo inflight, EvMark k' =>
      match todo with
      | k :: todo' => if k =? k' then Some (Marked i k todo' inflight) else None
      | [] => None
      end
  | Marked i k todo inflight, EvDispatch k' =>
      if k =? k' then Some (InMap i todo (inflight ++ [k])) else None
  | InMap i todo inflight, EvAwaitAll =>
      match todo with
      | [] => Some (Awaiting i inflight)
      | _ :: _ => None
      end
  | Awaiting i inflight, EvSettle k _ =>
      if existsb (Nat.eqb k) inflight
      then Some (Awaiting i (remove_nat k inflight))
      else None
  | Awaiting i inflight, EvResume =>
      match inflight with
      | [] => Some (AtLoop (i + BATCH_SIZE))
      | _ :: _ => None
      end
  | _, _ => None
  end.

Fixpoint exec (n : nat) (s : pc) (tr : list event) : option pc :=
  match tr with
  | [] => Some s
  | e :: tr' =>
      match step n s e with
      | Some s' => exec n s' tr'
      | None => None
      end
  end.

(** [tr] is the trace of a (possibly unfinished) run over [n] pending items. *)
Definition run_prefix (n : nat) (tr : list event) : Prop :=
  is_Some (exec n (AtLoop 0) tr).

(** The registry updater queued by an event. *)
Definition apply_event (pending : list FileItem) (e : event)
    (prev : list FileItem) : list FileItem :=
  match e with
  | EvMark k =>
      match nth_error pending k with
      | Some item => Registry.updateStatus (id item) CONVERTING no_extra prev
      | None => prev
      end
  | EvSettle k (Resolved jpegBlob) =>
      match nth_error pending k with
      | Some item => Registry.updateStatus (id item) COMPLETED (extra_blob jpegBlob) prev
      | None => prev
      end
  | EvSettle k Rejected =>
      match nth_error pending k with
      | Some item =>
          Registry.updateStatus (id item) ERROR (extra_error "Conversion failed") prev
      | None => prev
      end
  | _ => prev
  end.

(** The updaters of a run alone, in order: the collection after a run
    during which the user does nothing ([Live.files_after] has the
    actions of the user in between). *)
Definition apply_trace (pending : list FileItem) (tr : list event)
    (files : list FileItem) : list FileItem :=
  fold_left (fun prev e => apply_event pending e prev) tr files.

(** A complete run in which the promises of a batch settle in dispatch
    order; [oc k] is the outcome of item [k]. *)
Definition batch_trace (oc : nat -> outcome) (i : nat) (ks : list nat) : list event :=
  EvSlice i :: flat_map (fun k => [EvMark k; EvDispatch k]) ks
    ++ EvAwaitAll :: map (fun k => EvSettle k (oc k)) ks ++ [EvResume].

Fixpoint fifo_from (oc : nat -> outcome) (fuel i n : nat) : list event :=
  match fuel with
  | O => [EvExit]
  | S fuel' =>
      if i <? n
      then batch_trace oc i (slice i (i + BATCH_SIZE) (seq 0 n))
             ++ fifo_from oc fuel' (i + BATCH_SIZE) n
      else [EvExit]
  end.

Definition fifo_trace (oc : nat -> outcome) (n : nat) : list event :=
  fifo_from oc n 0 n.

Definition settled (tr : list event) (k : nat) : Prop :=
  exists o, In (EvSettle k o) tr.

Definition dispatched (tr : list event) (k : nat) : Prop :=
  In (EvDispatch k) tr.

End Scheduler.

(** ** Document assembler ([services/pdfService], [startPdfConversion]) *)

(** The arithmetic that the layout code uses on JavaScript numbers. *)
Class JsNumber (N : Type) : Type := {
  num : Z -> N;
  add : N -> N -> N;
  sub : N -> N -> N;
  mul : N -> N -> N;
  div : N -> N -> N;
  gt : N -> N -> bool
}.

(** Exact rational arithmetic, for the page constants: on the integers
    of the page sizes and margins it gives what binary64 gives. *)
#[global] Instance Q_JsNumber : JsNumber Q := {|
  num := inject_Z;
  add := Qplus;
  sub := Qminus;
  mul := Qmult;
  div := Qdiv;
  gt := fun a b => negb (Qle_bool a b)
|}.

(** [num] is only used on the constants of the source, which are not
    negative. *)
#[global] Instance float_JsNumber : JsNumber float := {|
  num := fun z => PrimFloat.of_uint63 (Uint63.of_Z z);
  add := PrimFloat.add;
  sub := PrimFloat.sub;
  mul := PrimFloat.mul;
  div := PrimFloat.div;
  gt := fun a b => PrimFloat.ltb b a
|}.

Module Pdf.

(** How a computation that may throw ends. *)
Inductive result (A : Type) : Type :=
  | Ok (a : A)
  | Throw.
Arguments Ok {A} a.
Arguments Throw {A}.

Section Layout.
Context {N : Type} `{JsNumber N}.

Definition MARGIN_SIZES (m : PdfMargin) : N :=
  match m with
  | none => num 0
  | small => num 10
  | big => num 25
  end.

Definition PAGE_SIZE_a4_width : N := num 210.
Definition PAGE_SIZE_a4_height : N := num 297.

Definition pageWidth (o : PdfOrientation) : N :=
  match o with
  | portrait => PAGE_SIZE_a4_width
  | landscape => PAGE_SIZE_a4_height
  end.

Definition pageHeight (o : PdfOrientation) : N :=
  match o with
  | portrait => PAGE_SIZE_a4_height
  | landscape => PAGE_SIZE_a4_width
  end.

Definition contentWidth (options : PdfOptions) : N :=
  sub (pageWidth (orientation options)) (mul (MARGIN_SIZES (margin options)) (num 2)).

Definition contentHeight (options : PdfOptions) : N :=
  sub (pageHeight (orientation options)) (mul (MARGIN_SIZES (margin options)) (num 2)).

(** The arguments of [doc.addImage] after the data URL. *)
Record Placement : Type := mkPlacement {
  x : N;
  y : N;
  finalWidth : N;
  finalHeight : N
}.

(** The body of the [try] block between [getImageData] and
    [doc.addImage]. *)
Definition fitImage (marginSize cw ch width height : N) : Placement :=
  let imgRatio := div width height in
  let finalWidth0 := cw in
  let finalHeight0 := div cw imgRatio in
  let '(finalWidth1, finalHeight1) :=
    if gt finalHeight0 ch
    then (mul ch imgRatio, ch)
    else (finalWidth0, finalHeight0) in
  {| x := add marginSize (div (sub cw finalWidth1) (num 2));
     y := add marginSize (div (sub ch finalHeight1) (num 2));
     finalWidth := finalWidth1;
     finalHeight := finalHeight1 |}.

(** What [getImageData] resolves to. *)
Record ImageData : Type := mkImage {
  dataUrl : string;
  width : N;
  height : N
}.

(** Calls on the jsPDF document. *)
Inductive doc_call : Type :=
  | NewDoc (o : PdfOrientation)
  | AddPage
  | AddImage (dataUrl : string) (p : Placement)
  | Text (s : string) (x y : N)
  | Output.

(** What a run of [generatePdf] does, in order. *)
Inductive effect : Type :=
  | Progress (index : nat)
  | GetImageData (index : nat) (f : File)
  | Doc (c : doc_call).

(** The host: how decoding a file ends ([None]: the promise is
    rejected), and whether a call on the document throws given what
    has happened so far. *)
Record Host : Type := mkHost {
  decode : File -> option ImageData;
  doc_throws : list effect -> doc_call -> bool
}.

(** The assembled document: the calls made on it. *)
Definition PdfBlob : Type := list doc_call.

(** Computations that log their effects and may throw. *)
Definition M (A : Type) : Type := list effect -> result A * list effect.

Definition ret {A : Type} (a : A) : M A := fun log => (Ok a, log).

Definition bind {A B : Type} (m : M A) (k : A -> M B) : M B :=
  fun log =>
    match m log with
    | (Ok a, log') => k a log'
    | (Throw, log') => (Throw, log')
    end.

Definition try_catch {A : Type} (body handler : M A) : M A :=
  fun log =>
    match body log with
    | (Ok a, log') => (Ok a, log')
    | (Throw, log') => handler log'
    end.

Definition emit (e : effect) : M unit := fun log => (Ok tt, log ++ [e]).

Definition docs_of (log : list effect) : list doc_call :=
  flat_map (fun e => match e with Doc c => [c] | _ => [] end) log.

Section WithHost.
Variable host : Host.

Definition call (c : doc_call) : M unit :=
  fun log =>
    if doc_throws host log c then (Throw, log) else (Ok tt, log ++ [Doc c]).

Definition getImageData (i : nat) (f : File) : M ImageData :=
  fun log =>
    match decode host f with
    | Some img => (Ok img, log ++ [GetImageData i f])
    | None => (Throw, log ++ [GetImageData i f])
    end.

(** One iteration of the [for] loop of [generatePdf]. *)
Definition page (options : PdfOptions) (i : nat) (f : File) : M unit :=
  bind (emit (Progress i)) (fun _ =>
  bind (if 0 <? i then call AddPage else ret tt) (fun _ =>
  try_catch
    (bind (getImageData i f) (fun img =>
       call (AddImage (dataUrl img)
               (fitImage (MARGIN_SIZES (margin options))
                  (contentWidth options) (contentHeight options)
                  (width img) (height img)))))
    (call (Text (String.append "Error loading image: " (name f))
             (num 10) (num 10))))).

Fixpoint pages (options : PdfOptions) (i : nat) (fs : list File) : M unit :=
  match fs with
  | [] => ret tt
  | f :: rest => bind (page options i f) (fun _ => pages options (S i) rest)
  end.

Definition generatePdf (fs : list File) (options : PdfOptions) : M PdfBlob :=
  bind (call (NewDoc (orientation options))) (fun _ =>
  bind (pages options 0 fs) (fun _ =>
  bind (call Output) (fun _ =>
  fun log => (Ok (docs_of log), log)))).

(** [{ ...f, status: CONVERTING }] *)
Definition resetConverting (f : FileItem) : FileItem :=
  Registry.spread f CONVERTING no_extra.

(** [{ ...f, status: ERROR, error: 'PDF Generation failed' }] *)
Definition failAll (f : FileItem) : FileItem :=
  Registry.spread f ERROR (extra_error "PDF Generation failed").

(** The callback handed to [generatePdf]:
    [updateStatus(files[index].id, COMPLETED)].  [files] is the array
    captured by the closure; [index] is below its length because
    [fileObjects] is [files.map(f => f.file)]. *)
Definition onProgress (files : list FileItem) (index : nat)
    (prev : list FileItem) : list FileItem :=
  match nth_error files index with
  | Some item => Registry.updateStatus (id item) COMPLETED no_extra prev
  | None => prev
  end.

Definition apply_progress (files : list FileItem) (log : list effect)
    (prev : list FileItem) : list FileItem :=
  fold_left
    (fun prev e => match e with Progress index => onProgress files index prev | _ => prev end)
    log prev.

(** [startPdfConversion] on the state [(files, pdfBlob)] when the user
    does nothing during the run ("since isProcessing blocks actions", as
    the source has it): the new state and the log of the run.  The
    updaters of the run are then applied, in the order in which they are
    queued, to the array that the closure captured.  The drop zone and
    the remove buttons are not blocked, though: [Live.startPdfConversion]
    is the run with the actions of the user in between. *)
Definition startPdfConversion (pdfOptions : PdfOptions)
    (files : list FileItem) (pdfBlob : option PdfBlob)
  : (list FileItem * option PdfBlob) * list effect :=
  let prev1 := map resetConverting files in
  let fileObjects := map file files in
  match generatePdf fileObjects pdfOptions [] with
  | (Ok blob, log) => ((apply_progress files log prev1, Some blob), log)
  | (Throw, log) => ((map failAll (apply_progress files log prev1), pdfBlob), log)
  end.

End WithHost.


End Layout.

Arguments Placement N : clear implicits.
Arguments ImageData N : clear implicits.
Arguments doc_call N : clear implicits.
Arguments effect N : clear implicits.
Arguments Host N : clear implicits.
Arguments PdfBlob N : clear implicits.

End Pdf.

(** ** Output packager ([services/imageService], [handleDownload]) *)

Module Packager.

(** [[^/.]]: any character but a slash and a dot. *)
Definition not_slash_dot (c : ascii) : bool :=
  negb (Ascii.eqb c "/"%char) && negb (Ascii.eqb c "."%char).

Fixpoint all_chars (p : ascii -> bool) (s : string) : bool :=
  match s with
  | EmptyString => true
  | String c s' => p c && all_chars p s'
  end.

(** Does [/\.[^/.]+$/] match [s] from its first character to its end? *)
Definition ext_here (s : string) : bool :=
  match s with
  | String c (String d rest) =>
      Ascii.eqb c "."%char && all_chars not_slash_dot (String d rest)
  | _ => false
  end.

(** [s.replace(/\.[^/.]+$/, "")]: the leftmost match, which runs to the end
    of the string, is removed; without a match [s] is returned. *)
Fixpoint strip_extension (s : string) : string :=
  if ext_here s then EmptyString
  else match s with
       | EmptyString => EmptyString
       | String c s' => String c (strip_extension s')
       end.

(** [file.name.replace(/\.[^/.]+$/, "") + ".jpg"]. *)
Definition fileName (n : string) : string :=
  String.append (strip_extension n) ".jpg".

(** The entries of a JSZip archive, by name; [zip.file(name, data)] sets
    the entry of that name.  (For a name that holds a [/] JSZip also
    creates entries for the folders of the name; these are not part of
    this map, which is the archive for names without [/], as the names
    of browser files are.) *)
Definition zip_file (n : string) (data : Blob) (zip : gmap string Blob)
  : gmap string Blob :=
  <[n := data]> zip.

(** The callback of the [forEach] of [zipAndDownload]. *)
Definition add_entry (zip : gmap string Blob) (f : string * Blob) : gmap string Blob :=
  zip_file (fileName (fst f)) (snd f) zip.

(** The [forEach] of [zipAndDownload] on a fresh archive. *)
Definition zipEntries (files : list (string * Blob)) : gmap string Blob :=
  fold_left add_entry files ∅.

(** [f.status === COMPLETED && f.convertedBlob], then
    [{ name: f.file.name, blob: f.convertedBlob! }]. *)
Definition completedFiles (files : list FileItem) : list (string * Blob) :=
  flat_map
    (fun f =>
       match status f, convertedBlob f with
       | COMPLETED, Some b => [(name (file f), b)]
       | _, _ => []
       end)
    files.

(** The archive delivered by [handleDownload] in JPEG mode; [None] when
    there is nothing to download. *)
Definition handleDownload_zip (files : list FileItem) : option (gmap string Blob) :=
  match completedFiles files with
  | [] => None
  | entries => Some (zipEntries entries)
  end.

End Packager.

(** ** Predicates of the specification *)

(** The output/error presence invariant of the data model: the converted
    blob is present exactly when the status is [COMPLETED], the error
    exactly when it is [ERROR]. *)
Definition presence_invariant (f : FileItem) : bool :=
  match status f, convertedBlob f, error f with
  | COMPLETED, Some _, None => true
  | ERROR, None, Some _ => true
  | IDLE, None, None => true
  | CONVERTING, None, None => true
  | _, _, _ => false
  end.

(** Its one-directional part: a [COMPLETED] item has a blob and an [ERROR]
    item has an error; nothing is said about the other field. *)
Definition result_present (f : FileItem) : bool :=
  match status f with
  | COMPLETED => bool_decide (is_Some (convertedBlob f))
  | ERROR => bool_decide (is_Some (error f))
  | IDLE | CONVERTING => true
  end.

(** The positions of batch [i] among [n] pending items. *)
Definition in_batch (n i x : nat) : Prop :=
  i <= x < i + Scheduler.BATCH_SIZE /\ x < n.

(** What must have happened before item [x] is dispatched: it has just been
    marked, and every item of an earlier batch has settled.  Positions
    [3k], [3k+1], [3k+2] form batch [k]. *)
Definition dispatch_ok (n : nat) (before : list Scheduler.event) (x : nat) : Prop :=
  x < n /\
  (exists t0, before = t0 ++ [Scheduler.EvMark x]) /\
  forall y, y / 3 < x / 3 -> Scheduler.settled before y.

(** What must have happened before item [y] settles: every item of its
    batch has been dispatched. *)
Definition settle_ok (n : nat) (before : list Scheduler.event) (y : nat) : Prop :=
  forall x, x < n -> x / 3 = y / 3 -> Scheduler.dispatched before x.

Definition trace_ok (n : nat) (tr : list Scheduler.event) : Prop :=
  (forall t1 x t2, tr = t1 ++ Scheduler.EvDispatch x :: t2 -> dispatch_ok n t1 x) /\
  (forall t1 y o t2, tr = t1 ++ Scheduler.EvSettle y o :: t2 -> settle_ok n t1 y).

(** What holds at each control point of [startJpegConversion] after the
    events [tr]. *)
Definition state_inv (n : nat) (tr : list Scheduler.event) (s : Scheduler.pc) : Prop :=
  match s with
  | Scheduler.AtLoop i =>
      i mod 3 = 0 /\
      (forall y, y < i -> y < n -> Scheduler.settled tr y)
  | Scheduler.InMap i todo inflight =>
      i mod 3 = 0 /\
      (forall y, y < i -> y < n -> Scheduler.settled tr y) /\
      (forall x, In x todo -> in_batch n i x) /\
      (forall x, In x inflight -> in_batch n i x) /\
      (forall x, in_batch n i x ->
         In x todo \/ (In x inflight /\ Scheduler.dispatched tr x))
  | Scheduler.Marked i k todo inflight =>
      i mod 3 = 0 /\
      (forall y, y < i -> y < n -> Scheduler.settled tr y) /\
      (forall x, In x (k :: todo) -> in_batch n i x) /\
      (forall x, In x inflight -> in_batch n i x) /\
      (forall x, in_batch n i x ->
         In x (k :: todo) \/ (In x inflight /\ Scheduler.dispatched tr x)) /\
      (exists t0, tr = t0 ++ [Scheduler.EvMark k])
  | Scheduler.Awaiting i inflight =>
      i mod 3 = 0 /\
      (forall y, y < i -> y < n -> Scheduler.settled tr y) /\
      (forall x, In x inflight -> in_batch n i x) /\
      (forall x, in_batch n i x -> Scheduler.dispatched tr x) /\
      (forall x, in_batch n i x -> In x inflight \/ Scheduler.settled tr x)
  | Scheduler.Finished =>
      forall y, y < n -> Scheduler.settled tr y
  end.

(** The log of a document run as the specification words it, page by page:
    progress for index [i], a new page when [i > 0], the rasterization of
    the source, then what is placed on the page. *)

Section PdfSpec.
Import Pdf.
Context {N : Type} `{JsNumber N}.

(** The visible error marker of a page: text naming the failing item. *)
Definition error_marker (f : File) : doc_call N :=
  Text (String.append "Error loading image: " (name f)) (num 10) (num 10).

(** The image of a page, fitted and centred in the content box. *)
Definition placed_image (options : PdfOptions) (img : ImageData N) : doc_call N :=
  AddImage (dataUrl img)
    (fitImage (MARGIN_SIZES (margin options))
       (contentWidth options) (contentHeight options) (width img) (height img)).

Definition page_log (i : nat) (f : File) (c : doc_call N) : list (effect N) :=
  Progress i :: (if 0 <? i then [Doc AddPage] else []) ++ [GetImageData i f; Doc c].

Fixpoint pages_log (i : nat) (fs : list File) (cs : list (doc_call N))
  : list (effect N) :=
  match fs, cs with
  | f :: fs', c :: cs' => page_log i f c ++ pages_log (S i) fs' cs'
  | _, _ => []
  end.

(** What a page may hold: the error marker, or the image when the source
    could be rasterized. *)
Definition page_choice (host : Host N) (options : PdfOptions) (f : File)
    (c : doc_call N) : Prop :=
  match decode host f with
  | Some img => c = placed_image options img \/ c = error_marker f
  | None => c = error_marker f
  end.

(** What a page holds when the document container does not fail. *)
Definition page_content (host : Host N) (options : PdfOptions) (f : File)
  : doc_call N :=
  match decode host f with
  | Some img => placed_image options img
  | None => error_marker f
  end.

Definition run_log (options : PdfOptions) (fs : list File) (cs : list (doc_call N))
  : list (effect N) :=
  Doc (NewDoc (orientation options)) :: pages_log 0 fs cs ++ [Doc Output].

End PdfSpec.

(** The fields that a status update without patch leaves alone. *)
Definition payload (f : FileItem) : string * File * string * option Blob * option string :=
  (id f, file f, previewUrl f, convertedBlob f, error f).


(** ** Sample inputs *)

(** A host that cannot decode [bad.webp] and decodes every other file to a
    4 by 3 image; [output_fails] says whether [doc.output] throws. *)
Definition demo_host (output_fails : bool) : Pdf.Host float :=
  {| Pdf.decode := fun f =>
       if String.eqb (name f) "bad.webp" then None
       else Some {| Pdf.dataUrl := "data:image/jpeg"; Pdf.width := 4%float; Pdf.height := 3%float |};
     Pdf.doc_throws := fun _ c =>
       match c with
       | Pdf.Output => output_fails
       | _ => false
       end |}.

Definition demo_files : list FileItem :=
  [ mkItem "a" (mkFile "a.webp" 1) "blob:a" IDLE None None;
    mkItem "b" (mkFile "bad.webp" 2) "blob:b" IDLE None None ].

(** ** The view ([App.tsx]: stats, mode buttons, action buttons) *)

Module View.

Record ProcessingStats : Type := mkStats {
  total : nat;
  completed : nat;
  failed : nat
}.

(** [f.status === st] *)
Definition has_status (st : ConversionStatus) (f : FileItem) : bool :=
  bool_decide (status f = st).

(** The [useMemo] that computes [stats] from [files]. *)
Definition stats (files : list FileItem) : ProcessingStats :=
  {| total := length files;
     completed := length (List.filter (has_status COMPLETED) files);
     failed := length (List.filter (has_status ERROR) files) |}.

(** The updater of the "PDF Mode" button:
    [prev.map(f => ({...f, status: IDLE}))]. *)
Definition switchToPdf (prev : list FileItem) : list FileItem :=
  map (fun f => Registry.spread f IDLE no_extra) prev.

Definition is_jpeg (mode : AppMode) : bool :=
  match mode with JPEG => true | PDF => false end.

(** Is the conversion button rendered?  Inside [files.length > 0 && ...]:
    [(!pdfBlob || mode === JPEG) && stats.completed < stats.total];
    [hasPdfBlob] says whether [pdfBlob] is set. *)
Definition showConvert (mode : AppMode) (hasPdfBlob : bool) (files : list FileItem)
  : bool :=
  (0 <? length files)
  && ((negb hasPdfBlob || is_jpeg mode)
      && (completed (stats files) <? total (stats files))).

(** Is the download button rendered?  Inside [files.length > 0 && ...]:
    [(mode === JPEG && stats.completed > 0) || (mode === PDF && pdfBlob)]. *)
Definition showDownload (mode : AppMode) (hasPdfBlob : bool) (files : list FileItem)
  : bool :=
  (0 <? length files)
  && ((is_jpeg mode && (0 <? completed (stats files)))
      || (negb (is_jpeg mode) && hasPdfBlob)).

(** The width of the progress bar, in percent:
    [stats.total > 0 ? (stats.completed / stats.total) * 100 : 0]. *)
Definition progressWidth {N : Type} `{JsNumber N} (s : ProcessingStats) : N :=
  if gt (num (Z.of_nat (total s))) (num 0)
  then mul (div (num (Z.of_nat (completed s))) (num (Z.of_nat (total s)))) (num 100)
  else num 0.

(** [FileCard]: the remove button is rendered when
    [item.status !== CONVERTING]. *)
Definition showRemove (f : FileItem) : bool :=
  negb (has_status CONVERTING f).

End View.

(** ** Observations on scheduler runs *)

(** The positions marked, dispatched and settled in a run, in order. *)
Definition mark_order (tr : list Scheduler.event) : list nat :=
  flat_map (fun e => match e with Scheduler.EvMark k => [k] | _ => [] end) tr.

Definition dispatch_order (tr : list Scheduler.event) : list nat :=
  flat_map (fun e => match e with Scheduler.EvDispatch k => [k] | _ => [] end) tr.

Definition settle_order (tr : list Scheduler.event) : list nat :=
  flat_map (fun e => match e with Scheduler.EvSettle k _ => [k] | _ => [] end) tr.

(** The position an event is about. *)
Definition about_pos (e : Scheduler.event) : option nat :=
  match e with
  | Scheduler.EvMark k | Scheduler.EvDispatch k | Scheduler.EvSettle k _ => Some k
  | _ => None
  end.

(** What the updater queued by an event does to one item of the
    collection ([Scheduler.apply_event] maps it over the collection). *)
Definition item_event (pending : list FileItem) (e : Scheduler.event) (g : FileItem)
  : FileItem :=
  match e with
  | Scheduler.EvMark k =>
      match nth_error pending k with
      | Some item =>
          if String.eqb (id g) (id item) then Registry.spread g CONVERTING no_extra else g
      | None => g
      end
  | Scheduler.EvSettle k (Scheduler.Resolved jpegBlob) =>
      match nth_error pending k with
      | Some item =>
          if String.eqb (id g) (id item)
          then Registry.spread g COMPLETED (extra_blob jpegBlob) else g
      | None => g
      end
  | Scheduler.EvSettle k Scheduler.Rejected =>
      match nth_error pending k with
      | Some item =>
          if String.eqb (id g) (id item)
          then Registry.spread g ERROR (extra_error "Conversion failed") else g
      | None => g
      end
  | _ => g
  end.

Definition item_trace (pending : list FileItem) (tr : list Scheduler.event)
    (g : FileItem) : FileItem :=
  fold_left (fun g e => item_event pending e g) tr g.

(** Position [k] is done with at a control point: nothing of the run that
    is still to come is about it. *)
Definition inactive (k : nat) (s : Scheduler.pc) : Prop :=
  match s with
  | Scheduler.AtLoop i => k < i
  | Scheduler.InMap i todo inflight =>
      k < i + Scheduler.BATCH_SIZE /\ ~ In k todo /\ ~ In k inflight
  | Scheduler.Marked i k' todo inflight =>
      k < i + Scheduler.BATCH_SIZE /\ k <> k' /\ ~ In k todo /\ ~ In k inflight
  | Scheduler.Awaiting i inflight =>
      k < i + Scheduler.BATCH_SIZE /\ ~ In k inflight
  | Scheduler.Finished => True
  end.

(** How an item stands after its promise settled with [o]. *)
Definition settled_as (o : Scheduler.outcome) (g : FileItem) : Prop :=
  match o with
  | Scheduler.Resolved jpegBlob => status g = COMPLETED /\ convertedBlob g = Some jpegBlob
  | Scheduler.Rejected => status g = ERROR /\ error g = Some "Conversion failed"%string
  end.

(** [status] is [COMPLETED] or [ERROR]. *)
Definition is_settled (g : FileItem) : bool :=
  match status g with
  | COMPLETED | ERROR => true
  | IDLE | CONVERTING => false
  end.

(** Items in a given status. *)
Definition count_status (st : ConversionStatus) (files : list FileItem) : nat :=
  length (List.filter (View.has_status st) files).

(** ** Object URLs of the collection *)

(** The handlers that change the collection, as operations. *)
Inductive registry_op : Type :=
  | OpAdd (newFiles : list (File * (string * string)))
  | OpRemove (i : string)
  | OpClear (confirmed : bool)
  | OpUpdate (i : string) (st : ConversionStatus) (extra : PartialFileItem).

(** The collection with the URLs handed out by [URL.createObjectURL] for
    its items and the URLs handed to [URL.revokeObjectURL]. *)
Record ledger : Type := mkLedger {
  l_files : list FileItem;
  l_created : list string;
  l_revoked : list string
}.

Definition run_op (st : ledger) (op : registry_op) : ledger :=
  match op with
  | OpAdd newFiles =>
      {| l_files := Registry.handleFilesAdded newFiles (l_files st);
         l_created := l_created st ++ map (fun src => snd (snd src)) newFiles;
         l_revoked := l_revoked st |}
  | OpRemove i =>
      {| l_files := fst (Registry.handleRemoveFile i (l_files st));
         l_created := l_created st;
         l_revoked := l_revoked st ++ snd (Registry.handleRemoveFile i (l_files st)) |}
  | OpClear confirmed =>
      {| l_files := fst (Registry.handleClearAll confirmed (l_files st));
         l_created := l_created st;
         l_revoked := l_revoked st ++ snd (Registry.handleClearAll confirmed (l_files st)) |}
  | OpUpdate i status extra =>
      {| l_files := Registry.updateStatus i status extra (l_files st);
         l_created := l_created st;
         l_revoked := l_revoked st |}
  end.

Definition run_ops (st : ledger) (ops : list registry_op) : ledger :=
  fold_left run_op ops st.

(** What the callers guarantee: the ids of added items are new and
    distinct, and a status update does not patch the id or the URL. *)
Definition op_ok (st : ledger) (op : registry_op) : Prop :=
  match op with
  | OpAdd newFiles =>
      NoDup (map id (l_files st) ++ map (fun src => fst (snd src)) newFiles)
  | OpUpdate _ _ extra => p_id extra = None /\ p_previewUrl extra = None
  | OpRemove _ | OpClear _ => True
  end.

Fixpoint ops_ok (st : ledger) (ops : list registry_op) : Prop :=
  match ops with
  | [] => True
  | op :: rest => op_ok st op /\ ops_ok (run_op st op) rest
  end.

(** ** The assembled document *)

(** The calls that fill the pages of a document: the content of the first
    page, then a new page before the content of each further page. *)
Definition doc_pages {N : Type} (cs : list (Pdf.doc_call N)) : list (Pdf.doc_call N) :=
  match cs with
  | [] => []
  | c :: rest => c :: flat_map (fun c' => [Pdf.AddPage; c']) rest
  end.

(** Is the call an image or a text placed on a page? *)
Definition is_content {N : Type} (c : Pdf.doc_call N) : bool :=
  match c with
  | Pdf.AddImage _ _ | Pdf.Text _ _ _ => true
  | _ => false
  end.

Definition is_addPage {N : Type} (c : Pdf.doc_call N) : bool :=
  match c with
  | Pdf.AddPage => true
  | _ => false
  end.

(** ** Drop zone ([components/DropZone.tsx]) *)

Module DropZone.

(** A [File] as the drop zone sees it: with its MIME [type].  A string
    is a sequence of code units below 256 here, so the strings of the
    source that are modelled are those of such characters (MIME types are
    ASCII). *)
Record DroppedFile : Type := mkDropped { dropped : File; type : string }.

(** The white space and line terminators that [String.prototype.trim]
    removes, among the characters below 256: tab, line feed, vertical
    tab, form feed, carriage return, space, and the no-break space
    U+00A0 (the others are above 255). *)
Definition is_space (c : ascii) : bool :=
  match nat_of_ascii c with
  | 9 | 10 | 11 | 12 | 13 | 32 | 160 => true
  | _ => false
  end.

Fixpoint trimStart (s : string) : string :=
  match s with
  | EmptyString => EmptyString
  | String c s' => if is_space c then trimStart s' else s
  end.

Fixpoint trimEnd (s : string) : string :=
  match s with
  | EmptyString => EmptyString
  | String c s' =>
      match trimEnd s' with
      | EmptyString => if is_space c then EmptyString else String c EmptyString
      | r => String c r
      end
  end.

(** [t.trim()] *)
Definition trim (s : string) : string := trimEnd (trimStart s).

(** [accept.split(',')] *)
Fixpoint split_comma (s : string) : list string :=
  match s with
  | EmptyString => [EmptyString]
  | String c s' =>
      if Ascii.eqb c ","%char then EmptyString :: split_comma s'
      else match split_comma s' with
           | h :: t => String c h :: t
           | [] => [String c EmptyString]
           end
  end.

(** [validateFile] *)
Definition validateFile (accept : string) (f : DroppedFile) : bool :=
  if String.eqb accept "image/*"
  then String.prefix "image/" (type f)
  else existsb (String.eqb (type f)) (map trim (split_comma accept)).

(** What a handler ends up calling. *)
Inductive drop_call : Type :=
  | OnFilesAdded (validFiles : list DroppedFile)
  | Alert (msg : string)
  | NoCall.

(** [handleDrop], on the files of the drop. *)
Definition handleDrop (accept : string) (files : list DroppedFile) : drop_call :=
  match files with
  | [] => NoCall
  | _ :: _ =>
      match List.filter (validateFile accept) files with
      | [] =>
          Alert (if String.eqb accept "image/webp"
                 then "Please drop WebP images only."
                 else "Please drop image files only.")
      | validFiles => OnFilesAdded validFiles
      end
  end.

(** [handleFileInput], on the files of the input element. *)
Definition handleFileInput (accept : string) (files : list DroppedFile) : drop_call :=
  match files with
  | [] => NoCall
  | _ :: _ =>
      match List.filter (validateFile accept) files with
      | [] => NoCall
      | validFiles => OnFilesAdded validFiles
      end
  end.

(** [acceptType] of [App.tsx]. *)
Definition acceptType (mode : AppMode) : string :=
  match mode with
  | PDF => "image/*"
  | JPEG => "image/webp"
  end.

End DropZone.

(** ** Rasterization ([convertWebPToJpeg], [getImageData]) *)

Module ImageService.

(** What the canvas gives: no 2d context, or the result of encoding the
    drawn image. *)
Inductive canvas_outcome (A : Type) : Type :=
  | ContextMissing
  | Drawn (a : A).
Arguments ContextMissing {A}.
Arguments Drawn {A} a.

(** How loading the image ends: [onerror], or [onload] with the
    dimensions of the image. *)
Inductive image_load (A : Type) : Type :=
  | LoadFailed
  | Loaded (w h : nat) (c : canvas_outcome A).
Arguments LoadFailed {A}.
Arguments Loaded {A} w h c.

(** Calls on the browser, in order. *)
Inductive browser_call : Type :=
  | CreateObjectURL (f : File)
  | SetSrc (url : string)
  | CreateCanvas (w h : nat)
  | GetContext2d
  | FillStyle (color : string)
  | FillRect (x y w h : nat)
  | DrawImage (x y : nat)
  | ToBlob (mime : string) (quality : Q)
  | ToDataURL (mime : string) (quality : Q)
  | RevokeObjectURL (url : string).

(** How the returned promise settles. *)
Inductive settled (A : Type) : Type :=
  | Resolve (a : A)
  | Reject (msg : string).
Arguments Resolve {A} a.
Arguments Reject {A} msg.

(** [convertWebPToJpeg(file, quality)]; [objectUrl] is what
    [URL.createObjectURL(file)] returns, [load] what the browser does
    with the image ([Drawn None]: [toBlob] calls back with [null]). *)
Definition convertWebPToJpeg (f : File) (quality : Q) (objectUrl : string)
    (load : image_load (option Blob)) : list browser_call * settled Blob :=
  match load with
  | LoadFailed =>
      ([CreateObjectURL f; SetSrc objectUrl; RevokeObjectURL objectUrl],
       Reject "Failed to load image")
  | Loaded w h ContextMissing =>
      ([CreateObjectURL f; SetSrc objectUrl; CreateCanvas w h; GetContext2d;
        RevokeObjectURL objectUrl],
       Reject "Could not get canvas context")
  | Loaded w h (Drawn blob) =>
      ([CreateObjectURL f; SetSrc objectUrl; CreateCanvas w h; GetContext2d;
        FillStyle "#FFFFFF"; FillRect 0 0 w h; DrawImage 0 0;
        ToBlob "image/jpeg" quality; RevokeObjectURL objectUrl],
       match blob with
       | Some b => Resolve b
       | None => Reject "Conversion failed"
       end)
  end.

(** The default [quality = 0.9]. *)
Definition default_quality : Q := 9 # 10.

(** [getImageData(file)] of the document path. *)
Definition getImageData {N : Type} `{JsNumber N} (f : File) (objectUrl : string)
    (load : image_load string) : list browser_call * settled (Pdf.ImageData N) :=
  match load with
  | LoadFailed =>
      ([CreateObjectURL f; SetSrc objectUrl; RevokeObjectURL objectUrl],
       Reject "Failed to load image")
  | Loaded w h ContextMissing =>
      ([CreateObjectURL f; SetSrc objectUrl; CreateCanvas w h; GetContext2d;
        RevokeObjectURL objectUrl],
       Reject "Canvas context failed")
  | Loaded w h (Drawn dataUrl) =>
      ([CreateObjectURL f; SetSrc objectUrl; CreateCanvas w h; GetContext2d;
        FillStyle "#FFFFFF"; FillRect 0 0 w h; DrawImage 0 0;
        ToDataURL "image/jpeg" (95 # 100); RevokeObjectURL objectUrl],
       Resolve {| Pdf.dataUrl := dataUrl;
                  Pdf.width := num (Z.of_nat w);
                  Pdf.height := num (Z.of_nat h) |})
  end.

(** The [try]/[catch] around [await convertWebPToJpeg(item.file)]: how the
    scheduler sees the promise. *)
Definition seen_by_scheduler (r : settled Blob) : Scheduler.outcome :=
  match r with
  | Resolve jpegBlob => Scheduler.Resolved jpegBlob
  | Reject _ => Scheduler.Rejected
  end.

Definition is_create (c : browser_call) : bool :=
  match c with CreateObjectURL _ => true | _ => false end.

Definition is_revoke (c : browser_call) : bool :=
  match c with RevokeObjectURL _ => true | _ => false end.

Definition is_draw (c : browser_call) : bool :=
  match c with DrawImage _ _ => true | _ => false end.

End ImageService.

(** ** Predicates on accept lists and browser calls *)

(** A MIME type that holds no comma. *)
Fixpoint no_comma (s : string) : bool :=
  match s with
  | EmptyString => true
  | String c s' => negb (Ascii.eqb c ","%char) && no_comma s'
  end.

Section BrowserCalls.
Import ImageService.

(** One object URL is created, and released once, by the last call. *)
Definition released_once (objectUrl : string) (calls : list browser_call) : Prop :=
  length (List.filter is_create calls) = 1
  /\ List.filter is_revoke calls = [RevokeObjectURL objectUrl]
  /\ last calls = Some (RevokeObjectURL objectUrl).

(** An image is drawn only when it has loaded, and then at the origin of
    a canvas of its own size that was filled with white just before. *)
Definition white_under_image {A : Type} (load : image_load A)
    (calls : list browser_call) : Prop :=
  forall pre x y post,
    calls = pre ++ DrawImage x y :: post ->
    exists w h c pre',
      load = Loaded w h c
      /\ pre = pre' ++ [CreateCanvas w h; GetContext2d;
                        FillStyle "#FFFFFF"; FillRect 0 0 w h]
      /\ x = 0 /\ y = 0.

End BrowserCalls.

(** ** Runs against the live collection *)

(** A run queues its updaters one after the other, with [await]s in
    between; while it waits the user can still act on the collection
    ([isProcessing] disables the mode buttons, the conversion button and
    "Clear All", but neither the drop zone, nor the remove button of an
    item that is not [CONVERTING], nor the option buttons), and the
    updaters of these actions are queued in between.  Every updater is
    applied to the collection as it is when its turn comes. *)

Module Live.

(** What the user can do during a run. *)
Inductive action : Type :=
  | FilesAdded (newFiles : list (File * (string * string)))  (* [handleFilesAdded] *)
  | RemoveFile (i : string)                                  (* [handleRemoveFile] *)
  | OptionChanged.                       (* [setPdfOptions(...); setPdfBlob(null)] *)

(** The updater of [files] that an action queues. *)
Definition act_files (a : action) (prev : list FileItem) : list FileItem :=
  match a with
  | FilesAdded newFiles => Registry.handleFilesAdded newFiles prev
  | RemoveFile i => fst (Registry.handleRemoveFile i prev)
  | OptionChanged => prev
  end.

(** An entry of the queue: an updater of the run, or an action of the
    user. *)
Inductive entry (W : Type) : Type :=
  | ByRun (w : W)
  | ByUser (a : action).
Arguments ByRun {W} w.
Arguments ByUser {W} a.

Section Queue.
Context {W : Type}.

Definition run_part (tr : list (entry W)) : list W :=
  flat_map (fun e => match e with ByRun w => [w] | ByUser _ => [] end) tr.

(** The files added, and the ids removed, by the user. *)
Definition added (tr : list (entry W)) : list (File * (string * string)) :=
  flat_map (fun e => match e with ByUser (FilesAdded newFiles) => newFiles | _ => [] end) tr.

Definition removed (tr : list (entry W)) : list string :=
  flat_map (fun e => match e with ByUser (RemoveFile i) => [i] | _ => [] end) tr.

(** The queue of a run during which the user does nothing. *)
Definition undisturbed (ws : list W) : list (entry W) := map ByRun ws.

Variable update : W -> list FileItem -> list FileItem.

Definition step_files (prev : list FileItem) (e : entry W) : list FileItem :=
  match e with
  | ByRun w => update w prev
  | ByUser a => act_files a prev
  end.

(** The collection after the queue [tr]. *)
Definition files_after (tr : list (entry W)) (files : list FileItem) : list FileItem :=
  fold_left step_files tr files.

End Queue.

Section Document.
Context {N : Type} `{JsNumber N}.

(** The updates of the state that [startPdfConversion] queues. *)
Inductive pdf_write : Type :=
  | Reset                          (* [prev.map(f => ({ ...f, status: CONVERTING }))] *)
  | Progressed (index : nat)       (* [updateStatus(files[index].id, COMPLETED)] *)
  | Store (blob : Pdf.PdfBlob N)   (* [setPdfBlob(blob)] *)
  | Fail.                          (* the updater of the [catch] block *)

(** What a write does to [files]; the first argument is the array
    captured by the closure of [startPdfConversion]. *)
Definition pdf_files (files : list FileItem) (w : pdf_write) (prev : list FileItem)
  : list FileItem :=
  match w with
  | Reset => map Pdf.resetConverting prev
  | Progressed index => Pdf.onProgress files index prev
  | Store _ => prev
  | Fail => map Pdf.failAll prev
  end.

(** The state [(files, pdfBlob)] after an entry; each action of the user
    also calls [setPdfBlob(null)]. *)
Definition pdf_step (files : list FileItem)
    (st : list FileItem * option (Pdf.PdfBlob N)) (e : entry pdf_write)
  : list FileItem * option (Pdf.PdfBlob N) :=
  match e with
  | ByRun w =>
      (pdf_files files w (fst st),
       match w with Store blob => Some blob | _ => snd st end)
  | ByUser a => (act_files a (fst st), None)
  end.

Definition state_after (files : list FileItem) (tr : list (entry pdf_write))
    (st : list FileItem * option (Pdf.PdfBlob N))
  : list FileItem * option (Pdf.PdfBlob N) :=
  fold_left (pdf_step files) tr st.

(** The calls of [onProgress] in a log of [generatePdf]. *)
Definition progress_writes (log : list (Pdf.effect N)) : list pdf_write :=
  flat_map (fun e => match e with Pdf.Progress index => [Progressed index] | _ => [] end) log.

(** After [await generatePdf(...)]: [setPdfBlob(blob)], or the [catch]
    block. *)
Definition final_write (r : Pdf.result (Pdf.PdfBlob N)) : pdf_write :=
  match r with
  | Pdf.Ok blob => Store blob
  | Pdf.Throw => Fail
  end.

(** [startPdfConversion] on the live state, which at the click is the
    rendered state [(files, pdfBlob)] that the closure captured: the
    reset is queued at once, the last write when [generatePdf] has
    settled; [mid] is what is queued in between, the progress updates of
    the run among the actions of the user. *)
Definition startPdfConversion (host : Pdf.Host N) (pdfOptions : PdfOptions)
    (files : list FileItem) (pdfBlob : option (Pdf.PdfBlob N))
    (mid : list (entry pdf_write))
  : list FileItem * option (Pdf.PdfBlob N) :=
  let r := Pdf.generatePdf host (map file files) pdfOptions [] in
  state_after files (ByRun Reset :: mid ++ [ByRun (final_write (fst r))]) (files, pdfBlob).

End Document.

Arguments pdf_write N : clear implicits.

End Live.

(** What a write of a document run does to one item of the collection. *)
Definition pdf_item {N : Type} (files : list FileItem) (w : Live.pdf_write N)
    (g : FileItem) : FileItem :=
  match w with
  | Live.Reset => Pdf.resetConverting g
  | Live.Progressed index =>
      match nth_error files index with
      | Some item =>
          if String.eqb (id g) (id item) then Registry.spread g COMPLETED no_extra else g
      | None => g
      end
  | Live.Store _ => g
  | Live.Fail => Pdf.failAll g
  end.

(** The ids given to the files that the user added. *)
Definition added_ids {W : Type} (tr : list (Live.entry W)) : list string :=
  map (fun src => fst (snd src)) (Live.added tr).

(** An item after the updates [ws] of a run, each of which maps
    [item_update] over the collection. *)
Definition item_after {W : Type} (item_update : W -> FileItem -> FileItem)
    (ws : list W) (g : FileItem) : FileItem :=
  fold_left (fun g w => item_update w g) ws g.

(** Is the call [doc.addImage]?  (The only call on the document inside
    the [try] block.) *)
Definition is_addImage {N : Type} (c : Pdf.doc_call N) : bool :=
  match c with
  | Pdf.AddImage _ _ => true
  | _ => false
  end.

(** How a computation of a document run ended against the log that the
    specification words, of which [rest] has not been reached: it
    returned when nothing is left, and threw when the first thing left is
    a call on the document, other than [addImage], that threw after
    [log]. *)
Definition ended {N : Type} {A : Type} (host : Pdf.Host N) (res : Pdf.result A)
    (log rest : list (Pdf.effect N)) : Prop :=
  match res with
  | Pdf.Ok _ => rest = []
  | Pdf.Throw =>
      exists c rest', rest = Pdf.Doc c :: rest' /\
        Pdf.doc_throws host log c = true /\ is_addImage c = false
  end.

(** ** Binary64 arithmetic of the layout *)

(** A non-negative integer (a pixel count, an item count) as a JavaScript
    number. *)
Definition js (n : nat) : float := num (Z.of_nat n).

(** The six choices of document options. *)
Definition all_options : list PdfOptions :=
  [ mkOptions none portrait; mkOptions small portrait; mkOptions big portrait;
    mkOptions none landscape; mkOptions small landscape; mkOptions big landscape ].

(** The placement that [generatePdf] computes for an image of [w] by [h]
    under the given options. *)
Definition placement (options : PdfOptions) (w h : float) : Pdf.Placement float :=
  Pdf.fitImage (Pdf.MARGIN_SIZES (margin options))
    (Pdf.contentWidth options) (Pdf.contentHeight options) w h.



(** The placed image lies between the margins of the page. *)
Definition inside_margins (options : PdfOptions) (w h : nat) : bool :=
  let p := placement options (js w) (js h) in
  let m := Pdf.MARGIN_SIZES (margin options) in
  PrimFloat.leb m (Pdf.x p)
  && PrimFloat.leb (PrimFloat.add (Pdf.x p) (Pdf.finalWidth p))
       (PrimFloat.sub (Pdf.pageWidth (orientation options)) m)
  && PrimFloat.leb m (Pdf.y p)
  && PrimFloat.leb (PrimFloat.add (Pdf.y p) (Pdf.finalHeight p))
       (PrimFloat.sub (Pdf.pageHeight (orientation options)) m).

(** [chk] holds of every size from 1 by 1 to [bound] by [bound] under
    every choice of options. *)
Definition for_sizes (bound : nat) (chk : PdfOptions -> nat -> nat -> bool) : bool :=
  forallb
    (fun options =>
       forallb (fun w => forallb (fun h => chk options w h) (seq 1 bound)) (seq 1 bound))
    all_options.


(** The progress bar of [completed] items out of [total] is between 0 and
    100 wide, and 100 exactly when all of a positive number are
    completed. *)
Definition progress_ok (total completed : nat) : bool :=
  let p := View.progressWidth (N:=float) (View.mkStats total completed 0) in
  PrimFloat.leb 0 p && PrimFloat.leb p 100
  && Bool.eqb (PrimFloat.eqb p 100) ((completed =? total) && (0 <? total)).

(** ** Names and types as browsers give them *)

(** A name without [/]: the name of a browser file is its last path
    component. *)
Definition no_slash (s : string) : bool :=
  Packager.all_chars (fun c => negb (Ascii.eqb c "/"%char)) s.

(** A string of ASCII characters. *)
Definition is_ascii (s : string) : bool :=
  Packager.all_chars (fun c => nat_of_ascii c <? 128) s.

(** * Properties *)

(** ** Item registry *)

Section RegistryFacts.
Import Registry.

Lemma updateStatus_length i st extra prev :
  length (updateStatus i st extra prev) = length prev.
Proof. unfold updateStatus. apply length_map. Qed.

Lemma updateStatus_nth i st extra prev k :
  nth_error (updateStatus i st extra prev) k =
  option_map (fun f => if String.eqb (id f) i then spread f st extra else f)
    (nth_error prev k).
Proof. unfold updateStatus. apply nth_error_map. Qed.

Lemma updateStatus_other i st extra prev k f :
  nth_error prev k = Some f -> id f <> i ->
  nth_error (updateStatus i st extra prev) k = Some f.
Proof.
  intros Hk Hne. rewrite updateStatus_nth, Hk. simpl.
  destruct (String.eqb_spec (id f) i); congruence.
Qed.

Lemma updateStatus_same i st extra prev k f :
  nth_error prev k = Some f -> id f = i ->
  nth_error (updateStatus i st extra prev) k = Some (spread f st extra).
Proof.
  intros Hk He. rewrite updateStatus_nth, Hk. simpl.
  destruct (String.eqb_spec (id f) i); congruence.
Qed.

(** [C9] [updateStatus(id, status, patch)] keeps the length and order of the
    collection, leaves every item with another id exactly as it was, and on
    an item with the given id sets the status and the keys present in the
    patch, every other field (id, file, preview URL, a blob or error set
    before) keeping its value. *)
Theorem updateStatus_frame (prev : list FileItem) (i : string)
    (st : ConversionStatus) (extra : PartialFileItem) :
  length (updateStatus i st extra prev) = length prev /\
  forall k f, nth_error prev k = Some f ->
    (id f <> i -> nth_error (updateStatus i st extra prev) k = Some f) /\
    (id f = i ->
     exists f', nth_error (updateStatus i st extra prev) k = Some f' /\
       status f' = default st (p_status extra) /\
       id f' = default (id f) (p_id extra) /\
       file f' = default (file f) (p_file extra) /\
       previewUrl f' = default (previewUrl f) (p_previewUrl extra) /\
       convertedBlob f' = default (convertedBlob f) (Some <$> p_convertedBlob extra) /\
       error f' = default (error f) (Some <$> p_error extra)).
Proof.
  split; [apply updateStatus_length|].
  intros k f Hk. split; intros Hi.
  - by apply updateStatus_other.
  - exists (spread f st extra). split; [by apply updateStatus_same|].
    unfold spread; simpl.
    destruct (p_convertedBlob extra), (p_error extra); simpl; auto 10.
Qed.

Lemma updateStatus_frame_witness :
  let a := mkItem "a" (mkFile "a.webp" 1) "blob:a" ERROR None (Some "Conversion failed"%string) in
  let b := mkItem "b" (mkFile "b.webp" 2) "blob:b" IDLE None None in
  nth_error (updateStatus "a" COMPLETED (extra_blob "jpeg") [a; b]) 1 = Some b.
Proof.
  intros a b.
  apply (proj2 (updateStatus_frame [a; b] "a" COMPLETED (extra_blob "jpeg")) 1 b eq_refl).
  discriminate.
Defined.

Lemma remove_absent i prev :
  (forall f, In f prev -> id f <> i) ->
  handleRemoveFile i prev = (prev, []).
Proof.
  intros Habs. unfold handleRemoveFile.
  induction prev as [|g prev IH]; [reflexivity|].
  simpl. assert (Hg : id g <> i) by (apply Habs; by left).
  destruct (String.eqb_spec (id g) i) as [|_]; [done|]. simpl.
  assert (IH' := IH (fun f Hf => Habs f (or_intror Hf))).
  injection IH' as Hfilter Hfind. rewrite Hfilter.
  destruct (List.find _ prev); [discriminate|reflexivity].
Qed.

Lemma remove_present i l1 f l2 :
  NoDup (map id (l1 ++ f :: l2)) -> id f = i ->
  handleRemoveFile i (l1 ++ f :: l2) = (l1 ++ l2, [previewUrl f]).
Proof.
  intros Hnd Hi.
  assert (H1 : forall g, In g l1 -> id g <> i).
  { intros g Hg Heq. rewrite map_app in Hnd. simpl in Hnd.
    apply NoDup_app in Hnd as (_ & Hdisj & _).
    apply (Hdisj (id g)); [apply list_elem_of_In, in_map, Hg|].
    rewrite Heq, <- Hi. left. }
  assert (H2 : forall g, In g l2 -> id g <> i).
  { intros g Hg Heq. rewrite map_app in Hnd. simpl in Hnd.
    apply NoDup_app in Hnd as (_ & _ & Hnd).
    apply NoDup_cons in Hnd as [Hnotin _]. apply Hnotin.
    rewrite Hi, <- Heq. apply list_elem_of_In, in_map, Hg. }
  pose proof (remove_absent i l2 H2) as R2. unfold handleRemoveFile in R2.
  injection R2 as F2 _.
  unfold handleRemoveFile. clear Hnd H2.
  induction l1 as [|g l1 IH]; simpl.
  - destruct (String.eqb_spec (id f) i); [|done]. simpl. by rewrite F2.
  - assert (Hg : id g <> i) by (apply H1; by left).
    destruct (String.eqb_spec (id g) i) as [|_]; [done|]. simpl.
    assert (IH' := IH (fun h Hh => H1 h (or_intror Hh))).
    injection IH' as Hfilter Hfind. rewrite Hfilter.
    destruct (List.find _ (l1 ++ f :: l2)); [|discriminate].
    injection Hfind as ->. reflexivity.
Qed.

Lemma remove_filter_absent i prev :
  forall f, In f (fst (handleRemoveFile i prev)) -> id f <> i.
Proof.
  intros f. unfold handleRemoveFile. simpl. rewrite filter_In.
  intros [_ Hf]. destruct (String.eqb_spec (id f) i); [discriminate|done].
Qed.

(** Ids stay pairwise distinct as long as the host hands out fresh ones. *)

Lemma handleFilesAdded_ids newFiles prev :
  map id (handleFilesAdded newFiles prev) =
  map id prev ++ map (fun src => fst (snd src)) newFiles.
Proof.
  unfold handleFilesAdded. rewrite map_app, map_map. f_equal.
  apply map_ext. by intros [f [u p]].
Qed.

Lemma handleFilesAdded_NoDup newFiles prev :
  NoDup (map id prev ++ map (fun src => fst (snd src)) newFiles) ->
  NoDup (map id (handleFilesAdded newFiles prev)).
Proof. by rewrite handleFilesAdded_ids. Qed.

Lemma handleRemoveFile_NoDup i prev :
  NoDup (map id prev) -> NoDup (map id (fst (handleRemoveFile i prev))).
Proof.
  unfold handleRemoveFile. simpl. induction prev as [|f prev IH]; intros Hnd; [done|].
  simpl in Hnd. apply NoDup_cons in Hnd as [Hnotin Hnd]. simpl.
  destruct (negb (String.eqb (id f) i)); [|by apply IH]. simpl.
  apply NoDup_cons. split; [|by apply IH].
  intros Hin. apply Hnotin. apply list_elem_of_In, in_map_iff in Hin as (g & Hg & Hin).
  apply filter_In in Hin as [Hin _]. rewrite <- Hg. by apply list_elem_of_In, in_map.
Qed.

Lemma updateStatus_ids i st extra prev :
  p_id extra = None -> map id (updateStatus i st extra prev) = map id prev.
Proof.
  intros Hid. unfold updateStatus. rewrite map_map. apply map_ext. intros f.
  destruct (String.eqb (id f) i); [|reflexivity]. unfold spread. simpl. by rewrite Hid.
Qed.

(** [C8] In a collection whose ids are pairwise distinct, removing the id of
    an item of the collection revokes exactly the preview URL of that item
    and yields the collection without that one item, every other item
    unchanged and in place; removing an id that no item has revokes nothing
    and leaves the collection as it is, so a second removal of the same id
    is a no-op. *)
Theorem handleRemoveFile_exact (files : list FileItem) (i : string) :
  NoDup (map id files) ->
  (forall f, In f files -> id f = i ->
     exists l1 l2, files = l1 ++ f :: l2 /\
       handleRemoveFile i files = (l1 ++ l2, [previewUrl f])) /\
  ((forall f, In f files -> id f <> i) -> handleRemoveFile i files = (files, [])) /\
  handleRemoveFile i (fst (handleRemoveFile i files)) = (fst (handleRemoveFile i files), []).
Proof.
  intros Hnd. split; [|split].
  - intros f Hin Hi. destruct (List.in_split _ _ Hin) as (l1 & l2 & ->).
    exists l1, l2. split; [reflexivity|]. by apply remove_present.
  - apply remove_absent.
  - apply remove_absent, remove_filter_absent.
Qed.

Lemma handleRemoveFile_exact_witness :
  let a := mkItem "a" (mkFile "a.webp" 1) "blob:a" COMPLETED (Some "jpeg"%string) None in
  let b := mkItem "b" (mkFile "b.webp" 2) "blob:b" IDLE None None in
  let c := mkItem "c" (mkFile "c.webp" 3) "blob:c" ERROR None (Some "Conversion failed"%string) in
  NoDup (map id [a; b; c]) /\
  (exists l1 l2, [a; b; c] = l1 ++ b :: l2 /\
     handleRemoveFile "b" [a; b; c] = (l1 ++ l2, [previewUrl b])) /\
  handleRemoveFile "z" [a; b; c] = ([a; b; c], []).
Proof.
  intros a b c.
  assert (Hnd : NoDup (map id [a; b; c])) by (by apply (bool_decide_unpack _)).
  split; [exact Hnd|]. split.
  - apply (proj1 (handleRemoveFile_exact [a; b; c] "b" Hnd) b); [simpl; auto | reflexivity].
  - apply (proj1 (proj2 (handleRemoveFile_exact [a; b; c] "z" Hnd))).
    intros f [<-|[<-|[<-|[]]]]; discriminate.
Defined.

(** Mutations that keep the presence invariant. *)

Lemma handleFilesAdded_invariant newFiles prev :
  forallb presence_invariant prev = true ->
  forallb presence_invariant (handleFilesAdded newFiles prev) = true.
Proof.
  intros Hprev. unfold handleFilesAdded. rewrite forallb_app, Hprev. simpl.
  induction newFiles as [|[f [u p]] l IH]; [reflexivity|exact IH].
Qed.

Lemma handleRemoveFile_invariant (P : FileItem -> bool) i prev :
  forallb P prev = true ->
  forallb P (fst (handleRemoveFile i prev)) = true.
Proof.
  unfold handleRemoveFile. simpl. rewrite !forallb_forall.
  intros Hprev f Hf. apply filter_In in Hf as [Hf _]. by apply Hprev.
Qed.

Lemma handleClearAll_invariant (P : FileItem -> bool) confirmed files :
  forallb P files = true ->
  forallb P (fst (handleClearAll confirmed files)) = true.
Proof. by destruct confirmed. Qed.

Lemma updateStatus_forallb (P : FileItem -> bool) i st extra prev :
  forallb P prev = true ->
  (forall f, In f prev -> id f = i -> P (spread f st extra) = true) ->
  forallb P (updateStatus i st extra prev) = true.
Proof.
  unfold updateStatus. rewrite !forallb_forall. intros Hprev Hnew g Hg.
  apply in_map_iff in Hg as (f & <- & Hf).
  destruct (String.eqb_spec (id f) i); [by apply Hnew | by apply Hprev].
Qed.

End RegistryFacts.

(** ** The scheduler's writes to the registry *)

Section SchedulerRegistry.
Import Registry Scheduler.

Lemma apply_event_map pending e prev :
  apply_event pending e prev = map (item_event pending e) prev.
Proof.
  destruct e as [| k | | | k [b|] | |]; unfold apply_event, item_event;
    try (symmetry; apply List.map_id);
    destruct (nth_error pending k); try reflexivity; symmetry; apply List.map_id.
Qed.

Lemma apply_trace_map pending tr : forall files,
  apply_trace pending tr files = map (item_trace pending tr) files.
Proof.
  unfold apply_trace, item_trace.
  induction tr as [|e tr IH]; intros files; simpl; [symmetry; apply List.map_id|].
  by rewrite IH, apply_event_map, map_map.
Qed.

Lemma item_trace_app pending t1 t2 g :
  item_trace pending (t1 ++ t2) g = item_trace pending t2 (item_trace pending t1 g).
Proof. unfold item_trace. apply fold_left_app. Qed.

Lemma item_event_frame pending e g :
  id (item_event pending e g) = id g /\
  file (item_event pending e g) = file g /\
  previewUrl (item_event pending e g) = previewUrl g.
Proof.
  destruct e as [| k | | | k [b|] | |]; simpl; try done;
    destruct (nth_error pending k) as [item|]; try done;
    by destruct (String.eqb (id g) (id item)).
Qed.

Lemma item_trace_frame pending tr : forall g,
  id (item_trace pending tr g) = id g /\
  file (item_trace pending tr g) = file g /\
  previewUrl (item_trace pending tr g) = previewUrl g.
Proof.
  unfold item_trace. induction tr as [|e tr IH]; intros g; [done|]. simpl.
  destruct (IH (item_event pending e g)) as (-> & -> & ->).
  apply item_event_frame.
Qed.

Lemma item_event_other pending e g :
  (forall k item, about_pos e = Some k -> nth_error pending k = Some item ->
     id item <> id g) ->
  item_event pending e g = g.
Proof.
  intros Hother.
  destruct e as [| k | | | k [b|] | |]; simpl; try done;
    destruct (nth_error pending k) as [item|] eqn:Hk; try done;
    (destruct (String.eqb_spec (id g) (id item)) as [Heq|]; [|done]);
    exfalso; by apply (Hother k item).
Qed.

Lemma item_trace_other pending tr g :
  (forall e k item, In e tr -> about_pos e = Some k ->
     nth_error pending k = Some item -> id item <> id g) ->
  item_trace pending tr g = g.
Proof.
  unfold item_trace. induction tr as [|e tr IH]; intros Hother; [done|]. simpl.
  rewrite item_event_other; [|intros k item; apply (Hother e); by left].
  apply IH. intros e' k item Hin. apply (Hother e'). by right.
Qed.

Lemma item_event_settle pending k o item g :
  nth_error pending k = Some item -> id g = id item ->
  settled_as o (item_event pending (EvSettle k o) g).
Proof.
  intros Hk Hid. destruct o as [b|]; simpl; rewrite Hk, Hid, String.eqb_refl; by split.
Qed.

Lemma apply_event_length pending e prev :
  length (apply_event pending e prev) = length prev.
Proof. rewrite apply_event_map. apply length_map. Qed.

Lemma apply_event_nth pending e prev p f :
  nth_error prev p = Some f ->
  nth_error (apply_event pending e prev) p = Some (item_event pending e f).
Proof. intros Hp. by rewrite apply_event_map, nth_error_map, Hp. Qed.

(** What marking writes: the item of the given id becomes [CONVERTING]
    and keeps everything else; no other item changes. *)
Lemma mark_writes pending k item prev :
  nth_error pending k = Some item ->
  length (apply_event pending (EvMark k) prev) = length prev /\
  forall p f, nth_error prev p = Some f ->
    exists f', nth_error (apply_event pending (EvMark k) prev) p = Some f' /\
      (id f = id item -> status f' = CONVERTING /\ payload f' = payload f) /\
      (id f <> id item -> f' = f).
Proof.
  intros Hk. split; [apply apply_event_length|].
  intros p f Hp. eexists. split; [by apply apply_event_nth|].
  simpl. rewrite Hk. destruct (String.eqb_spec (id f) (id item)) as [Heq|Hne]; split; done.
Qed.

(** What settling writes. *)
Lemma settle_writes pending k item prev o :
  nth_error pending k = Some item ->
  length (apply_event pending (EvSettle k o) prev) = length prev /\
  forall p f, nth_error prev p = Some f ->
    exists f', nth_error (apply_event pending (EvSettle k o) prev) p = Some f' /\
      (id f = id item ->
       settled_as o f' /\ id f' = id f /\ file f' = file f /\
       previewUrl f' = previewUrl f) /\
      (id f <> id item -> f' = f).
Proof.
  intros Hk. split; [apply apply_event_length|].
  intros p f Hp. eexists. split; [by apply apply_event_nth|]. split.
  - intros Heq. split; [by apply (item_event_settle pending k o item)|].
    apply item_event_frame.
  - intros Hne. apply item_event_other. intros k' item' [= <-] Hk'.
    rewrite Hk in Hk'. injection Hk' as <-. congruence.
Qed.

Lemma event_keeps_result pending e f :
  result_present f = true -> result_present (item_event pending e f) = true.
Proof.
  intros Hf. destruct e as [| k | | | k [b|] | |]; simpl; try exact Hf;
    destruct (nth_error pending k) as [item|]; try exact Hf;
    destruct (String.eqb (id f) (id item)); try exact Hf; reflexivity.
Qed.

Lemma progress_writes_no_blob files index item prev p f :
  nth_error files index = Some item -> nth_error prev p = Some f -> id f = id item ->
  exists f', nth_error (Pdf.onProgress files index prev) p = Some f' /\
    status f' = COMPLETED /\ convertedBlob f' = convertedBlob f /\ error f' = error f /\
    (convertedBlob f = None -> presence_invariant f' = false).
Proof.
  intros Hi Hp Hid. unfold Pdf.onProgress. rewrite Hi. eexists.
  split; [by apply updateStatus_same|]. simpl. repeat split.
  intros Hnone. unfold presence_invariant. simpl. by rewrite Hnone.
Qed.

(** A file is added, its conversion fails, and conversion is started again:
    the invariant holds after the first run, but not once the retry has
    marked the item [CONVERTING] (the error is still there), nor after the
    retry has succeeded (blob and error are both there).  In document
    mode, the progress callback marks items [COMPLETED] without a blob. *)
Lemma retry_keeps_error :
  let files0 := handleFilesAdded [(mkFile "photo.webp" 1, ("a", "blob:a"))]%string [] in
  let run1 := [EvSlice 0; EvMark 0; EvDispatch 0; EvAwaitAll; EvSettle 0 Rejected;
               EvResume; EvExit] in
  let files1 := apply_trace (pendingFiles files0) run1 files0 in
  let files2 := apply_trace (pendingFiles files1) [EvSlice 0; EvMark 0] files1 in
  let run2 := [EvSlice 0; EvMark 0; EvDispatch 0; EvAwaitAll;
               EvSettle 0 (Resolved "jpeg"); EvResume; EvExit] in
  let files3 := apply_trace (pendingFiles files1) run2 files1 in
  exec (length (pendingFiles files0)) (AtLoop 0) run1 = Some Finished /\
  forallb presence_invariant files1 = true /\
  exec (length (pendingFiles files1)) (AtLoop 0) run2 = Some Finished /\
  files2 = [mkItem "a" (mkFile "photo.webp" 1) "blob:a" CONVERTING None
              (Some "Conversion failed"%string)] /\
  forallb presence_invariant files2 = false /\
  files3 = [mkItem "a" (mkFile "photo.webp" 1) "blob:a" COMPLETED (Some "jpeg"%string)
              (Some "Conversion failed"%string)] /\
  forallb presence_invariant files3 = false /\
  forallb presence_invariant demo_files = true /\
  map (fun f => (status f, convertedBlob f))
    (fst (fst (Pdf.startPdfConversion (demo_host false) (mkOptions small portrait)
                 demo_files None))) =
    [(COMPLETED, None); (COMPLETED, None)].
Proof. repeat split; reflexivity. Qed.

(** [C2, amended] Adding, removing and clearing keep the presence invariant,
    and so do the transitions [IDLE -> CONVERTING],
    [CONVERTING -> COMPLETED] (with the blob) and [CONVERTING -> ERROR]
    (with the error) of the items that have the given id.  An item that
    the batch scheduler settles is [COMPLETED] with its blob or [ERROR]
    with its error, and no write of the scheduler takes the blob from a
    [COMPLETED] item or the error from an [ERROR] item.  [updateStatus]
    never removes a field: a blob or an error that was present is still
    present afterwards, whatever the new status; so an item retried
    after an error is [CONVERTING] with that error, and [COMPLETED] with
    the blob and that error if the retry succeeds.  In document mode the
    progress callback marks an item [COMPLETED] and attaches nothing, so
    an item without a blob is then [COMPLETED] without a blob. *)
Theorem presence_invariant_mutations :
  (forall newFiles prev,
     forallb presence_invariant prev = true ->
     forallb presence_invariant (handleFilesAdded newFiles prev) = true) /\
  (forall i prev,
     forallb presence_invariant prev = true ->
     forallb presence_invariant (fst (handleRemoveFile i prev)) = true) /\
  (forall confirmed files,
     forallb presence_invariant files = true ->
     forallb presence_invariant (fst (handleClearAll confirmed files)) = true) /\
  (forall i prev,
     forallb presence_invariant prev = true ->
     (forall f, In f prev -> id f = i -> status f = IDLE) ->
     forallb presence_invariant (updateStatus i CONVERTING no_extra prev) = true) /\
  (forall i b prev,
     forallb presence_invariant prev = true ->
     (forall f, In f prev -> id f = i -> status f = CONVERTING) ->
     forallb presence_invariant (updateStatus i COMPLETED (extra_blob b) prev) = true) /\
  (forall i e prev,
     forallb presence_invariant prev = true ->
     (forall f, In f prev -> id f = i -> status f = CONVERTING) ->
     forallb presence_invariant (updateStatus i ERROR (extra_error e) prev) = true) /\
  (forall pending k item o prev p f,
     nth_error pending k = Some item -> nth_error prev p = Some f -> id f = id item ->
     exists f', nth_error (apply_event pending (EvSettle k o) prev) p = Some f' /\
       match o with
       | Resolved jpegBlob => status f' = COMPLETED /\ convertedBlob f' = Some jpegBlob
       | Rejected => status f' = ERROR /\ error f' = Some "Conversion failed"%string
       end) /\
  (forall pending e prev p f,
     nth_error prev p = Some f -> result_present f = true ->
     exists f', nth_error (apply_event pending e prev) p = Some f' /\
       result_present f' = true) /\
  (forall i st extra prev k f,
     nth_error prev k = Some f ->
     exists f', nth_error (updateStatus i st extra prev) k = Some f' /\
       (is_Some (convertedBlob f) -> is_Some (convertedBlob f')) /\
       (is_Some (error f) -> is_Some (error f'))) /\
  (forall i prev k f e,
     nth_error prev k = Some f -> id f = i -> error f = Some e ->
     exists f', nth_error (updateStatus i CONVERTING no_extra prev) k = Some f' /\
       status f' = CONVERTING /\ error f' = Some e) /\
  (forall i b prev k f e,
     nth_error prev k = Some f -> id f = i -> error f = Some e ->
     exists f', nth_error (updateStatus i COMPLETED (extra_blob b) prev) k = Some f' /\
       status f' = COMPLETED /\ convertedBlob f' = Some b /\ error f' = Some e) /\
  (forall files index item prev p f,
     nth_error files index = Some item -> nth_error prev p = Some f -> id f = id item ->
     exists f', nth_error (Pdf.onProgress files index prev) p = Some f' /\
       status f' = COMPLETED /\ convertedBlob f' = convertedBlob f /\
       error f' = error f /\
       (convertedBlob f = None -> presence_invariant f' = false)).
Proof.
  split; [exact handleFilesAdded_invariant|].
  split; [intros; by apply handleRemoveFile_invariant|].
  split; [intros; by apply handleClearAll_invariant|].
  assert (Hone : forall i st extra prev s0,
    forallb presence_invariant prev = true ->
    (forall f, In f prev -> id f = i -> status f = s0) ->
    (forall f, status f = s0 -> presence_invariant f = true ->
       presence_invariant (spread f st extra) = true) ->
    forallb presence_invariant (updateStatus i st extra prev) = true).
  { intros i st extra prev s0 Hprev Hst Hsp. apply updateStatus_forallb; [exact Hprev|].
    intros f Hf Hi. apply Hsp; [by apply Hst|].
    rewrite forallb_forall in Hprev. by apply Hprev. }
  split; [|split; [|split; [|split; [|split; [|split; [|split; [|split]]]]]]].
  - intros i prev Hprev Hst. apply (Hone i _ _ prev IDLE Hprev Hst).
    intros [? ? ? st cb er]; simpl; intros ->; unfold presence_invariant; simpl.
    by destruct cb, er.
  - intros i b prev Hprev Hst. apply (Hone i _ _ prev CONVERTING Hprev Hst).
    intros [? ? ? st cb er]; simpl; intros ->; unfold presence_invariant; simpl.
    by destruct cb, er.
  - intros i e prev Hprev Hst. apply (Hone i _ _ prev CONVERTING Hprev Hst).
    intros [? ? ? st cb er]; simpl; intros ->; unfold presence_invariant; simpl.
    by destruct cb, er.
  - intros pending k item o prev p f Hk Hp Hid.
    destruct (proj2 (settle_writes pending k item prev o Hk) p f Hp)
      as (f' & Hf' & Hsame & _).
    exists f'. split; [exact Hf'|]. destruct (Hsame Hid) as [Hs _]. by destruct o.
  - intros pending e prev p f Hp Hf. eexists.
    split; [by apply apply_event_nth|]. by apply event_keeps_result.
  - intros i st extra prev k f Hk. rewrite updateStatus_nth, Hk. simpl.
    destruct (String.eqb (id f) i); eexists; (split; [reflexivity|]); [|done].
    unfold spread; simpl. destruct (p_convertedBlob extra), (p_error extra); eauto.
  - intros i prev k f e Hk Hi He. eexists.
    split; [by apply updateStatus_same|]. by split.
  - intros i b prev k f e Hk Hi He. eexists.
    split; [by apply updateStatus_same|]. by repeat split.
  - exact progress_writes_no_blob.
Qed.

Lemma presence_invariant_mutations_witness :
  let files0 := handleFilesAdded [(mkFile "photo.webp" 1, ("a", "blob:a"))]%string [] in
  forallb presence_invariant files0 = true /\
  forallb presence_invariant (updateStatus "a" CONVERTING no_extra files0) = true /\
  forallb presence_invariant
    (updateStatus "a" ERROR (extra_error "Conversion failed")
       (updateStatus "a" CONVERTING no_extra files0)) = true.
Proof.
  intros files0.
  destruct presence_invariant_mutations as (Hadd & _ & _ & Hmark & _ & Herr & _).
  assert (H0 : forallb presence_invariant files0 = true) by (apply Hadd; reflexivity).
  assert (H1 : forallb presence_invariant (updateStatus "a" CONVERTING no_extra files0) = true).
  { apply Hmark; [exact H0|]. intros f [<-|[]] _. reflexivity. }
  split; [exact H0|]. split; [exact H1|].
  apply Herr; [exact H1|]. intros f [<-|[]] _. reflexivity.
Defined.

End SchedulerRegistry.

(** ** Page geometry and fit-inside-box *)

Section Binary64Layout.
Import Pdf.
Local Open Scope float_scope.



Lemma fitImage_float (m cw ch w h : float) :
  fitImage m cw ch w h =
    if ch <? cw / (w / h)
    then {| x := m + (cw - ch * (w / h)) / 2; y := m + (ch - ch) / 2;
            finalWidth := ch * (w / h); finalHeight := ch |}
    else {| x := m + (cw - cw) / 2; y := m + (ch - cw / (w / h)) / 2;
            finalWidth := cw; finalHeight := cw / (w / h) |}.
Proof.
  unfold fitImage. cbn [gt div mul add sub num float_JsNumber].
  destruct (ch <? cw / (w / h)); reflexivity.
Qed.

Lemma for_sizes_spec bound chk options w h :
  for_sizes bound chk = true ->
  1 <= w <= bound -> 1 <= h <= bound ->
  chk options w h = true.
Proof.
  unfold for_sizes. intros Hall Hw Hh.
  rewrite forallb_forall in Hall.
  assert (Hin : In options all_options).
  { destruct options as [[] []]; simpl; tauto. }
  specialize (Hall options Hin). rewrite forallb_forall in Hall.
  specialize (Hall w ltac:(apply in_seq; lia)). rewrite forallb_forall in Hall.
  apply Hall. apply in_seq. lia.
Qed.





End Binary64Layout.

Section LayoutFacts.
Import Pdf.
Local Open Scope Q_scope.

(** [C7] The page is 210 by 297 in portrait and 297 by 210 in landscape;
    the content box is the page less twice the margin size in both
    dimensions, the margin sizes being 0, 10 and 25; without margin the
    content box is the page. *)
Theorem content_box :
  (pageWidth (N:=Q) portrait = 210 /\ pageHeight (N:=Q) portrait = 297) /\
  (pageWidth (N:=Q) landscape = pageHeight portrait /\
   pageHeight (N:=Q) landscape = pageWidth portrait) /\
  (MARGIN_SIZES (N:=Q) none = 0 /\ MARGIN_SIZES (N:=Q) small = 10 /\
   MARGIN_SIZES (N:=Q) big = 25) /\
  (forall options : PdfOptions,
     contentWidth options =
       pageWidth (orientation options) - MARGIN_SIZES (margin options) * 2 /\
     contentHeight options =
       pageHeight (orientation options) - MARGIN_SIZES (margin options) * 2) /\
  (forall o : PdfOrientation,
     contentWidth (mkOptions none o) == pageWidth o /\
     contentHeight (mkOptions none o) == pageHeight o) /\
  (forall o : PdfOrientation,
     contentWidth (N:=float) (mkOptions none o) = pageWidth o /\
     contentHeight (N:=float) (mkOptions none o) = pageHeight o).
Proof.
  repeat split; try reflexivity; destruct o; reflexivity.
Qed.

End LayoutFacts.

(** ** Archive entry names *)

Section PackagerFacts.
Import Packager.
Local Open Scope string_scope.

Lemma all_chars_dot (b e : string) :
  all_chars not_slash_dot (b ++ String "."%char e) = false.
Proof.
  induction b as [|c b IH]; simpl; [reflexivity|].
  rewrite IH. apply andb_false_r.
Qed.

Lemma ext_here_inside (c : ascii) (b e : string) :
  ext_here (String c (b ++ String "."%char e)) = false.
Proof.
  unfold ext_here.
  destruct (b ++ String "."%char e) as [|d rest] eqn:E; [reflexivity|].
  rewrite <- E, all_chars_dot. apply andb_false_r.
Qed.

Lemma strip_extension_eq (s : string) :
  strip_extension s =
  if ext_here s then ""
  else match s with
       | "" => ""
       | String c s' => String c (strip_extension s')
       end.
Proof. destruct s; reflexivity. Qed.

Lemma strip_extension_ext (base ext : string) :
  ext <> "" -> all_chars not_slash_dot ext = true ->
  strip_extension (base ++ "." ++ ext) = base.
Proof.
  intros Hne Hext. induction base as [|c b IH].
  - destruct ext as [|d rest]; [done|].
    change ("" ++ "." ++ String d rest) with (String "."%char (String d rest)).
    rewrite strip_extension_eq. unfold ext_here. rewrite Hext. reflexivity.
  - change (String c b ++ "." ++ ext) with (String c (b ++ String "."%char ext)).
    change (b ++ "." ++ ext) with (b ++ String "."%char ext) in IH.
    rewrite strip_extension_eq, ext_here_inside. by rewrite IH.
Qed.

Lemma ext_here_no_dot (s : string) :
  all_chars (fun c => negb (Ascii.eqb c "."%char)) s = true -> ext_here s = false.
Proof.
  destruct s as [|c [|d rest]]; try reflexivity. simpl.
  intros H. apply andb_prop in H as [Hc _].
  destruct (Ascii.eqb c "."%char); [discriminate|reflexivity].
Qed.

Lemma strip_extension_no_dot (s : string) :
  all_chars (fun c => negb (Ascii.eqb c "."%char)) s = true ->
  strip_extension s = s.
Proof.
  induction s as [|c s IH]; [reflexivity|]. intros H.
  rewrite strip_extension_eq, (ext_here_no_dot _ H).
  simpl in H. apply andb_prop in H as [_ Hs]. by rewrite IH.
Qed.

Lemma zipEntries_fold (files : list (string * Blob)) :
  zipEntries files = fold_left add_entry files ∅.
Proof. reflexivity. Qed.

Lemma fold_entries_other (files : list (string * Blob)) (zip : gmap string Blob) key :
  (forall f, In f files -> fileName (fst f) <> key) ->
  fold_left add_entry files zip !! key = zip !! key.
Proof.
  revert zip. induction files as [|f files IH]; intros zip Hne; [reflexivity|].
  simpl. rewrite IH by (intros g Hg; apply Hne; by right).
  unfold add_entry, zip_file. apply lookup_insert_ne. apply Hne. by left.
Qed.

Lemma fold_entries_last l1 n b l2 (zip : gmap string Blob) :
  (forall f, In f l2 -> fileName (fst f) <> fileName n) ->
  fold_left add_entry (l1 ++ (n, b) :: l2) zip !! fileName n = Some b.
Proof.
  intros Hne. rewrite fold_left_app. simpl.
  rewrite fold_entries_other by exact Hne.
  unfold add_entry at 1, zip_file. simpl. apply lookup_insert_eq.
Qed.

Lemma fold_entries_present (files : list (string * Blob)) (zip : gmap string Blob) f :
  In f files -> is_Some (fold_left add_entry files zip !! fileName (fst f)).
Proof.
  revert zip. induction files as [|g files IH] using rev_ind; intros zip Hin; [destruct Hin|].
  rewrite fold_left_app. simpl. unfold add_entry at 1, zip_file.
  destruct (decide (fileName (fst g) = fileName (fst f))) as [E|E].
  - rewrite E, lookup_insert_eq. eauto.
  - rewrite lookup_insert_ne by exact E. apply IH.
    apply in_app_or in Hin as [Hin|[->|[]]]; [exact Hin|done].
Qed.

Lemma completedFiles_In files f b :
  In f files -> status f = COMPLETED -> convertedBlob f = Some b ->
  In (name (file f), b) (completedFiles files).
Proof.
  intros Hin Hst Hb. unfold completedFiles. apply in_flat_map.
  exists f. split; [exact Hin|]. rewrite Hst, Hb. by left.
Qed.

(** [C4] The entry name of an item is its file name with the extension (a
    last dot followed by one or more characters other than a dot and a
    slash) replaced by [.jpg]: [photo.webp] gives [photo.jpg]; a name
    without a dot only gets [.jpg] appended.  Every completed item with a
    blob has an entry under that name.  Entries are kept by exact name, and
    the entry of a name holds the blob of the last file written under it:
    [a.webp] and [a.png] leave the single entry [a.jpg], with the blob of
    the second. *)
Theorem archive_entry_names :
  (forall base ext : string,
     ext <> "" -> all_chars not_slash_dot ext = true ->
     fileName (base ++ "." ++ ext) = base ++ ".jpg") /\
  (forall s : string,
     all_chars (fun c => negb (Ascii.eqb c "."%char)) s = true ->
     fileName s = s ++ ".jpg") /\
  fileName "photo.webp" = "photo.jpg" /\
  (forall files f b,
     In f files -> status f = COMPLETED -> convertedBlob f = Some b ->
     exists zip, handleDownload_zip files = Some zip /\
       is_Some (zip !! fileName (name (file f)))) /\
  (forall l1 n b l2,
     (forall f, In f l2 -> fileName (fst f) <> fileName n) ->
     zipEntries (l1 ++ (n, b) :: l2) !! fileName n = Some b) /\
  zipEntries [("a.webp", "one"); ("a.png", "two")] = {[ "a.jpg" := "two" ]}.
Proof.
  split; [|split; [|split; [|split; [|split]]]].
  - intros base ext Hne Hext. unfold fileName. by rewrite strip_extension_ext.
  - intros s Hs. unfold fileName. by rewrite strip_extension_no_dot.
  - reflexivity.
  - intros files f b Hin Hst Hb.
    pose proof (completedFiles_In files f b Hin Hst Hb) as Hc.
    unfold handleDownload_zip. destruct (completedFiles files) as [|e es] eqn:E; [destruct Hc|].
    eexists. split; [reflexivity|]. rewrite zipEntries_fold.
    apply (fold_entries_present (e :: es) ∅ (name (file f), b) Hc).
  - intros l1 n b l2 Hne. rewrite zipEntries_fold. by apply fold_entries_last.
  - apply map_eq. intros key. unfold zipEntries, add_entry, zip_file. simpl.
    change (fileName "a.webp") with "a.jpg". change (fileName "a.png") with "a.jpg".
    by rewrite insert_insert_eq, insert_empty.
Qed.

Lemma archive_entry_names_witness :
  fileName ("holiday.2024" ++ "." ++ "png") = "holiday.2024" ++ ".jpg" /\
  zipEntries ([("a.webp", "one")] ++ ("a.png", "two") :: [("b.webp", "three")])
    !! fileName "a.png" = Some "two".
Proof.
  split.
  - apply (proj1 archive_entry_names "holiday.2024" "png"); [discriminate|reflexivity].
  - apply (proj1 (proj2 (proj2 (proj2 (proj2 archive_entry_names))))
             [("a.webp", "one")] "a.png" "two" [("b.webp", "three")]).
    intros f [<-|[]]. vm_compute. discriminate.
Defined.

End PackagerFacts.

(** ** Document assembly runs *)

Section PdfRunFacts.
Import Registry Pdf.
Context {N : Type} `{JsNumber N}.
Variable host : Host N.

Lemma page_returns options i f log log' :
  page host options i f log = (Ok tt, log') ->
  exists c, page_choice host options f c /\ log' = log ++ page_log i f c.
Proof.
  unfold page, bind, emit, try_catch, getImageData, call, ret, page_choice, page_log.
  fold (error_marker (N:=N) f).
  destruct (0 <? i);
    repeat match goal with
      | |- context [doc_throws host ?l ?c] => destruct (doc_throws host l c)
      | |- context [decode host f] =>
          destruct (decode host f) as [img|]; [fold (placed_image options img)|]
      end;
    intros Heq; inversion Heq; subst; clear Heq;
    eexists; (split; [|rewrite <- ?app_assoc; simpl; reflexivity]); auto.
Qed.

Lemma pages_returns options fs : forall i log log',
  pages host options i fs log = (Ok tt, log') ->
  exists cs, Forall2 (page_choice host options) fs cs /\
    log' = log ++ pages_log i fs cs.
Proof.
  induction fs as [|f fs IH]; intros i log log' Hrun.
  - inversion Hrun; subst. exists []. split; [constructor|]. simpl. by rewrite app_nil_r.
  - simpl in Hrun. unfold bind in Hrun at 1.
    destruct (page host options i f log) as [[[]|] log1] eqn:Hpage; [|discriminate].
    apply page_returns in Hpage as (c & Hc & ->).
    apply IH in Hrun as (cs & Hcs & ->).
    exists (c :: cs). split; [by constructor|]. simpl. by rewrite <- app_assoc.
Qed.

Lemma generatePdf_returns options fs blob log :
  generatePdf host fs options [] = (Ok blob, log) ->
  exists cs, Forall2 (page_choice host options) fs cs /\
    log = run_log options fs cs /\ blob = docs_of log.
Proof.
  unfold generatePdf, bind at 1, call at 1.
  destruct (doc_throws host [] (NewDoc (orientation options))); [discriminate|].
  unfold bind at 1. simpl app.
  destruct (pages host options 0 fs _) as [[[]|] log1] eqn:Hpages; [|discriminate].
  apply pages_returns in Hpages as (cs & Hcs & ->).
  unfold bind, call. destruct (doc_throws host _ Output); [discriminate|].
  intros Heq. inversion Heq; subst. exists cs. split; [exact Hcs|]. split; reflexivity.
Qed.

(** A container that never fails. *)
Hypothesis container_sound : forall log c, doc_throws host log c = false.

Lemma page_sound options i f log :
  page host options i f log =
    (Ok tt, log ++ page_log i f (page_content host options f)).
Proof.
  unfold page, bind, emit, try_catch, getImageData, call, ret, page_content, page_log.
  fold (error_marker (N:=N) f).
  destruct (0 <? i); rewrite ?container_sound;
    (destruct (decode host f) as [img|]; [fold (placed_image options img)|]);
    rewrite ?container_sound; rewrite <- ?app_assoc; reflexivity.
Qed.

Lemma pages_sound options fs : forall i log,
  pages host options i fs log =
    (Ok tt, log ++ pages_log i fs (map (page_content host options) fs)).
Proof.
  induction fs as [|f fs IH]; intros i log; simpl.
  - unfold ret. by rewrite app_nil_r.
  - unfold bind. rewrite page_sound, IH. by rewrite <- app_assoc.
Qed.

Lemma generatePdf_sound options fs :
  generatePdf host fs options [] =
    (Ok (docs_of (run_log options fs (map (page_content host options) fs))),
     run_log options fs (map (page_content host options) fs)).
Proof.
  unfold generatePdf, bind at 1, call at 1. rewrite container_sound.
  unfold bind at 1. rewrite pages_sound.
  unfold bind, call. rewrite container_sound. reflexivity.
Qed.

End PdfRunFacts.

Section PdfProgressFacts.
Import Registry Pdf.
Context {N : Type} `{JsNumber N}.









End PdfProgressFacts.

Section PdfRunTheorems.
Import Registry Pdf.
Context {N : Type} `{JsNumber N}.

Lemma page_log_raster i f (c : doc_call N) k g :
  In (GetImageData k g) (page_log i f c) -> k = i.
Proof.
  unfold page_log. destruct (0 <? i); simpl; intros Hin;
    repeat (destruct Hin as [Hin|Hin]; [by inversion Hin|]); destruct Hin.
Qed.


Lemma Forall2_page_content (host : Host N) options fs :
  Forall2 (page_choice host options) fs (map (page_content host options) fs).
Proof.
  induction fs as [|f fs IH]; constructor; [|exact IH].
  unfold page_choice, page_content. destruct (decode host f); auto.
Qed.



End PdfRunTheorems.

(** ** Runs with the user acting in between *)

Section LiveQueues.
Import Registry.
Context {W : Type}.
Variable update : W -> list FileItem -> list FileItem.
Variable item_update : W -> FileItem -> FileItem.
Hypothesis update_map : forall w prev, update w prev = map (item_update w) prev.
Hypothesis item_update_id : forall w g, id (item_update w g) = id g.

Lemma run_part_app (t1 t2 : list (Live.entry W)) :
  Live.run_part (t1 ++ t2) = Live.run_part t1 ++ Live.run_part t2.
Proof. apply flat_map_app. Qed.

Lemma added_app (t1 t2 : list (Live.entry W)) :
  Live.added (t1 ++ t2) = Live.added t1 ++ Live.added t2.
Proof. apply flat_map_app. Qed.

Lemma removed_app (t1 t2 : list (Live.entry W)) :
  Live.removed (t1 ++ t2) = Live.removed t1 ++ Live.removed t2.
Proof. apply flat_map_app. Qed.

Lemma files_after_app (t1 t2 : list (Live.entry W)) files :
  Live.files_after update (t1 ++ t2) files =
  Live.files_after update t2 (Live.files_after update t1 files).
Proof. apply fold_left_app. Qed.

Lemma item_after_app (ws1 ws2 : list W) g :
  item_after item_update (ws1 ++ ws2) g =
  item_after item_update ws2 (item_after item_update ws1 g).
Proof. apply fold_left_app. Qed.

Lemma item_after_id (ws : list W) : forall g,
  id (item_after item_update ws g) = id g.
Proof.
  induction ws as [|w ws IH]; intros g; [reflexivity|].
  change (id (item_after item_update ws (item_update w g)) = id g).
  by rewrite IH, item_update_id.
Qed.

(** Where the items of the collection come from after a queue of
    updates and actions: each is an item of the start with the updates of
    the run applied to it, or a file added by the user; and the items of
    the start that the user did not remove are still there. *)
Lemma files_after_items (tr : list (Live.entry W)) (files : list FileItem) :
  (forall src w, In src (Live.added tr) -> In w (Live.run_part tr) ->
     item_update w (newItem src) = newItem src) ->
  (forall g', In g' (Live.files_after update tr files) ->
     (exists g, In g files /\ g' = item_after item_update (Live.run_part tr) g) \/
     (exists src, In src (Live.added tr) /\ g' = newItem src)) /\
  (forall g, In g files -> ~ In (id g) (Live.removed tr) ->
     In (item_after item_update (Live.run_part tr) g)
        (Live.files_after update tr files)).
Proof.
  induction tr as [|e tr IH] using rev_ind; intros Hfresh.
  - split.
    + intros g' Hg'. left. by exists g'.
    + intros g Hg _. exact Hg.
  - rewrite files_after_app, run_part_app, added_app, removed_app.
    rewrite run_part_app, added_app in Hfresh.
    destruct IH as [IHfrom IHkept].
    { intros src w Hs Hw. apply Hfresh; apply in_or_app; by left. }
    set (cur := Live.files_after update tr files) in *.
    destruct e as [w|[newFiles|i|]]; simpl; rewrite ?app_nil_r.
    + rewrite update_map. split.
      * intros g' Hg'. apply in_map_iff in Hg' as (g0 & <- & Hg0).
        destruct (IHfrom g0 Hg0) as [(g & Hg & ->)|(src & Hsrc & ->)].
        -- left. exists g. split; [exact Hg|]. by rewrite item_after_app.
        -- right. exists src. split; [exact Hsrc|].
           apply Hfresh; [apply in_or_app; by left|].
           apply in_or_app. right. by left.
      * intros g Hg Hrem. rewrite item_after_app. simpl.
        apply in_map. by apply IHkept.
    + unfold handleFilesAdded. split.
      * intros g' Hg'. apply in_app_or in Hg' as [Hg'|Hg'].
        -- destruct (IHfrom g' Hg') as [H1|(src & Hsrc & ->)]; [by left|].
           right. exists src. split; [|reflexivity]. apply in_or_app. by left.
        -- apply in_map_iff in Hg' as (src & <- & Hsrc).
           right. exists src. split; [|reflexivity]. apply in_or_app. by right.
      * intros g Hg Hrem. apply in_or_app. left. by apply IHkept.
    + split.
      * intros g' Hg'. apply filter_In in Hg' as [Hg' _]. by apply IHfrom.
      * intros g Hg Hrem. apply filter_In. split.
        -- apply IHkept; [exact Hg|]. intros Hin. apply Hrem. apply in_or_app. by left.
        -- rewrite item_after_id. apply negb_true_iff.
           apply String.eqb_neq. intros Heq. apply Hrem. apply in_or_app. right.
           left. by symmetry.
    + split; [exact IHfrom|exact IHkept].
Qed.

End LiveQueues.

(** ** How document runs end *)

Section DocumentRunEnds.
Import Registry Pdf.
Context {N : Type} `{JsNumber N}.
Variable host : Host N.

Lemma page_choice_marker options f : page_choice host options f (error_marker f).
Proof. unfold page_choice. destruct (decode host f); auto. Qed.

Lemma page_choice_markers options fs :
  Forall2 (page_choice host options) fs (map error_marker fs).
Proof. induction fs; constructor; [apply page_choice_marker|assumption]. Qed.

Ltac page_end c done rest :=
  exists c, done, rest;
  split; [first [ apply page_choice_marker
                | unfold page_choice;
                  match goal with Hd : decode _ _ = Some _ |- _ => rewrite Hd end;
                  by left ]|];
  split; [by rewrite <- ?app_assoc|]; split; [reflexivity|]; simpl; eauto.

Lemma page_ends options i f log res log' :
  page host options i f log = (res, log') ->
  exists c done rest,
    page_choice host options f c /\
    log' = log ++ done /\
    page_log i f c = done ++ rest /\
    ended host res log' rest.
Proof.
  unfold page, bind, emit, try_catch, getImageData, call, ret, page_log.
  fold (error_marker (N:=N) f).
  destruct (0 <? i) eqn:Hi.
  - destruct (doc_throws host (log ++ [Progress i]) AddPage) eqn:Hap.
    + intros [= <- <-].
      page_end (error_marker f) [Progress (N:=N) i]
        [Doc AddPage; GetImageData i f; Doc (error_marker f)].
    + destruct (decode host f) as [img|] eqn:Hd.
      * fold (placed_image options img).
        destruct (doc_throws host (((log ++ [Progress i]) ++ [Doc AddPage]) ++ [GetImageData i f])
                    (placed_image options img)) eqn:Him.
        -- destruct (doc_throws host (((log ++ [Progress i]) ++ [Doc AddPage]) ++ [GetImageData i f])
                       (error_marker f)) eqn:Htx; intros [= <- <-].
           ++ page_end (error_marker f) [Progress (N:=N) i; Doc AddPage; GetImageData i f]
                [Doc (error_marker f)].
           ++ page_end (error_marker f)
                [Progress (N:=N) i; Doc AddPage; GetImageData i f; Doc (error_marker f)]
                (@nil (effect N)).
        -- intros [= <- <-].
           page_end (placed_image options img)
             [Progress (N:=N) i; Doc AddPage; GetImageData i f; Doc (placed_image options img)]
             (@nil (effect N)).
      * destruct (doc_throws host (((log ++ [Progress i]) ++ [Doc AddPage]) ++ [GetImageData i f])
                    (error_marker f)) eqn:Htx; intros [= <- <-].
        -- page_end (error_marker f) [Progress (N:=N) i; Doc AddPage; GetImageData i f]
             [Doc (error_marker f)].
        -- page_end (error_marker f)
             [Progress (N:=N) i; Doc AddPage; GetImageData i f; Doc (error_marker f)]
             (@nil (effect N)).
  - destruct (decode host f) as [img|] eqn:Hd.
    + fold (placed_image options img).
      destruct (doc_throws host ((log ++ [Progress i]) ++ [GetImageData i f])
                  (placed_image options img)) eqn:Him.
      * destruct (doc_throws host ((log ++ [Progress i]) ++ [GetImageData i f])
                    (error_marker f)) eqn:Htx; intros [= <- <-].
        -- page_end (error_marker f) [Progress (N:=N) i; GetImageData i f]
             [Doc (error_marker f)].
        -- page_end (error_marker f)
             [Progress (N:=N) i; GetImageData i f; Doc (error_marker f)] (@nil (effect N)).
      * intros [= <- <-].
        page_end (placed_image options img)
          [Progress (N:=N) i; GetImageData i f; Doc (placed_image options img)]
          (@nil (effect N)).
    + destruct (doc_throws host ((log ++ [Progress i]) ++ [GetImageData i f])
                  (error_marker f)) eqn:Htx; intros [= <- <-].
      * page_end (error_marker f) [Progress (N:=N) i; GetImageData i f]
          [Doc (error_marker f)].
      * page_end (error_marker f)
          [Progress (N:=N) i; GetImageData i f; Doc (error_marker f)] (@nil (effect N)).
Qed.

Lemma pages_ends options fs : forall i log res log',
  pages host options i fs log = (res, log') ->
  exists cs done rest,
    Forall2 (page_choice host options) fs cs /\
    log' = log ++ done /\
    pages_log i fs cs = done ++ rest /\
    ended host res log' rest.
Proof.
  induction fs as [|f fs IH]; intros i log res log' Hrun.
  - inversion Hrun; subst. exists [], [], [].
    split; [constructor|]. split; [by rewrite app_nil_r|]. by split.
  - simpl in Hrun. unfold bind in Hrun at 1.
    destruct (page host options i f log) as [[[]|] log1] eqn:Hpage.
    + apply page_ends in Hpage as (c & done & rest & Hc & -> & Hsplit & Hend).
      simpl in Hend. subst rest. rewrite app_nil_r in Hsplit.
      apply IH in Hrun as (cs & done' & rest' & Hcs & -> & Hsplit' & Hend').
      exists (c :: cs), (done ++ done'), rest'.
      split; [by constructor|]. split; [by rewrite app_assoc|].
      split; [|exact Hend'].
      change (pages_log i (f :: fs) (c :: cs))
        with (page_log i f c ++ pages_log (S i) fs cs).
      by rewrite Hsplit, Hsplit', app_assoc.
    + injection Hrun as <- <-.
      apply page_ends in Hpage as (c & done & rest & Hc & -> & Hsplit & Hend).
      exists (c :: map error_marker fs), done,
        (rest ++ pages_log (S i) fs (map error_marker fs)).
      split; [constructor; [exact Hc|apply page_choice_markers]|].
      split; [reflexivity|]. split.
      * change (pages_log i (f :: fs) (c :: map error_marker fs))
          with (page_log i f c ++ pages_log (S i) fs (map error_marker fs)).
        by rewrite Hsplit, app_assoc.
      * destruct Hend as (c' & rest' & -> & Hthrow & Himg).
        exists c', (rest' ++ pages_log (S i) fs (map error_marker fs)).
        by repeat split.
Qed.

Lemma generatePdf_ends options fs res log :
  generatePdf host fs options [] = (res, log) ->
  exists cs rest,
    Forall2 (page_choice host options) fs cs /\
    run_log options fs cs = log ++ rest /\
    ended host res log rest /\
    (forall blob, res = Ok blob -> blob = docs_of log).
Proof.
  unfold generatePdf, bind at 1, call at 1.
  destruct (doc_throws host [] (NewDoc (orientation options))) eqn:Hnew.
  - intros [= <- <-].
    exists (map error_marker fs), (run_log options fs (map error_marker fs)).
    split; [apply page_choice_markers|]. split; [reflexivity|]. split; [|discriminate].
    exists (NewDoc (orientation options)), (pages_log 0 fs (map error_marker fs) ++ [Doc Output]).
    by repeat split.
  - simpl app. unfold bind at 1.
    destruct (pages host options 0 fs [Doc (NewDoc (orientation options))])
      as [[[]|] log1] eqn:Hpages.
    + apply pages_ends in Hpages as (cs & done & rest & Hcs & -> & Hsplit & Hend).
      simpl in Hend. subst rest. rewrite app_nil_r in Hsplit. unfold bind, call.
      destruct (doc_throws host ([Doc (NewDoc (orientation options))] ++ done) Output) eqn:Hout;
        intros [= <- <-].
      * exists cs, [Doc Output]. split; [exact Hcs|]. split; [|split; [|discriminate]].
        -- unfold run_log. by rewrite Hsplit.
        -- exists Output, []. by repeat split.
      * exists cs, []. split; [exact Hcs|]. split; [|split; [reflexivity|]].
        -- unfold run_log. by rewrite Hsplit, app_nil_r.
        -- by intros blob [= <-].
    + intros [= <- <-].
      apply pages_ends in Hpages as (cs & done & rest & Hcs & -> & Hsplit & Hend).
      exists cs, (rest ++ [Doc Output]). split; [exact Hcs|]. split; [|split; [|discriminate]].
      * unfold run_log. rewrite Hsplit. simpl. by rewrite <- app_assoc.
      * destruct Hend as (c' & rest' & -> & Hthrow & Himg).
        exists c', (rest' ++ [Doc Output]). by repeat split.
Qed.

End DocumentRunEnds.

Section DocumentRunOrder.
Import Registry Pdf.
Context {N : Type} `{JsNumber N}.

Lemma pages_log_raster (fs : list File) : forall (cs : list (doc_call N)) j k g,
  In (GetImageData k g) (pages_log j fs cs) ->
  j <= k /\ nth_error fs (k - j) = Some g.
Proof.
  induction fs as [|f fs IH]; intros cs j k g Hin; [destruct Hin|].
  destruct cs as [|c cs]; [destruct Hin|].
  change (pages_log j (f :: fs) (c :: cs))
    with (page_log j f c ++ pages_log (S j) fs cs) in Hin.
  apply in_app_or in Hin as [Hin|Hin].
  - unfold page_log in Hin. destruct Hin as [Hin|Hin]; [discriminate|].
    apply in_app_or in Hin as [Hin|Hin].
    + destruct (0 <? j); [|destruct Hin]. destruct Hin as [Hin|[]]. discriminate.
    + destruct Hin as [Hin|[Hin|[]]]; [|discriminate].
      injection Hin as <- <-. split; [lia|]. by rewrite Nat.sub_diag.
  - apply IH in Hin as [Hle Hnth]. split; [lia|].
    replace (k - j) with (S (k - S j)) by lia. exact Hnth.
Qed.

Lemma pages_log_at (P : File -> doc_call N -> Prop) fs :
  forall cs j i f,
    Forall2 P fs cs -> nth_error fs i = Some f ->
    exists c A B, P f c /\
      pages_log j fs cs = A ++ page_log (j + i) f c ++ B /\
      (forall k g, In (GetImageData k g) A -> k < j + i) /\
      (forall k g, In (GetImageData k g) B -> j + i < k) /\
      (S i < length fs -> exists B', B = Progress (j + S i) :: B').
Proof.
  induction fs as [|f0 fs IH]; intros cs j i f HP Hi; [by destruct i|].
  inversion HP as [|? c0 ? cs' Hc0 Hcs']; subst.
  destruct i as [|i]; simpl in Hi.
  - injection Hi as ->. exists c0, [], (pages_log (S j) fs cs').
    split; [exact Hc0|]. split; [by rewrite Nat.add_0_r|].
    split; [intros k g []|]. split.
    + intros k g Hin. apply pages_log_raster in Hin. lia.
    + intros Hlen. destruct fs as [|f1 fs]; [simpl in Hlen; lia|].
      inversion Hcs' as [|? c1 ? cs'' _ _]; subst.
      replace (j + 1) with (S j) by lia.
      eexists. reflexivity.
  - destruct (IH cs' (S j) i f Hcs' Hi) as (c & A & B & Hc & Hlog & HA & HB & Hnext).
    exists c, (page_log j f0 c0 ++ A), B. split; [exact Hc|]. split; [|split; [|split]].
    + change (pages_log j (f0 :: fs) (c0 :: cs'))
        with (page_log j f0 c0 ++ pages_log (S j) fs cs').
      rewrite Hlog, <- app_assoc. by replace (j + S i) with (S j + i) by lia.
    + intros k g Hin. apply in_app_or in Hin as [Hin|Hin].
      * apply page_log_raster in Hin. lia.
      * apply HA in Hin. lia.
    + intros k g Hin. apply HB in Hin. lia.
    + intros Hlen. destruct Hnext as [B' ->]; [simpl in Hlen; lia|].
      exists B'. by replace (j + S (S i)) with (S j + S i) by lia.
Qed.

Lemma split_unique {A : Type} (a : A) : forall m1 l1 t1 t2,
  l1 ++ a :: t1 = m1 ++ a :: t2 -> ~ In a m1 -> ~ In a t2 ->
  l1 = m1 /\ t1 = t2.
Proof.
  induction m1 as [|y m1 IH]; intros [|x l1] t1 t2 Heq Hm Ht; simpl in Heq.
  - by injection Heq as ->.
  - injection Heq as -> <-. exfalso. apply Ht. apply in_or_app. right. by left.
  - injection Heq as <- _. exfalso. apply Hm. by left.
  - injection Heq as -> Heq. apply IH in Heq as [-> ->]; [done| |exact Ht].
    intros Hin. apply Hm. by right.
Qed.

(** After a rasterization that failed, either the document refuses the
    error text, and the run throws there, or the text is placed and the
    next file, if there is one, is taken up. *)
Lemma raster_failure_goes_on (host : Host N) options fs res log :
  generatePdf host fs options [] = (res, log) ->
  forall l1 l2 i f,
    log = l1 ++ GetImageData i f :: l2 -> decode host f = None ->
    (l2 = [] /\ res = Throw /\ doc_throws host log (error_marker f) = true) \/
    (exists l3, l2 = Doc (error_marker f) :: l3 /\
       (S i < length fs -> exists l4, l3 = Progress (S i) :: l4)).
Proof.
  intros Hrun l1 l2 i f Hlog Hdec.
  destruct (generatePdf_ends host options fs res log Hrun)
    as (cs & rest & Hcs & Hwhole & Hend & _).
  assert (Hin : In (GetImageData i f) (pages_log 0 fs cs)).
  { assert (Hin : In (GetImageData i f) (run_log options fs cs)).
    { rewrite Hwhole, Hlog. apply in_or_app. left. apply in_or_app. right. by left. }
    unfold run_log in Hin. destruct Hin as [Hin|Hin]; [discriminate|].
    apply in_app_or in Hin as [Hin|[Hin|[]]]; [exact Hin|discriminate]. }
  apply pages_log_raster in Hin as [_ Hnth]. rewrite Nat.sub_0_r in Hnth.
  destruct (pages_log_at _ fs cs 0 i f Hcs Hnth) as (c & A & B & Hc & Hpages & HA & HB & Hnext).
  unfold page_choice in Hc. rewrite Hdec in Hc. subst c. simpl in Hpages, HA, HB, Hnext.
  assert (Heq : l1 ++ GetImageData i f :: (l2 ++ rest) =
                (Doc (NewDoc (orientation options)) :: A
                   ++ Progress i :: (if 0 <? i then [Doc AddPage] else []))
                ++ GetImageData i f :: (Doc (error_marker f) :: B ++ [Doc Output])).
  { transitivity (run_log options fs cs).
    - rewrite Hwhole, Hlog, <- app_assoc. reflexivity.
    - unfold run_log. rewrite Hpages. unfold page_log. simpl.
      rewrite <- !app_assoc. simpl. rewrite <- !app_assoc. reflexivity. }
  apply split_unique in Heq as [_ Heq].
  - destruct l2 as [|e l3]; simpl in Heq.
    + left. split; [reflexivity|]. subst rest.
      destruct res as [blob|]; [discriminate|].
      destruct Hend as (c' & rest' & [= <- _] & Hthrow & _). by split.
    + right. injection Heq as -> Heq. exists l3. split; [reflexivity|].
      intros Hlen. destruct (Hnext Hlen) as [B' ->].
      destruct l3 as [|e' l4]; simpl in Heq.
      * subst rest. destruct res as [blob|]; [discriminate|].
        destruct Hend as (c' & rest' & Hc' & _). discriminate.
      * injection Heq as -> _. by exists l4.
  - intros [Hin|Hin]; [discriminate|]. apply in_app_or in Hin as [Hin|Hin].
    + apply HA in Hin. lia.
    + destruct Hin as [Hin|Hin]; [discriminate|].
      destruct (0 <? i); [destruct Hin as [Hin|[]]; discriminate|destruct Hin].
  - intros [Hin|Hin]; [discriminate|]. apply in_app_or in Hin as [Hin|[Hin|[]]].
    + apply HB in Hin. lia.
    + discriminate.
Qed.

(** [C5] A run of [startPdfConversion] first resets every item to
    [CONVERTING] (nothing else of an item changes), at once and before
    anything else is queued.  [generatePdf] then goes through the files
    in order, one page each: progress for index [i], a new page exactly
    when [i > 0], the rasterization of file [i], then the fitted image
    or the text naming the file (the text when the rasterization
    failed).  Whatever the host does, the log of the run is this
    sequence up to the point where the run ends: it either returns at
    the end of the sequence, or throws at a call on the document, other
    than [addImage], that threw.  So a rasterization that fails never
    ends the run: its page gets the text and the next file is taken up,
    unless the document refuses the text.  When the document never
    refuses a call, the run returns after the whole sequence, each page
    holding the image or, for exactly the files that could not be
    rasterized, the text. *)
Theorem document_run_sequential (host : Host N) (options : PdfOptions)
    (files : list FileItem) :
  let fs := map file files in
  let r := generatePdf host fs options [] in
  (forall pdfBlob mid,
     Live.startPdfConversion host options files pdfBlob mid =
       Live.state_after files (mid ++ [Live.ByRun (Live.final_write (fst r))])
         (map resetConverting files, pdfBlob)) /\
  Forall (fun f => status f = CONVERTING) (map resetConverting files) /\
  map payload (map resetConverting files) = map payload files /\
  (exists cs rest,
     Forall2 (page_choice host options) fs cs /\
     run_log options fs cs = snd r ++ rest /\
     match fst r with
     | Ok blob => rest = [] /\ blob = docs_of (snd r)
     | Throw => exists c rest', rest = Doc c :: rest' /\
                  doc_throws host (snd r) c = true /\ is_addImage c = false
     end) /\
  (forall l1 l2 i f,
     snd r = l1 ++ GetImageData i f :: l2 -> decode host f = None ->
     (l2 = [] /\ fst r = Throw /\ doc_throws host (snd r) (error_marker f) = true) \/
     (exists l3, l2 = Doc (error_marker f) :: l3 /\
        (S i < length fs -> exists l4, l3 = Progress (S i) :: l4))) /\
  (forall i f rest (cs : list (doc_call N)) c,
     pages_log i (f :: rest) (c :: cs) =
       Progress i :: (if 0 <? i then [Doc AddPage] else [])
         ++ [GetImageData i f; Doc c] ++ pages_log (S i) rest cs) /\
  (forall f c, page_choice host options f c ->
     (decode host f = None ->
      c = Text (String.append "Error loading image: " (name f)) (num 10) (num 10)) /\
     (forall img, decode host f = Some img ->
      c = placed_image options img \/
      c = Text (String.append "Error loading image: " (name f)) (num 10) (num 10))) /\
  ((forall log c, doc_throws host log c = false) ->
   let log := run_log options fs (map (page_content host options) fs) in
   r = (Ok (docs_of log), log)).
Proof.
  intros fs r.
  destruct r as [res log] eqn:Hrun. subst r. cbn [fst snd].
  split; [|split; [|split; [|split; [|split; [|split; [|split]]]]]].
  - intros pdfBlob mid. unfold Live.startPdfConversion. fold fs. rewrite Hrun. reflexivity.
  - apply Forall_forall. intros f Hf. apply list_elem_of_In, in_map_iff in Hf as (g & <- & _).
    reflexivity.
  - rewrite map_map. apply map_ext. reflexivity.
  - destruct (generatePdf_ends host options fs res log Hrun)
      as (cs & rest & Hcs & Hwhole & Hend & Hblob).
    exists cs, rest. split; [exact Hcs|]. split; [exact Hwhole|].
    destruct res as [blob|]; [|exact Hend]. split; [exact Hend|]. by apply Hblob.
  - exact (raster_failure_goes_on host options fs res log Hrun).
  - intros i f rest cs c. simpl. unfold page_log. simpl.
    f_equal. by rewrite <- app_assoc.
  - intros f c Hc. unfold page_choice in Hc. split.
    + intros Hd. by rewrite Hd in Hc.
    + intros img Hd. by rewrite Hd in Hc.
  - intros Hsound. rewrite <- Hrun. by apply generatePdf_sound.
Qed.

End DocumentRunOrder.

(** ** Document runs on the live collection *)

Section LiveDocumentRuns.
Import Registry Pdf View.
Context {N : Type} `{JsNumber N}.

Lemma pdf_files_map files (w : Live.pdf_write N) prev :
  Live.pdf_files files w prev = map (pdf_item files w) prev.
Proof.
  destruct w as [|index|blob|]; unfold pdf_item; simpl; try reflexivity.
  - unfold onProgress. destruct (nth_error files index); [reflexivity|].
    symmetry. apply List.map_id.
  - symmetry. apply List.map_id.
Qed.

Lemma pdf_item_id files (w : Live.pdf_write N) g : id (pdf_item files w g) = id g.
Proof.
  destruct w as [|index|blob|]; simpl; try reflexivity.
  destruct (nth_error files index) as [item|]; [|reflexivity].
  by destruct (String.eqb (id g) (id item)).
Qed.

Lemma state_after_files files (tr : list (Live.entry (Live.pdf_write N))) : forall st,
  fst (Live.state_after files tr st) =
  Live.files_after (Live.pdf_files files) tr (fst st).
Proof.
  induction tr as [|e tr IH]; intros st; [reflexivity|].
  simpl. rewrite IH. by destruct e.
Qed.

Lemma state_after_app files (t1 t2 : list (Live.entry (Live.pdf_write N))) st :
  Live.state_after files (t1 ++ t2) st =
  Live.state_after files t2 (Live.state_after files t1 st).
Proof. apply fold_left_app. Qed.

Lemma progress_writes_app (l1 l2 : list (effect N)) :
  Live.progress_writes (l1 ++ l2) = Live.progress_writes l1 ++ Live.progress_writes l2.
Proof. apply flat_map_app. Qed.

Lemma progress_writes_In (log : list (effect N)) w :
  In w (Live.progress_writes log) -> exists index, w = Live.Progressed index.
Proof.
  unfold Live.progress_writes. intros Hin. apply in_flat_map in Hin.
  destruct Hin as (e & _ & He).
  destruct e as [index| |]; try (by destruct He). destruct He as [<-|[]]. by exists index.
Qed.

Lemma progress_writes_pages fs : forall (cs : list (doc_call N)) i,
  length cs = length fs ->
  Live.progress_writes (pages_log i fs cs) = map Live.Progressed (seq i (length fs)).
Proof.
  induction fs as [|f fs IH]; intros [|c cs] i Hlen; try discriminate; [reflexivity|].
  change (pages_log i (f :: fs) (c :: cs))
    with (page_log i f c ++ pages_log (S i) fs cs).
  rewrite progress_writes_app, IH by (simpl in Hlen; lia).
  unfold page_log. simpl. f_equal. by destruct (0 <? i).
Qed.

Lemma progress_writes_run options fs (cs : list (doc_call N)) :
  length cs = length fs ->
  Live.progress_writes (run_log options fs cs) = map Live.Progressed (seq 0 (length fs)).
Proof.
  intros Hlen. unfold run_log.
  change (Doc (NewDoc (orientation options)) :: pages_log 0 fs cs ++ [Doc Output])
    with ([Doc (NewDoc (orientation options))] ++ pages_log 0 fs cs ++ [Doc Output]).
  rewrite !progress_writes_app, progress_writes_pages by exact Hlen.
  simpl. by rewrite app_nil_r.
Qed.

(** One item through the progress updates of a run. *)
Lemma progressed_item files (ks : list nat) : forall g,
  let g' := item_after (pdf_item (N:=N) files) (map Live.Progressed ks) g in
  payload g' = payload g /\
  (status g = COMPLETED -> status g' = COMPLETED) /\
  ((exists k item, In k ks /\ nth_error files k = Some item /\ id item = id g) ->
   status g' = COMPLETED) /\
  ((forall k item, In k ks -> nth_error files k = Some item -> id item <> id g) ->
   g' = g).
Proof.
  induction ks as [|k ks IH]; intros g g'.
  - subst g'. simpl. split; [reflexivity|]. split; [done|]. split; [|done].
    by intros (k & item & [] & _).
  - subst g'.
    change (item_after (pdf_item (N:=N) files) (map Live.Progressed (k :: ks)) g)
      with (item_after (pdf_item (N:=N) files) (map Live.Progressed ks)
              (pdf_item (N:=N) files (Live.Progressed k) g)).
    set (g1 := pdf_item (N:=N) files (Live.Progressed k) g).
    destruct (IH g1) as (Hp & Hkeep & Hhit & Hmiss).
    assert (Hp1 : payload g1 = payload g).
    { subst g1. simpl. destruct (nth_error files k) as [item|]; [|reflexivity].
      by destruct (String.eqb (id g) (id item)). }
    assert (Hid1 : id g1 = id g) by (apply pdf_item_id).
    assert (Hkeep1 : status g = COMPLETED -> status g1 = COMPLETED).
    { intros Hs. subst g1. simpl. destruct (nth_error files k) as [item|]; [|exact Hs].
      by destruct (String.eqb (id g) (id item)). }
    split; [by rewrite Hp|]. split; [auto|]. split.
    + intros (k' & item & [<-|Hin] & Hnth & Hid).
      * apply Hkeep. subst g1. simpl. rewrite Hnth, Hid, String.eqb_refl. reflexivity.
      * apply Hhit. exists k', item. rewrite Hid1. by repeat split.
    + intros Hnone.
      assert (Hg1 : g1 = g).
      { subst g1. simpl. destruct (nth_error files k) as [item|] eqn:Hnth; [|reflexivity].
        destruct (String.eqb_spec (id g) (id item)) as [Heq|]; [|reflexivity].
        exfalso. apply (Hnone k item); [by left|exact Hnth|by symmetry]. }
      rewrite Hmiss; [exact Hg1|]. intros k' item Hin Hnth. rewrite Hid1.
      apply (Hnone k' item); [by right|exact Hnth].
Qed.

(** The items of the collection during a document run, between the reset
    and the last write: an item of the start, reset and with the progress
    updates applied to it, or a file added by the user, as added. *)
Lemma live_document_items files (log : list (effect N))
    (mid : list (Live.entry (Live.pdf_write N))) :
  Live.run_part mid = Live.progress_writes log ->
  Forall (fun i => ~ In i (map id files)) (added_ids mid) ->
  let cur := Live.files_after (Live.pdf_files files) mid (map resetConverting files) in
  (forall g', In g' cur ->
     (exists g, In g files /\
        g' = item_after (pdf_item files) (Live.progress_writes log) (resetConverting g)) \/
     (exists src, In src (Live.added mid) /\ g' = newItem src)) /\
  (forall g, In g files -> ~ In (id g) (Live.removed mid) ->
     In (item_after (pdf_item files) (Live.progress_writes log) (resetConverting g)) cur).
Proof.
  intros Hrun Hfresh cur.
  destruct (files_after_items (Live.pdf_files files) (pdf_item files)
              (pdf_files_map files) (pdf_item_id files) mid (map resetConverting files))
    as [Hfrom Hkept].
  { intros src w Hsrc Hw. rewrite Hrun in Hw.
    apply progress_writes_In in Hw as [index ->]. simpl.
    destruct (nth_error files index) as [item|] eqn:Hnth; [|reflexivity].
    destruct (String.eqb_spec (id (newItem src)) (id item)) as [Heq|]; [|reflexivity].
    exfalso. rewrite Forall_forall in Hfresh. apply (Hfresh (id (newItem src))).
    - apply list_elem_of_In. unfold added_ids. apply in_map_iff. exists src.
      split; [|exact Hsrc]. by destruct src as [f [u url]].
    - rewrite Heq. apply in_map. eapply nth_error_In. exact Hnth. }
  rewrite Hrun in Hfrom, Hkept. split.
  - intros g' Hg'. destruct (Hfrom g' Hg') as [(g0 & Hg0 & ->)|Hadd]; [left|by right].
    apply in_map_iff in Hg0 as (g & <- & Hg). by exists g.
  - intros g Hg Hrem. apply (Hkept (resetConverting g)); [by apply in_map|exact Hrem].
Qed.

Lemma startPdfConversion_ends (host : Host N) options files
    (pdfBlob : option (PdfBlob N)) mid :
  let r := generatePdf host (map file files) options [] in
  let st := Live.state_after files mid (map resetConverting files, pdfBlob) in
  Live.startPdfConversion host options files pdfBlob mid =
    match fst r with
    | Ok blob => (fst st, Some blob)
    | Throw => (map failAll (fst st), snd st)
    end.
Proof.
  intros r st. unfold Live.startPdfConversion. fold r.
  change (Live.ByRun Live.Reset :: mid ++ [Live.ByRun (Live.final_write (fst r))])
    with ([Live.ByRun (Live.Reset (N:=N))] ++ mid ++ [Live.ByRun (Live.final_write (fst r))]).
  rewrite !state_after_app. simpl. fold st. by destruct (fst r).
Qed.

Lemma no_document_stored files (mid : list (Live.entry (Live.pdf_write N))) log :
  Live.run_part mid = Live.progress_writes log ->
  forall prev, snd (Live.state_after files mid (prev, None)) = None.
Proof.
  revert log. induction mid as [|e mid IH] using rev_ind; intros log Hrun prev; [reflexivity|].
  rewrite state_after_app. simpl. destruct e as [w|a]; [|reflexivity]. simpl.
  assert (Hw : In w (Live.progress_writes log)).
  { rewrite <- Hrun, run_part_app. apply in_or_app. right. by left. }
  apply progress_writes_In in Hw as [index ->].
  rewrite run_part_app in Hrun. simpl in Hrun.
  assert (Hpre : exists log', Live.run_part mid = Live.progress_writes log').
  { exists (map Progress (flat_map (fun w => match w with Live.Progressed i => [i] | _ => [] end)
                           (Live.run_part mid))).
    assert (Hall : forall w, In w (Live.run_part mid) -> exists i, w = Live.Progressed i).
    { intros w Hin. apply (progress_writes_In log). rewrite <- Hrun.
      apply in_or_app. by left. }
    clear -Hall. induction (Live.run_part mid) as [|w ws IHw]; [reflexivity|].
    destruct (Hall w ltac:(by left)) as [i ->]. simpl. f_equal.
    apply IHw. intros w' Hin. apply Hall. by right. }
  destruct Hpre as [log' Hpre]. by apply (IH log').
Qed.



End LiveDocumentRuns.

Section DocumentRunResults.
Import Registry Pdf View.
Context {N : Type} `{JsNumber N}.

(** The items of the collection when a run that returned the document is
    over. *)
Lemma completed_run_items (host : Host N) options files
    (pdfBlob : option (PdfBlob N)) blob log mid :
  generatePdf host (map file files) options [] = (Ok blob, log) ->
  Live.run_part mid = Live.progress_writes log ->
  Forall (fun i => ~ In i (map id files)) (added_ids mid) ->
  let st := Live.startPdfConversion host options files pdfBlob mid in
  snd st = Some blob /\
  (forall g', In g' (fst st) ->
     (exists g, In g files /\ payload g' = payload g /\ status g' = COMPLETED) \/
     (exists src, In src (Live.added mid) /\ g' = newItem src)) /\
  (forall g, In g files -> ~ In (id g) (Live.removed mid) ->
     exists g', In g' (fst st) /\ payload g' = payload g /\ status g' = COMPLETED).
Proof.
  intros Hrun Hmid Hfresh st. subst st.
  rewrite startPdfConversion_ends, Hrun. cbn [fst snd].
  rewrite state_after_files. cbn [fst].
  destruct (live_document_items files log mid Hmid Hfresh) as [Hfrom Hkept].
  apply generatePdf_returns in Hrun as (cs & Hcs & -> & _).
  assert (Hlen : length cs = length (map file files))
    by (symmetry; eapply Forall2_length; exact Hcs).
  rewrite progress_writes_run in Hfrom, Hkept by exact Hlen. rewrite length_map in *.
  assert (Hdone : forall g, In g files ->
            let g' := item_after (pdf_item (N:=N) files)
                        (map Live.Progressed (seq 0 (length files))) (resetConverting g) in
            payload g' = payload g /\ status g' = COMPLETED).
  { intros g Hg g'. subst g'.
    destruct (progressed_item (N:=N) files (seq 0 (length files)) (resetConverting g))
      as (Hp & _ & Hhit & _).
    split; [by rewrite Hp|]. apply Hhit.
    apply In_nth_error in Hg as [k Hk]. exists k, g.
    split; [|by split]. apply in_seq. split; [lia|]. simpl.
    apply nth_error_Some. by rewrite Hk. }
  split; [reflexivity|]. split.
  - intros g' Hg'. destruct (Hfrom g' Hg') as [(g & Hg & ->)|Hadd]; [left|by right].
    exists g. split; [exact Hg|]. by apply Hdone.
  - intros g Hg Hrem. eexists. split; [by apply Hkept|]. by apply Hdone.
Qed.

Lemma not_all_completed files :
  (completed (stats files) <? total (stats files)) = true <->
  exists g, In g files /\ status g <> COMPLETED.
Proof.
  unfold stats. cbn [completed total]. rewrite Nat.ltb_lt.
  induction files as [|f files IH]; simpl.
  - split; [lia|]. by intros (g & [] & _).
  - unfold has_status at 1. destruct (decide (status f = COMPLETED)) as [Hc|Hc].
    + rewrite bool_decide_eq_true_2 by exact Hc. simpl. rewrite <- Nat.succ_lt_mono, IH.
      split.
      * intros (g & Hg & Hs). exists g. by split; [right|].
      * intros (g & [<-|Hg] & Hs); [contradiction|]. by exists g.
    + rewrite bool_decide_eq_false_2 by exact Hc. split.
      * intros _. exists f. by split; [left|].
      * intros _. pose proof (List.filter_length_le (has_status COMPLETED) files). lia.
Qed.

End DocumentRunResults.

Section DocumentRunCompletes.
Import Registry Pdf View.
Context {N : Type} `{JsNumber N}.


End DocumentRunCompletes.

Section PdfRunWitnesses.
Import Registry Pdf.

Lemma document_run_sequential_witness :
  (forall log c, doc_throws (demo_host false) log c = false) /\
  generatePdf (demo_host false) (map file demo_files) (mkOptions small portrait) [] =
    (Ok [ NewDoc portrait;
          AddImage "data:image/jpeg"
            {| x := 10%float; y := 77.25%float;
               finalWidth := 190%float; finalHeight := 142.5%float |};
          AddPage;
          Text "Error loading image: bad.webp" 10%float 10%float;
          Output ],
     [ Doc (NewDoc portrait);
       Progress 0; GetImageData 0 (mkFile "a.webp" 1);
       Doc (AddImage "data:image/jpeg"
              {| x := 10%float; y := 77.25%float;
                 finalWidth := 190%float; finalHeight := 142.5%float |});
       Progress 1; Doc AddPage; GetImageData 1 (mkFile "bad.webp" 2);
       Doc (Text "Error loading image: bad.webp" 10%float 10%float);
       Doc Output ]).
Proof.
  assert (Hsound : forall log c, doc_throws (demo_host false) log c = false)
    by (intros log []; reflexivity).
  split; [exact Hsound|].
  pose proof (proj2 (proj2 (proj2 (proj2 (proj2 (proj2 (proj2
    (document_run_sequential (demo_host false) (mkOptions small portrait) demo_files)))))))
    Hsound) as Hrun.
  cbv zeta in Hrun. rewrite Hrun. vm_compute. reflexivity.
Defined.




End PdfRunWitnesses.

(** ** Batch scheduling *)

Section SchedulerFacts.
Import Scheduler.

Lemma div_mod_3 (x : nat) : x = 3 * (x / 3) + x mod 3 /\ x mod 3 < 3.
Proof. split; [apply Nat.div_mod_eq | apply Nat.mod_upper_bound; lia]. Qed.

Ltac by_thirds :=
  repeat match goal with
    | |- context [?a / 3] =>
        lazymatch goal with
        | _ : a = 3 * (a / 3) + a mod 3 /\ _ |- _ => fail
        | _ => pose proof (div_mod_3 a)
        end
    | _ : context [?a / 3] |- _ =>
        lazymatch goal with
        | _ : a = 3 * (a / 3) + a mod 3 /\ _ |- _ => fail
        | _ => pose proof (div_mod_3 a)
        end
    | _ : context [?a mod 3] |- _ =>
        lazymatch goal with
        | _ : a = 3 * (a / 3) + a mod 3 /\ _ |- _ => fail
        | _ => pose proof (div_mod_3 a)
        end
    | |- context [?a mod 3] =>
        lazymatch goal with
        | _ : a = 3 * (a / 3) + a mod 3 /\ _ |- _ => fail
        | _ => pose proof (div_mod_3 a)
        end
    end;
  lia.

Lemma slice_positions (i n : nat) :
  slice i (i + BATCH_SIZE) (seq 0 n) = seq i (3 `min` (n - i)).
Proof.
  unfold slice, BATCH_SIZE. replace (i + 3 - i) with 3 by lia.
  by rewrite drop_seq, take_seq.
Qed.

Lemma in_slice_positions (i n x : nat) :
  In x (slice i (i + BATCH_SIZE) (seq 0 n)) <-> in_batch n i x.
Proof.
  rewrite slice_positions, in_seq. unfold in_batch, BATCH_SIZE. lia.
Qed.

Lemma exec_app n tr1 : forall s tr2,
  exec n s (tr1 ++ tr2) =
  match exec n s tr1 with
  | Some s' => exec n s' tr2
  | None => None
  end.
Proof.
  induction tr1 as [|e tr1 IH]; intros s tr2; [reflexivity|].
  simpl. destruct (step n s e); [apply IH|reflexivity].
Qed.

Lemma exec_snoc n s tr e s' :
  exec n s (tr ++ [e]) = Some s' ->
  exists s1, exec n s tr = Some s1 /\ step n s1 e = Some s'.
Proof.
  rewrite exec_app. destruct (exec n s tr) as [s1|]; [|discriminate].
  simpl. destruct (step n s1 e) as [s2|] eqn:E; [|discriminate].
  intros [= <-]. eauto.
Qed.

Lemma snoc_split {A : Type} (tr : list A) e t1 a t2 :
  tr ++ [e] = t1 ++ a :: t2 ->
  (t2 = [] /\ a = e /\ t1 = tr) \/ (exists t2', t2 = t2' ++ [e] /\ tr = t1 ++ a :: t2').
Proof.
  destruct t2 as [|b t2 _] using rev_ind; intros Heq.
  - left. apply app_inj_tail in Heq as [-> ->]. auto.
  - right. exists t2.
    change (t1 ++ a :: t2 ++ [b]) with (t1 ++ (a :: t2) ++ [b]) in Heq.
    rewrite app_assoc in Heq. by apply app_inj_tail in Heq as [-> ->].
Qed.

Lemma settled_snoc tr e y : settled tr y -> settled (tr ++ [e]) y.
Proof. intros [o Ho]. exists o. apply in_or_app. by left. Qed.

Lemma dispatched_snoc tr e x : dispatched tr x -> dispatched (tr ++ [e]) x.
Proof. intros Hd. apply in_or_app. by left. Qed.

Lemma trace_ok_snoc n tr e :
  trace_ok n tr ->
  (forall x, e = EvDispatch x -> dispatch_ok n tr x) ->
  (forall y o, e = EvSettle y o -> settle_ok n tr y) ->
  trace_ok n (tr ++ [e]).
Proof.
  intros [Hd Hs] Hnewd Hnews. split.
  - intros t1 x t2 Heq. apply snoc_split in Heq as [(_ & He & ->)|(t2' & _ & ->)].
    + by apply Hnewd.
    + by apply (Hd t1 x t2').
  - intros t1 y o t2 Heq. apply snoc_split in Heq as [(_ & He & ->)|(t2' & _ & ->)].
    + by apply (Hnews y o).
    + by apply (Hs t1 y o t2').
Qed.

Lemma step_invariant n tr s e s' :
  state_inv n tr s -> trace_ok n tr -> step n s e = Some s' ->
  state_inv n (tr ++ [e]) s' /\ trace_ok n (tr ++ [e]).
Proof.
  intros Hinv Hok Hstep.
  destruct s as [i | i todo infl | i k todo infl | i infl |]; unfold state_inv in Hinv.
  - (* at the loop test *)
    destruct Hinv as (Hmod & Hset).
    destruct e; simpl in Hstep; try discriminate.
    + destruct ((i =? _) && (i <? n)) eqn:Hc; [|discriminate].
      injection Hstep as <-. apply andb_prop in Hc as [_ Hlt]. apply Nat.ltb_lt in Hlt.
      split; [|apply trace_ok_snoc; [exact Hok|discriminate|discriminate]].
      unfold state_inv. split; [exact Hmod|]. split; [intros; by apply settled_snoc, Hset|].
      split; [intros x Hx; by apply in_slice_positions|]. split; [intros x []|].
      intros x Hx. left. by apply in_slice_positions.
    + destruct (i <? n) eqn:Hlt; [discriminate|]. injection Hstep as <-.
      apply Nat.ltb_ge in Hlt.
      split; [|apply trace_ok_snoc; [exact Hok|discriminate|discriminate]].
      unfold state_inv. intros y Hy. apply settled_snoc, Hset; lia.
  - (* inside batch.map *)
    destruct Hinv as (Hmod & Hset & Htodo & Hinfl & Hcover).
    destruct e as [| k' | | | | |]; simpl in Hstep; try discriminate;
      destruct todo as [|k todo]; try discriminate.
    + destruct (k =? _) eqn:Hk; [|discriminate]. injection Hstep as <-.
      apply Nat.eqb_eq in Hk as <-.
      split; [|apply trace_ok_snoc; [exact Hok|discriminate|discriminate]].
      unfold state_inv. split; [exact Hmod|]. split; [intros; by apply settled_snoc, Hset|].
      split; [exact Htodo|]. split; [exact Hinfl|]. split; [|by eexists].
      intros x Hx. destruct (Hcover x Hx) as [Hin|[Hin Hd]]; [by left|right].
      split; [exact Hin|by apply dispatched_snoc].
    + injection Hstep as <-.
      split; [|apply trace_ok_snoc; [exact Hok|discriminate|discriminate]].
      unfold state_inv. split; [exact Hmod|]. split; [intros; by apply settled_snoc, Hset|].
      split; [exact Hinfl|]. split.
      * intros x Hx. destruct (Hcover x Hx) as [[]|[_ Hd]]. by apply dispatched_snoc.
      * intros x Hx. destruct (Hcover x Hx) as [[]|[Hin _]]. by left.
  - (* marked, about to dispatch *)
    destruct Hinv as (Hmod & Hset & Htodo & Hinfl & Hcover & Hlast).
    destruct e; simpl in Hstep; try discriminate.
    destruct (k =? _) eqn:Hk; [|discriminate]. injection Hstep as <-.
    apply Nat.eqb_eq in Hk as <-.
    assert (Hkb : in_batch n i k) by (apply Htodo; by left).
    split.
    + unfold state_inv. split; [exact Hmod|]. split; [intros; by apply settled_snoc, Hset|].
      split; [intros x Hx; apply Htodo; by right|]. split.
      * intros x Hx. apply in_app_or in Hx as [Hx|[<-|[]]]; [by apply Hinfl|exact Hkb].
      * intros x Hx. destruct (Hcover x Hx) as [[<-|Hin]|[Hin Hd]].
        -- right. split; [apply in_or_app; right; by left|].
           apply in_or_app. right. by left.
        -- by left.
        -- right. split; [apply in_or_app; by left|by apply dispatched_snoc].
    + apply trace_ok_snoc; [exact Hok| |discriminate].
      intros x [= <-]. unfold in_batch, BATCH_SIZE in Hkb.
      split; [lia|]. split; [exact Hlast|].
      intros y Hy. apply Hset; by_thirds.
  - (* awaiting Promise.all *)
    destruct Hinv as (Hmod & Hset & Hinfl & Hdisp & Hcover).
    destruct e as [| | | | k o | |]; simpl in Hstep; try discriminate.
    + destruct (existsb (Nat.eqb k) infl) eqn:Hex; [|discriminate]. injection Hstep as <-.
      apply existsb_exists in Hex as (k' & Hk' & Heq). apply Nat.eqb_eq in Heq as <-.
      split.
      * unfold state_inv. split; [exact Hmod|]. split; [intros; by apply settled_snoc, Hset|].
        split; [intros x Hx; apply filter_In in Hx as [Hx _]; by apply Hinfl|].
        split; [intros x Hx; by apply dispatched_snoc, Hdisp|].
        intros x Hx. destruct (decide (x = k)) as [->|Hne].
        -- right. exists o. apply in_or_app. right. by left.
        -- destruct (Hcover x Hx) as [Hin|Hs]; [left|right; by apply settled_snoc].
           apply filter_In. split; [exact Hin|]. by apply negb_true_iff, Nat.eqb_neq.
      * apply trace_ok_snoc; [exact Hok|discriminate|].
        intros y o' [= <- _]. intros x Hx Hdiv. apply Hdisp.
        specialize (Hinfl k Hk'). unfold in_batch, BATCH_SIZE in *.
        split; [by_thirds|exact Hx].
    + destruct infl; [|discriminate]. injection Hstep as <-.
      split; [|apply trace_ok_snoc; [exact Hok|discriminate|discriminate]].
      unfold state_inv. split; [unfold BATCH_SIZE; by_thirds|].
      intros y Hy Hyn. apply settled_snoc.
      destruct (decide (y < i)) as [Hlt|Hge]; [by apply Hset|].
      destruct (Hcover y) as [[]|Hs]; [|exact Hs].
      unfold in_batch. lia.
  - destruct e; discriminate.
Qed.

Lemma exec_invariant n tr : forall s,
  exec n (AtLoop 0) tr = Some s -> state_inv n tr s /\ trace_ok n tr.
Proof.
  induction tr as [|e tr IH] using rev_ind; intros s Hexec.
  - injection Hexec as <-. split.
    + unfold state_inv. split; [reflexivity|]. intros; lia.
    + split; intros t1 ? ? ? Heq || intros t1 ? ? Heq; by destruct t1.
  - apply exec_snoc in Hexec as (s1 & Hs1 & Hstep).
    destruct (IH s1 Hs1) as [Hinv Hok]. by apply (step_invariant n tr s1).
Qed.

(** The batches. *)

Lemma slice_take_drop {A : Type} (i : nat) (l : list A) :
  slice i (i + BATCH_SIZE) l = firstn 3 (skipn i l).
Proof. unfold slice, BATCH_SIZE. by replace (i + 3 - i) with 3 by lia. Qed.

Lemma batches_from_concat {A : Type} (l : list A) : forall fuel i,
  length l - i <= fuel -> concat (batches_from fuel i l) = skipn i l.
Proof.
  induction fuel as [|fuel IH]; intros i Hfuel; simpl.
  - symmetry. apply drop_ge. lia.
  - destruct (i <? length l) eqn:Hlt.
    + apply Nat.ltb_lt in Hlt. simpl. rewrite IH by (unfold BATCH_SIZE; lia).
      rewrite slice_take_drop. unfold BATCH_SIZE.
      rewrite <- (drop_drop l 3 i). apply take_drop.
    + apply Nat.ltb_ge in Hlt. symmetry. apply drop_ge. lia.
Qed.

Lemma batches_from_nth {A : Type} (l : list A) : forall fuel i k b,
  nth_error (batches_from fuel i l) k = Some b ->
  b = slice (i + 3 * k) (i + 3 * k + BATCH_SIZE) l /\ i + 3 * k < length l.
Proof.
  induction fuel as [|fuel IH]; intros i k b Hk; simpl in Hk; [by destruct k|].
  destruct (i <? length l) eqn:Hlt; [|by destruct k].
  apply Nat.ltb_lt in Hlt. destruct k as [|k]; simpl in Hk.
  - injection Hk as <-. by rewrite Nat.mul_0_r, Nat.add_0_r.
  - apply IH in Hk as [-> Hb]. unfold BATCH_SIZE in *.
    replace (i + 3 + 3 * k) with (i + 3 * S k) in * by lia. by split.
Qed.

Lemma batches_from_length {A : Type} (l : list A) : forall fuel i,
  length l - i <= fuel -> length (batches_from fuel i l) = (length l - i + 2) / 3.
Proof.
  induction fuel as [|fuel IH]; intros i Hfuel; cbn [batches_from].
  - replace (length l - i) with 0 by lia. reflexivity.
  - destruct (i <? length l) eqn:Hlt.
    + apply Nat.ltb_lt in Hlt. cbn [length]. rewrite IH by (unfold BATCH_SIZE; lia).
      unfold BATCH_SIZE. by_thirds.
    + apply Nat.ltb_ge in Hlt. replace (length l - i) with 0 by lia. reflexivity.
Qed.

Lemma length_slice {A : Type} (i : nat) (l : list A) :
  length (slice i (i + BATCH_SIZE) l) = 3 `min` (length l - i).
Proof. by rewrite slice_take_drop, length_take, length_drop. Qed.

Lemma batches_spec {A : Type} (pending : list A) :
  concat (batches pending) = pending /\
  length (batches pending) = (length pending + 2) / 3 /\
  forall k b, nth_error (batches pending) k = Some b ->
    b = slice (3 * k) (3 * k + BATCH_SIZE) pending /\
    1 <= length b <= 3 /\
    (S k < length (batches pending) -> length b = 3).
Proof.
  unfold batches. split; [|split].
  - by rewrite batches_from_concat by lia.
  - rewrite batches_from_length by lia. by rewrite Nat.sub_0_r.
  - intros k b Hk. pose proof Hk as Hk'.
    apply batches_from_nth in Hk as [-> Hlt]. simpl in Hlt |- *.
    split; [reflexivity|]. rewrite length_slice. split; [lia|].
    intros Hnext.
    destruct (nth_error (batches_from (length pending) 0 pending) (S k)) as [b'|] eqn:Hb'.
    + apply batches_from_nth in Hb' as [_ Hlt']. lia.
    + apply nth_error_None in Hb'. lia.
Qed.

Lemma batches_seven {A : Type} (pending : list A) :
  length pending = 7 -> map length (batches pending) = [3; 3; 1].
Proof.
  intros Hlen. do 8 (destruct pending as [|? pending]; try discriminate). reflexivity.
Qed.

Lemma pendingFiles_spec (files : list FileItem) :
  (forall f, In f (pendingFiles files) <->
     In f files /\ (status f = IDLE \/ status f = ERROR)) /\
  sublist (pendingFiles files) files.
Proof.
  split.
  - intros f. unfold pendingFiles. rewrite filter_In. unfold isPending.
    destruct (status f); intuition discriminate.
  - unfold pendingFiles. induction files as [|f files IH]; simpl; [constructor|].
    destruct (isPending f); by constructor.
Qed.

(** Complete runs exist: the run in which promises settle in dispatch order. *)

Lemma exec_marks n i : forall ks inflight rest,
  exec n (InMap i ks inflight)
    (flat_map (fun k => [EvMark k; EvDispatch k]) ks ++ rest) =
  exec n (InMap i [] (inflight ++ ks)) rest.
Proof.
  induction ks as [|k ks IH]; intros inflight rest.
  - by rewrite app_nil_r.
  - cbn [flat_map app exec step]. rewrite Nat.eqb_refl. cbn [exec step].
    rewrite Nat.eqb_refl, IH. by rewrite <- app_assoc.
Qed.

Lemma remove_nat_head k ks : ~ In k ks -> remove_nat k (k :: ks) = ks.
Proof.
  intros Hnotin. unfold remove_nat. simpl. rewrite Nat.eqb_refl. simpl.
  induction ks as [|x ks IH]; [reflexivity|]. simpl.
  destruct (Nat.eqb_spec x k) as [->|_]; [exfalso; apply Hnotin; by left|].
  simpl. f_equal. apply IH. intros Hin. apply Hnotin. by right.
Qed.

Lemma exec_settles n i oc : forall ks rest,
  List.NoDup ks ->
  exec n (Awaiting i ks) (map (fun k => EvSettle k (oc k)) ks ++ rest) =
  exec n (Awaiting i []) rest.
Proof.
  induction ks as [|k ks IH]; intros rest Hnd; [reflexivity|].
  inversion Hnd as [|? ? Hnotin Hnd']; subst.
  cbn [map app exec step existsb]. rewrite Nat.eqb_refl. cbn [orb].
  rewrite remove_nat_head by exact Hnotin. by apply IH.
Qed.

Lemma exec_batch n oc i rest :
  i < n ->
  exec n (AtLoop i) (batch_trace oc i (slice i (i + BATCH_SIZE) (seq 0 n)) ++ rest) =
  exec n (AtLoop (i + BATCH_SIZE)) rest.
Proof.
  intros Hlt. unfold batch_trace. cbn [app exec step].
  rewrite Nat.eqb_refl. apply Nat.ltb_lt in Hlt. rewrite Hlt. cbn [andb].
  rewrite <- app_assoc, exec_marks. cbn [app exec step].
  rewrite <- app_assoc, exec_settles.
  - reflexivity.
  - rewrite slice_positions. apply List.seq_NoDup.
Qed.

Lemma fifo_from_complete n oc : forall fuel i,
  n - i <= fuel -> exec n (AtLoop i) (fifo_from oc fuel i n) = Some Finished.
Proof.
  induction fuel as [|fuel IH]; intros i Hfuel; cbn [fifo_from].
  - cbn [exec step]. replace (i <? n) with false by (symmetry; apply Nat.ltb_ge; lia).
    reflexivity.
  - destruct (i <? n) eqn:Hlt.
    + apply Nat.ltb_lt in Hlt. rewrite exec_batch by exact Hlt.
      apply IH. unfold BATCH_SIZE. lia.
    + cbn [exec step]. by rewrite Hlt.
Qed.

Lemma settled_dispatched n tr s k :
  exec n (AtLoop 0) tr = Some s -> k < n -> settled tr k -> dispatched tr k.
Proof.
  intros Hexec Hk [o Ho]. apply List.in_split in Ho as (t1 & t2 & ->).
  apply exec_invariant in Hexec as [_ [_ Hs]].
  apply in_or_app. left. by apply (Hs t1 k o t2 eq_refl k).
Qed.

Lemma batch_positions {A : Type} (pending : list A) k b j :
  nth_error (batches pending) k = Some b ->
  nth_error b j = if j <? 3 then nth_error pending (3 * k + j) else None.
Proof.
  intros Hk. apply batches_spec in Hk as [-> _].
  by rewrite slice_take_drop, nth_error_firstn, nth_error_skipn.
Qed.

(** [C1] The scheduler takes exactly the items that are [IDLE] or [ERROR],
    in their order, and cuts them into consecutive batches of three, the
    last one possibly shorter (seven items: 3, 3 and 1).  In every run, an
    item is dispatched only when each item of every earlier batch has
    settled, and right after it has been marked; an item settles only
    when every item of its batch has been dispatched, so the items of a
    batch are in flight together.  Marking writes to the collection as
    it is at that moment: the collection keeps its length, the item of
    that id is [CONVERTING] with everything else of it unchanged, and no
    other item changes; every pending item is in the collection at the
    start, so it is found and marked; when an item is dispatched, the
    last update queued is the one that makes it [CONVERTING].  Settling
    writes [COMPLETED] with the blob or [ERROR] with a message to the
    item of that id, in the same way.  A run that finishes has dispatched
    and settled every pending item, and such runs exist. *)
Theorem batch_scheduler (files : list FileItem) :
  let pending := pendingFiles files in
  let n := length pending in
  (forall f, In f pending <-> In f files /\ (status f = IDLE \/ status f = ERROR)) /\
  sublist pending files /\
  concat (batches pending) = pending /\
  length (batches pending) = (n + 2) / 3 /\
  (forall k b, nth_error (batches pending) k = Some b ->
     b = slice (3 * k) (3 * k + BATCH_SIZE) pending /\
     1 <= length b <= 3 /\
     (S k < length (batches pending) -> length b = 3) /\
     (forall j, nth_error b j = if j <? 3 then nth_error pending (3 * k + j) else None)) /\
  (n = 7 -> map length (batches pending) = [3; 3; 1]) /\
  (forall tr, run_prefix n tr ->
     (forall t1 x t2, tr = t1 ++ EvDispatch x :: t2 ->
        x < n /\
        (exists t0, t1 = t0 ++ [EvMark x]) /\
        (forall y, y / 3 < x / 3 -> settled t1 y)) /\
     (forall t1 y o t2, tr = t1 ++ EvSettle y o :: t2 ->
        forall x, x < n -> x / 3 = y / 3 -> dispatched t1 x)) /\
  (forall tr, exec n (AtLoop 0) tr = Some Finished ->
     forall k, k < n -> dispatched tr k /\ settled tr k) /\
  (forall oc, exec n (AtLoop 0) (fifo_trace oc n) = Some Finished) /\
  (forall k item prev, nth_error pending k = Some item ->
     length (apply_event pending (EvMark k) prev) = length prev /\
     forall p f, nth_error prev p = Some f ->
       exists f', nth_error (apply_event pending (EvMark k) prev) p = Some f' /\
         (id f = id item -> status f' = CONVERTING /\ payload f' = payload f) /\
         (id f <> id item -> f' = f)) /\
  (forall k item, nth_error pending k = Some item ->
     exists p f', nth_error files p = Some item /\
       nth_error (apply_event pending (EvMark k) files) p = Some f' /\
       status f' = CONVERTING /\ payload f' = payload item) /\
  (forall tr, run_prefix n tr ->
     forall t1 x t2, tr = t1 ++ EvDispatch x :: t2 ->
     exists t0 item, t1 = t0 ++ [EvMark x] /\ nth_error pending x = Some item /\
       forall cur p f, nth_error cur p = Some f -> id f = id item ->
         exists f', nth_error (apply_event pending (EvMark x) cur) p = Some f' /\
           status f' = CONVERTING) /\
  (forall k item prev o, nth_error pending k = Some item ->
     length (apply_event pending (EvSettle k o) prev) = length prev /\
     forall p f, nth_error prev p = Some f ->
       exists f', nth_error (apply_event pending (EvSettle k o) prev) p = Some f' /\
         (id f = id item ->
          settled_as o f' /\ id f' = id f /\ file f' = file f /\
          previewUrl f' = previewUrl f) /\
         (id f <> id item -> f' = f)).
Proof.
  intros pending n.
  destruct (pendingFiles_spec files) as [Hsel Hsub].
  destruct (batches_spec pending) as (Hcat & Hlen & Hnth).
  split; [exact Hsel|]. split; [exact Hsub|]. split; [exact Hcat|].
  split; [exact Hlen|]. split.
  { intros k b Hk. destruct (Hnth k b Hk) as (H1 & H2 & H3).
    repeat (split; [assumption|]). intros j. by apply batch_positions. }
  split; [apply batches_seven|].
  assert (Hrun : forall tr, run_prefix n tr ->
     (forall t1 x t2, tr = t1 ++ EvDispatch x :: t2 ->
        x < n /\
        (exists t0, t1 = t0 ++ [EvMark x]) /\
        (forall y, y / 3 < x / 3 -> settled t1 y)) /\
     (forall t1 y o t2, tr = t1 ++ EvSettle y o :: t2 ->
        forall x, x < n -> x / 3 = y / 3 -> dispatched t1 x)).
  { intros tr [s Hexec]. apply exec_invariant in Hexec as [_ Hok]. exact Hok. }
  split; [exact Hrun|].
  split; [|split; [|split; [|split; [|split]]]].
  - intros tr Hexec k Hk.
    assert (Hs : settled tr k).
    { apply exec_invariant in Hexec as [Hinv _]. by apply Hinv. }
    split; [by apply (settled_dispatched n tr Finished)|exact Hs].
  - intros oc. apply fifo_from_complete. lia.
  - intros k item prev Hk. by apply mark_writes.
  - intros k item Hk.
    assert (Hin : In item files).
    { apply nth_error_In in Hk. by apply Hsel in Hk as [Hk _]. }
    apply In_nth_error in Hin as [p Hp].
    destruct (proj2 (mark_writes pending k item files Hk) p item Hp)
      as (f' & Hf' & Hsame & _).
    destruct (Hsame eq_refl) as [Hst Hpay]. by exists p, f'.
  - intros tr Hpre t1 x t2 Htr.
    destruct (proj1 (Hrun tr Hpre) t1 x t2 Htr) as (Hlt & [t0 Ht0] & _).
    destruct (nth_error pending x) as [item|] eqn:Hx;
      [|apply nth_error_None in Hx; unfold n in Hlt; lia].
    exists t0, item. split; [exact Ht0|]. split; [reflexivity|].
    intros cur p f Hp Hid.
    destruct (proj2 (mark_writes pending x item cur Hx) p f Hp) as (f' & Hf' & Hsame & _).
    exists f'. split; [exact Hf'|]. by destruct (Hsame Hid).
  - intros k item prev o Hk. by apply settle_writes.
Qed.

(** Seven pending items and one completed item; the first batch settles
    out of order, and item 3 is dispatched after that. *)
Lemma batch_scheduler_witness :
  let item := fun (i : string) st =>
    mkItem i (mkFile (String.append i ".webp") 0) (String.append "blob:" i) st None None in
  let files :=
    [item "a" IDLE; item "b" IDLE; item "done" COMPLETED; item "c" ERROR; item "d" IDLE;
     item "e" IDLE; item "f" ERROR; item "g" IDLE]%string in
  let t1 :=
    [EvSlice 0; EvMark 0; EvDispatch 0; EvMark 1; EvDispatch 1; EvMark 2; EvDispatch 2;
     EvAwaitAll; EvSettle 2 Rejected; EvSettle 0 (Resolved "jpeg0");
     EvSettle 1 (Resolved "jpeg1"); EvResume; EvSlice 3; EvMark 3] in
  map length (batches (pendingFiles files)) = [3; 3; 1] /\
  run_prefix (length (pendingFiles files)) (t1 ++ EvDispatch 3 :: []) /\
  (3 < length (pendingFiles files) /\
   (exists t0, t1 = t0 ++ [EvMark 3]) /\
   (forall y, y / 3 < 3 / 3 -> settled t1 y)).
Proof.
  intros item files t1.
  destruct (batch_scheduler files) as (_ & _ & _ & _ & _ & Hseven & Hrun & _).
  assert (Hprefix : run_prefix (length (pendingFiles files)) (t1 ++ EvDispatch 3 :: [])).
  { vm_compute. eauto. }
  split; [apply Hseven; reflexivity|]. split; [exact Hprefix|].
  exact (proj1 (Hrun _ Hprefix) t1 3 [] eq_refl).
Defined.

End SchedulerFacts.

(** * Further properties *)

(** ** Statistics and buttons *)

Section ViewFacts.
Import Registry View.

Lemma count_status_cons st f files :
  count_status st (f :: files) =
  (if has_status st f then 1 else 0) + count_status st files.
Proof. unfold count_status. simpl. by destruct (has_status st f). Qed.

Lemma count_status_app st l1 l2 :
  count_status st (l1 ++ l2) = count_status st l1 + count_status st l2.
Proof. unfold count_status. by rewrite List.filter_app, length_app. Qed.

Lemma count_status_all st files :
  Forall (fun f => status f = st) files -> count_status st files = length files.
Proof.
  induction 1 as [|f files Hf _ IH]; [reflexivity|].
  rewrite count_status_cons, IH. unfold has_status. rewrite bool_decide_eq_true_2; done.
Qed.

Lemma count_status_none st files :
  Forall (fun f => status f <> st) files -> count_status st files = 0.
Proof.
  induction 1 as [|f files Hf _ IH]; [reflexivity|].
  rewrite count_status_cons, IH. unfold has_status. rewrite bool_decide_eq_false_2; done.
Qed.

Lemma count_status_sum (files : list FileItem) :
  length files =
    count_status IDLE files + count_status CONVERTING files
    + count_status COMPLETED files + count_status ERROR files.
Proof.
  induction files as [|f files IH]; [reflexivity|].
  rewrite !count_status_cons. simpl length. unfold has_status.
  destruct (status f); simpl; lia.
Qed.

Lemma stats_counts (files : list FileItem) :
  total (stats files) = length files /\
  completed (stats files) = count_status COMPLETED files /\
  failed (stats files) = count_status ERROR files.
Proof. by repeat split. Qed.

(** The four statuses partition the collection, so the two counters of
    [stats] never exceed [total] together. *)
Theorem stats_partition (files : list FileItem) :
  total (stats files) =
    count_status IDLE files + count_status CONVERTING files
    + completed (stats files) + failed (stats files) /\
  completed (stats files) + failed (stats files) <= total (stats files).
Proof.
  destruct (stats_counts files) as (-> & -> & ->).
  pose proof (count_status_sum files) as Hsum.
  split; [exact Hsum|lia].
Qed.

(** Removing an item of a collection with distinct ids takes exactly that
    item out of the statistics: [total] drops by one, and [completed] or
    [failed] drops by one exactly when the item had that status. *)
Theorem stats_after_remove (files : list FileItem) (f : FileItem) :
  NoDup (map id files) -> In f files ->
  let s := stats files in
  let s' := stats (fst (handleRemoveFile (id f) files)) in
  total s = S (total s') /\
  completed s = completed s' + (if has_status COMPLETED f then 1 else 0) /\
  failed s = failed s' + (if has_status ERROR f then 1 else 0).
Proof.
  intros Hnd Hin s s'. subst s s'.
  destruct (List.in_split _ _ Hin) as (l1 & l2 & ->).
  rewrite (remove_present (id f) l1 f l2 Hnd eq_refl). unfold stats; simpl.
  fold (count_status COMPLETED (l1 ++ f :: l2)) (count_status ERROR (l1 ++ f :: l2)).
  fold (count_status COMPLETED (l1 ++ l2)) (count_status ERROR (l1 ++ l2)).
  rewrite !count_status_app, !count_status_cons, !length_app. simpl. lia.
Qed.

Lemma stats_after_remove_witness :
  let a := mkItem "a" (mkFile "a.webp" 1) "blob:a" COMPLETED (Some "jpeg"%string) None in
  let b := mkItem "b" (mkFile "b.webp" 2) "blob:b" ERROR None (Some "Conversion failed"%string) in
  NoDup (map id [a; b]) /\ In b [a; b] /\
  total (stats [a; b]) = S (total (stats (fst (handleRemoveFile "b" [a; b])))) /\
  completed (stats [a; b]) = completed (stats (fst (handleRemoveFile "b" [a; b]))) + 0 /\
  failed (stats [a; b]) = failed (stats (fst (handleRemoveFile "b" [a; b]))) + 1.
Proof.
  intros a b.
  assert (Hnd : NoDup (map id [a; b])) by (by apply (bool_decide_unpack _)).
  assert (Hin : In b [a; b]) by (simpl; auto).
  split; [exact Hnd|]. split; [exact Hin|].
  exact (stats_after_remove [a; b] b Hnd Hin).
Defined.

(** The "PDF Mode" button makes every item pending again, also the
    converted ones, and keeps everything else of an item, the blob
    included; until a new conversion nothing counts as completed and the
    archive download has nothing to deliver. *)
Theorem switchToPdf_resets (files : list FileItem) :
  Scheduler.pendingFiles (switchToPdf files) = switchToPdf files /\
  map payload (switchToPdf files) = map payload files /\
  completed (stats (switchToPdf files)) = 0 /\
  failed (stats (switchToPdf files)) = 0 /\
  Packager.handleDownload_zip (switchToPdf files) = None.
Proof.
  unfold switchToPdf. split; [|split; [|split; [|split]]].
  - unfold Scheduler.pendingFiles. induction files as [|f files IH]; [reflexivity|].
    simpl. by rewrite IH.
  - rewrite map_map. by apply map_ext.
  - apply count_status_none, Forall_forall. intros g Hg.
    apply list_elem_of_In, in_map_iff in Hg as (f & <- & _). discriminate.
  - apply count_status_none, Forall_forall. intros g Hg.
    apply list_elem_of_In, in_map_iff in Hg as (f & <- & _). discriminate.
  - unfold Packager.handleDownload_zip, Packager.completedFiles.
    induction files as [|f files IH]; [reflexivity|]. simpl. exact IH.
Qed.

Lemma progress_table :
  forallb (fun t => forallb (fun c => progress_ok t c) (seq 0 (S t))) (seq 0 257) = true.
Proof. vm_compute. reflexivity. Qed.

(** For a collection of up to 256 items, the width of the progress bar
    computed in binary64 arithmetic is between 0 and 100 percent, and 100
    exactly when the collection is not empty and every item is
    completed. *)
Theorem progressWidth_bounds (files : list FileItem) :
  length files <= 256 ->
  let p := progressWidth (N:=float) (stats files) in
  (0 <=? p)%float = true /\ (p <=? 100)%float = true /\
  ((p =? 100)%float = true <-> files <> [] /\ completed (stats files) = total (stats files)).
Proof.
  intros Hlen p. subst p.
  assert (Hc : completed (stats files) <= total (stats files)).
  { destruct (stats_counts files) as (-> & -> & _).
    pose proof (count_status_sum files). unfold count_status in *. lia. }
  assert (Ht : total (stats files) = length files) by reflexivity.
  pose proof progress_table as Htab. rewrite forallb_forall in Htab.
  specialize (Htab (total (stats files)) ltac:(apply in_seq; lia)).
  rewrite forallb_forall in Htab.
  specialize (Htab (completed (stats files)) ltac:(apply in_seq; lia)).
  unfold progress_ok in Htab.
  assert (Hs : mkStats (total (stats files)) (completed (stats files)) 0
               = mkStats (total (stats files)) (completed (stats files)) 0) by reflexivity.
  assert (Hp : progressWidth (N:=float) (stats files)
               = progressWidth (N:=float)
                   (mkStats (total (stats files)) (completed (stats files)) 0)).
  { reflexivity. }
  rewrite Hp. clear Hp Hs.
  set (q := progressWidth _) in *. clearbody q.
  apply andb_prop in Htab as [Htab Heq]. apply andb_prop in Htab as [H0 H100].
  split; [exact H0|]. split; [exact H100|].
  apply Bool.eqb_prop in Heq. rewrite Heq, andb_true_iff, Nat.eqb_eq, Nat.ltb_lt.
  rewrite Ht. split.
  - intros [He Hpos]. split; [|by rewrite <- Ht]. intros ->. simpl in Hpos. lia.
  - intros [Hne He]. split; [by rewrite <- Ht in He|]. destruct files; [done|simpl; lia].
Qed.

Lemma progressWidth_bounds_witness :
  let files := [mkItem "a" (mkFile "a.webp" 1) "blob:a" COMPLETED (Some "jpeg"%string) None;
                mkItem "b" (mkFile "b.webp" 2) "blob:b" IDLE None None] in
  (0 <=? progressWidth (N:=float) (stats files))%float = true /\
  (progressWidth (N:=float) (stats files) <=? 100)%float = true /\
  progressWidth (N:=float) (stats files) = 50%float.
Proof.
  intros files.
  destruct (progressWidth_bounds files ltac:(simpl; lia)) as (H0 & H100 & _).
  split; [exact H0|]. split; [exact H100|]. vm_compute. reflexivity.
Defined.

End ViewFacts.

Section PdfButtons.
Import Registry Pdf View.
Context {N : Type} `{JsNumber N}.

(** After a document run started without a stored document, with the
    collection not empty when the run is over, exactly one of the two
    action buttons is rendered, whatever the user added or removed during
    the run: the download button when the run stored the document, the
    conversion button (to try again) when it failed. *)
Theorem pdf_buttons_after_run (host : Host N) (options : PdfOptions)
    (files : list FileItem) (mid : list (Live.entry (Live.pdf_write N))) :
  let r := generatePdf host (map file files) options [] in
  Live.run_part mid = Live.progress_writes (snd r) ->
  let st := Live.startPdfConversion host options files None mid in
  fst st <> [] ->
  let stored := bool_decide (is_Some (snd st)) in
  showDownload PDF stored (fst st) = stored /\
  showConvert PDF stored (fst st) = negb stored /\
  (stored = true <-> exists blob, fst r = Ok blob).
Proof.
  intros r Hmid st Hne stored. subst stored st.
  rewrite startPdfConversion_ends in *. fold r in Hne |- *.
  assert (Hpos : forall l : list FileItem, l <> [] -> (0 <? length l) = true).
  { intros [|? ?] Hl; [done|reflexivity]. }
  destruct (fst r) as [blob|] eqn:Hres; cbn [fst snd] in *.
  - unfold showDownload, showConvert. rewrite (Hpos _ Hne).
    rewrite bool_decide_eq_true_2 by eauto. simpl. split; [reflexivity|].
    split; [reflexivity|]. split; eauto.
  - rewrite (no_document_stored files mid (snd r) Hmid).
    rewrite bool_decide_eq_false_2 by (by intros [? ?]).
    unfold showDownload, showConvert. rewrite (Hpos _ Hne). simpl.
    split; [reflexivity|]. split.
    + apply not_all_completed.
      destruct (map failAll _) as [|g l] eqn:Hl; [done|].
      exists g. split; [by left|].
      assert (Hin : In g (map failAll (fst (Live.state_after files mid
                            (map resetConverting files, None))))).
      { rewrite Hl. by left. }
      apply in_map_iff in Hin as (g0 & <- & _). discriminate.
    + split; [discriminate|]. by intros [blob Hb].
Qed.

(** After a document run that stored the document, choosing another
    margin or orientation only drops the stored document.  The download
    button is then not rendered, and the conversion button is rendered
    exactly when a file that the user added during the run is in the
    collection: when the user added nothing, every item still counts as
    completed and the document cannot be generated again from this
    state. *)
Theorem pdf_options_change_dead_end (host : Host N) (options : PdfOptions)
    (files : list FileItem) (pdfBlob : option (PdfBlob N))
    (blob : PdfBlob N) (log : list (effect N))
    (mid : list (Live.entry (Live.pdf_write N))) :
  generatePdf host (map file files) options [] = (Ok blob, log) ->
  Live.run_part mid = Live.progress_writes log ->
  Forall (fun i => ~ In i (map id files)) (added_ids mid) ->
  let st := Live.pdf_step files (Live.startPdfConversion host options files pdfBlob mid)
              (Live.ByUser Live.OptionChanged) in
  snd st = None /\
  showDownload PDF false (fst st) = false /\
  (showConvert PDF false (fst st) = true <->
   exists src, In src (Live.added mid) /\ In (newItem src) (fst st)) /\
  (Live.added mid = [] -> showConvert PDF false (fst st) = false).
Proof.
  intros Hrun Hmid Hfresh st.
  destruct (completed_run_items host options files pdfBlob blob log mid Hrun Hmid Hfresh)
    as (_ & Hfrom & _).
  subst st. cbn [Live.pdf_step Live.act_files fst snd].
  set (cur := fst (Live.startPdfConversion host options files pdfBlob mid)) in *.
  assert (Hconv : showConvert PDF false cur = true <->
                  exists src, In src (Live.added mid) /\ In (newItem src) cur).
  { unfold showConvert. cbn [is_jpeg negb orb andb].
    rewrite andb_true_iff, not_all_completed. split.
    - intros [_ (g & Hg & Hs)].
      destruct (Hfrom g Hg) as [(g0 & _ & _ & Hc)|(src & Hsrc & ->)]; [contradiction|].
      by exists src.
    - intros (src & Hsrc & Hin). split.
      + destruct cur; [destruct Hin|reflexivity].
      + exists (newItem src). split; [exact Hin|]. by destruct src as [f [u url]]. }
  split; [reflexivity|]. split.
  - unfold showDownload. simpl. by rewrite andb_false_r.
  - split; [exact Hconv|]. intros Hnone.
    destruct (showConvert PDF false cur) eqn:Hs; [|reflexivity].
    destruct (proj1 Hconv eq_refl) as (src & Hsrc & _).
    rewrite Hnone in Hsrc. destruct Hsrc.
Qed.

End PdfButtons.

Section PdfButtonsWitnesses.
Import Registry Pdf View.

Lemma pdf_buttons_after_run_witness :
  let r := generatePdf (demo_host true) (map file demo_files)
             (mkOptions small portrait) [] in
  let mid :=
    [Live.ByRun (Live.Progressed 0);
     Live.ByUser (Live.RemoveFile "a");
     Live.ByRun (Live.Progressed 1)] in
  let st := Live.startPdfConversion (demo_host true) (mkOptions small portrait)
              demo_files None mid in
  fst r = Throw /\
  Live.run_part mid = Live.progress_writes (snd r) /\
  fst st <> [] /\
  showDownload PDF false (fst st) = false /\
  showConvert PDF false (fst st) = true.
Proof.
  intros r mid st.
  assert (Hmid : Live.run_part mid = Live.progress_writes (snd r)) by reflexivity.
  assert (Hne : fst st <> []) by discriminate.
  split; [reflexivity|]. split; [exact Hmid|]. split; [exact Hne|].
  destruct (pdf_buttons_after_run (demo_host true) (mkOptions small portrait)
              demo_files mid Hmid Hne) as (Hd & Hc & _).
  split; [exact Hd|exact Hc].
Defined.

Lemma pdf_options_change_dead_end_witness :
  let r := generatePdf (demo_host false) (map file demo_files)
             (mkOptions small portrait) [] in
  let mid := Live.undisturbed (Live.progress_writes (snd r)) in
  let st := Live.pdf_step demo_files
              (Live.startPdfConversion (demo_host false) (mkOptions small portrait)
                 demo_files None mid)
              (Live.ByUser Live.OptionChanged) in
  r = (Ok (docs_of (snd r)), snd r) /\
  snd st = None /\
  showDownload PDF false (fst st) = false /\
  showConvert PDF false (fst st) = false.
Proof.
  intros r mid st.
  assert (Hr : r = (Ok (docs_of (snd r)), snd r)) by (vm_compute; reflexivity).
  assert (Hmid : Live.run_part mid = Live.progress_writes (snd r)) by reflexivity.
  assert (Hfresh : Forall (fun i => ~ In i (map id demo_files)) (added_ids mid))
    by constructor.
  destruct (pdf_options_change_dead_end (demo_host false) (mkOptions small portrait)
              demo_files None (docs_of (snd r)) (snd r) mid Hr Hmid Hfresh)
    as (Hb & Hd & _ & Hc).
  split; [exact Hr|]. split; [exact Hb|]. split; [exact Hd|]. exact (Hc eq_refl).
Defined.

End PdfButtonsWitnesses.

(** ** Finished scheduler runs *)

Section FinishedRuns.
Import Registry Scheduler.

Lemma exec_Finished n tr s : exec n Finished tr = Some s -> tr = [].
Proof. destruct tr as [|e tr]; [done|]. by destruct e. Qed.

Lemma exec_InMap_inv n i : forall ks inflight tr,
  exec n (InMap i ks inflight) tr = Some Finished ->
  exists tr', tr = flat_map (fun k => [EvMark k; EvDispatch k]) ks ++ EvAwaitAll :: tr' /\
    exec n (Awaiting i (inflight ++ ks)) tr' = Some Finished.
Proof.
  induction ks as [|k ks IH]; intros inflight tr Hexec.
  - destruct tr as [|e tr]; [discriminate|].
    destruct e; simpl in Hexec; try discriminate.
    exists tr. split; [reflexivity|]. by rewrite app_nil_r.
  - destruct tr as [|e tr]; [discriminate|].
    destruct e as [|k'| | | | |]; simpl in Hexec; try discriminate.
    destruct (Nat.eqb_spec k k') as [<-|]; [|discriminate].
    destruct tr as [|e tr]; [discriminate|].
    destruct e as [| | k'| | | |]; simpl in Hexec; try discriminate.
    destruct (Nat.eqb_spec k k') as [<-|]; [|discriminate].
    apply IH in Hexec as (tr' & -> & Hexec).
    exists tr'. split; [reflexivity|]. by rewrite <- app_assoc in Hexec.
Qed.

Lemma remove_nat_In k x l : In x (remove_nat k l) <-> In x l /\ x <> k.
Proof.
  unfold remove_nat. rewrite filter_In, negb_true_iff, Nat.eqb_neq. tauto.
Qed.

Lemma remove_nat_NoDup k l : List.NoDup l -> List.NoDup (remove_nat k l).
Proof. apply List.NoDup_filter. Qed.

Lemma remove_nat_length k l :
  List.NoDup l -> In k l -> S (length (remove_nat k l)) = length l.
Proof.
  induction l as [|x l IH]; intros Hnd Hin; [destruct Hin|].
  inversion Hnd as [|? ? Hnotin Hnd']; subst.
  destruct (Nat.eq_dec x k) as [->|Hne].
  - by rewrite remove_nat_head.
  - unfold remove_nat in *. simpl.
    replace (x =? k) with false by (symmetry; by apply Nat.eqb_neq). simpl.
    rewrite IH; [reflexivity|exact Hnd'|]. destruct Hin; [done|assumption].
Qed.

Lemma remove_nat_Permutation k l :
  List.NoDup l -> In k l -> Permutation (k :: remove_nat k l) l.
Proof.
  induction l as [|x l IH]; intros Hnd Hin; [destruct Hin|].
  inversion Hnd as [|? ? Hnotin Hnd']; subst.
  destruct (Nat.eq_dec x k) as [->|Hne].
  - by rewrite remove_nat_head.
  - unfold remove_nat in *. simpl.
    replace (x =? k) with false by (symmetry; by apply Nat.eqb_neq). simpl.
    rewrite Permutation_swap. constructor. apply IH; [exact Hnd'|].
    destruct Hin; [done|assumption].
Qed.

Lemma exec_Awaiting_inv n i : forall m inflight tr,
  length inflight <= m -> List.NoDup inflight ->
  exec n (Awaiting i inflight) tr = Some Finished ->
  exists settles tr',
    tr = map (fun p => EvSettle (fst p) (snd p)) settles ++ EvResume :: tr' /\
    Permutation (map fst settles) inflight /\
    exec n (AtLoop (i + BATCH_SIZE)) tr' = Some Finished.
Proof.
  induction m as [|m IH]; intros inflight tr Hlen Hnd Hexec;
    (destruct tr as [|e tr]; [discriminate|]);
    destruct e as [| | | | k o | |]; simpl in Hexec; try discriminate.
  - destruct inflight; [discriminate|simpl in Hlen; lia].
  - destruct inflight; [|discriminate]. by exists [], tr.
  - destruct (existsb (Nat.eqb k) inflight) eqn:Hex; [|discriminate].
    apply existsb_exists in Hex as (k' & Hin & Heq). apply Nat.eqb_eq in Heq as <-.
    pose proof (remove_nat_length k inflight Hnd Hin) as Hl.
    apply IH in Hexec as (settles & tr' & -> & Hperm & Hexec);
      [|lia|by apply remove_nat_NoDup].
    exists ((k, o) :: settles), tr'. split; [reflexivity|]. split; [|exact Hexec].
    simpl. rewrite Hperm. by apply remove_nat_Permutation.
  - destruct inflight; [|discriminate]. by exists [], tr.
Qed.

Lemma orders_marks (ks : list nat) :
  mark_order (flat_map (fun k => [EvMark k; EvDispatch k]) ks) = ks /\
  dispatch_order (flat_map (fun k => [EvMark k; EvDispatch k]) ks) = ks /\
  settle_order (flat_map (fun k => [EvMark k; EvDispatch k]) ks) = [].
Proof.
  induction ks as [|k ks (IH1 & IH2 & IH3)]; [done|].
  unfold mark_order, dispatch_order, settle_order in *. simpl.
  by rewrite IH1, IH2, IH3.
Qed.

Lemma orders_settles (settles : list (nat * outcome)) :
  mark_order (map (fun p => EvSettle (fst p) (snd p)) settles) = [] /\
  dispatch_order (map (fun p => EvSettle (fst p) (snd p)) settles) = [] /\
  settle_order (map (fun p => EvSettle (fst p) (snd p)) settles) = map fst settles.
Proof.
  induction settles as [|[k o] l (IH1 & IH2 & IH3)]; [done|].
  unfold mark_order, dispatch_order, settle_order in *. simpl.
  by rewrite IH1, IH2, IH3.
Qed.

Lemma seq_batch i n :
  i < n -> seq i (3 `min` (n - i)) ++ seq (i + 3) (n - (i + 3)) = seq i (n - i).
Proof.
  intros Hlt. destruct (le_lt_dec 3 (n - i)) as [Hge|Hsmall].
  - rewrite Nat.min_l by exact Hge. rewrite <- seq_app. f_equal. lia.
  - rewrite Nat.min_r by lia. replace (n - (i + 3)) with 0 by lia.
    simpl. by rewrite app_nil_r.
Qed.

Lemma finished_from n : forall fuel i tr,
  n - i <= fuel ->
  exec n (AtLoop i) tr = Some Finished ->
  mark_order tr = seq i (n - i) /\
  dispatch_order tr = seq i (n - i) /\
  Permutation (settle_order tr) (seq i (n - i)).
Proof.
  induction fuel as [|fuel IH]; intros i tr Hfuel Hexec;
    (destruct tr as [|e tr]; [discriminate|]);
    destruct e as [j| | | | | |]; simpl in Hexec; try discriminate.
  - destruct (Nat.eqb_spec i j); destruct (Nat.ltb_spec i n); try discriminate; lia.
  - destruct (Nat.ltb_spec i n); [discriminate|].
    apply exec_Finished in Hexec as ->. replace (n - i) with 0 by lia. done.
  - destruct (Nat.eqb_spec i j) as [<-|]; [|discriminate].
    destruct (Nat.ltb_spec i n) as [Hlt|]; [|discriminate]. simpl in Hexec.
    apply exec_InMap_inv in Hexec as (tr1 & -> & Hexec). simpl in Hexec.
    apply exec_Awaiting_inv with (m := length (slice i (i + BATCH_SIZE) (seq 0 n)))
      in Hexec as (settles & tr2 & -> & Hperm & Hexec);
      [|done|rewrite slice_positions; apply List.seq_NoDup].
    apply IH in Hexec as (Hm & Hd & Hs); [|unfold BATCH_SIZE; lia].
    rewrite slice_positions in *. unfold BATCH_SIZE in *.
    destruct (orders_marks (seq i (3 `min` (n - i)))) as (M1 & M2 & M3).
    destruct (orders_settles settles) as (S1 & S2 & S3).
    unfold mark_order, dispatch_order, settle_order in *.
    cbn [flat_map app]. rewrite !flat_map_app. cbn [flat_map app].
    rewrite !flat_map_app. cbn [flat_map app].
    rewrite M1, M2, M3, S1, S2, S3, Hm, Hd. cbn [app].
    split; [by apply seq_batch|]. split; [by apply seq_batch|].
    rewrite Hperm, Hs. by rewrite seq_batch.
  - destruct (Nat.ltb_spec i n); [discriminate|].
    apply exec_Finished in Hexec as ->. replace (n - i) with 0 by lia. done.
Qed.

(** In a run that finishes, every pending item is marked and dispatched
    exactly once, in the order of [pendingFiles], and settles exactly
    once: no item is converted twice or skipped. *)
Theorem finished_run_once (n : nat) (tr : list event) :
  exec n (AtLoop 0) tr = Some Finished ->
  mark_order tr = seq 0 n /\
  dispatch_order tr = seq 0 n /\
  Permutation (settle_order tr) (seq 0 n).
Proof.
  intros Hexec. destruct (finished_from n n 0 tr ltac:(lia) Hexec) as (Hm & Hd & Hs).
  by rewrite Nat.sub_0_r in *.
Qed.

Lemma finished_run_once_witness :
  let tr := [EvSlice 0; EvMark 0; EvDispatch 0; EvMark 1; EvDispatch 1; EvMark 2;
             EvDispatch 2; EvAwaitAll; EvSettle 1 Rejected; EvSettle 2 (Resolved "c");
             EvSettle 0 (Resolved "a"); EvResume; EvSlice 3; EvMark 3; EvDispatch 3;
             EvAwaitAll; EvSettle 3 Rejected; EvResume; EvExit] in
  exec 4 (AtLoop 0) tr = Some Finished /\
  mark_order tr = seq 0 4 /\
  dispatch_order tr = seq 0 4 /\
  Permutation (settle_order tr) (seq 0 4).
Proof.
  intros tr. assert (Hexec : exec 4 (AtLoop 0) tr = Some Finished) by reflexivity.
  split; [exact Hexec|]. exact (finished_run_once 4 tr Hexec).
Defined.

End FinishedRuns.

Section RunResults.
Import Registry Scheduler View.

Lemma step_inactive n k s e s' :
  step n s e = Some s' -> inactive k s -> inactive k s' /\ about_pos e <> Some k.
Proof.
  intros Hstep Hin.
  destruct s as [i | i todo infl | i k' todo infl | i infl |]; simpl in Hin.
  - destruct e as [j| | | | | |]; simpl in Hstep; try discriminate.
    + destruct ((i =? j) && (i <? n)); [|discriminate]. injection Hstep as <-.
      split; [|discriminate]. simpl. split; [lia|]. split; [|tauto].
      intros Hk. apply in_slice_positions in Hk as [Hk _]. lia.
    + destruct (i <? n); [discriminate|]. injection Hstep as <-. by split.
  - destruct Hin as (Hlt & Htodo & Hinfl).
    destruct e as [| k'' | | | | |]; simpl in Hstep; try discriminate;
      destruct todo as [|k' todo]; try discriminate.
    + destruct (Nat.eqb_spec k' k'') as [<-|]; [|discriminate]. injection Hstep as <-.
      split.
      * simpl. split; [exact Hlt|]. split; [intros ->; apply Htodo; by left|].
        split; [|exact Hinfl]. intros Hk. apply Htodo. by right.
      * simpl. intros [= <-]. apply Htodo. by left.
    + injection Hstep as <-. split; [by split|discriminate].
  - destruct Hin as (Hlt & Hne & Htodo & Hinfl).
    destruct e as [| | k'' | | | |]; simpl in Hstep; try discriminate.
    destruct (Nat.eqb_spec k' k'') as [<-|]; [|discriminate]. injection Hstep as <-.
    split.
    + simpl. split; [exact Hlt|]. split; [exact Htodo|].
      intros Hk. apply in_app_or in Hk as [Hk|[Hk|[]]]; [by apply Hinfl|congruence].
    + simpl. congruence.
  - destruct Hin as (Hlt & Hinfl).
    destruct e as [| | | | k'' o | |]; simpl in Hstep; try discriminate.
    + destruct (existsb (Nat.eqb k'') infl) eqn:Hex; [|discriminate]. injection Hstep as <-.
      apply existsb_exists in Hex as (x & Hx & Heq). apply Nat.eqb_eq in Heq as <-.
      split.
      * simpl. split; [exact Hlt|]. intros Hk. apply remove_nat_In in Hk as [Hk _].
        by apply Hinfl.
      * simpl. intros [= ->]. by apply Hinfl.
    + destruct infl; [|discriminate]. injection Hstep as <-. split; [|discriminate].
      simpl. unfold BATCH_SIZE in *. lia.
  - by destruct e.
Qed.

Lemma exec_inactive n k : forall tr s s',
  exec n s tr = Some s' -> inactive k s ->
  forall e, In e tr -> about_pos e <> Some k.
Proof.
  induction tr as [|e tr IH]; intros s s' Hexec Hin e' He'; [destruct He'|].
  simpl in Hexec. destruct (step n s e) as [s1|] eqn:Hstep; [|discriminate].
  destruct (step_inactive n k s e s1 Hstep Hin) as [Hin1 Hne].
  destruct He' as [<-|He']; [exact Hne|]. by apply (IH s1 s').
Qed.

Lemma ids_injective (l : list FileItem) k1 k2 f1 f2 :
  NoDup (map id l) -> nth_error l k1 = Some f1 -> nth_error l k2 = Some f2 ->
  id f1 = id f2 -> k1 = k2.
Proof.
  intros Hnd H1 H2 Hid. apply NoDup_ListNoDup in Hnd.
  apply (NoDup_nth_error (map id l)); [exact Hnd| |].
  - rewrite length_map. apply nth_error_Some. by rewrite H1.
  - rewrite !nth_error_map, H1, H2. simpl. by rewrite Hid.
Qed.

Lemma pending_ids_NoDup files :
  NoDup (map id files) -> NoDup (map id (pendingFiles files)).
Proof.
  intros Hnd. eapply sublist_NoDup; [exact Hnd|].
  apply (fmap_sublist id), pendingFiles_spec.
Qed.

(** The item of a position that settled with [o] in a finished run. *)
Lemma settled_item n pending tr k o item g :
  n = length pending -> NoDup (map id pending) ->
  exec n (AtLoop 0) tr = Some Finished ->
  In (EvSettle k o) tr -> nth_error pending k = Some item -> id g = id item ->
  settled_as o (item_trace pending tr g).
Proof.
  intros Hn Hnd Hexec Hin Hk Hid.
  apply List.in_split in Hin as (t1 & t2 & ->).
  rewrite exec_app in Hexec.
  destruct (exec n (AtLoop 0) t1) as [s1|] eqn:H1; [|discriminate].
  simpl in Hexec. destruct (step n s1 (EvSettle k o)) as [s2|] eqn:Hstep; [|discriminate].
  apply exec_invariant in H1 as [Hinv _].
  assert (Hinact : inactive k s2).
  { destruct s1 as [i | i todo infl | i k' todo infl | i infl |];
      simpl in Hstep; try discriminate; try (by destruct todo).
    destruct (existsb (Nat.eqb k) infl) eqn:Hex; [|discriminate]. injection Hstep as <-.
    apply existsb_exists in Hex as (x & Hx & Heq). apply Nat.eqb_eq in Heq as <-.
    destruct Hinv as (_ & _ & Hinfl & _). destruct (Hinfl k Hx) as [[_ Hlt] _].
    simpl. split; [exact Hlt|]. intros Hk'. apply remove_nat_In in Hk' as [_ Hne]. done. }
  pose proof (exec_inactive n k t2 s2 Finished Hexec Hinact) as Hrest.
  rewrite item_trace_app. change (EvSettle k o :: t2) with ([EvSettle k o] ++ t2).
  rewrite item_trace_app. set (g1 := item_trace pending t1 g).
  assert (Hid1 : id g1 = id item).
  { subst g1. by rewrite (proj1 (item_trace_frame pending t1 g)). }
  set (g2 := item_trace pending [EvSettle k o] g1).
  assert (H2 : settled_as o g2) by exact (item_event_settle pending k o item g1 Hk Hid1).
  assert (Hid2 : id g2 = id item).
  { subst g2. by rewrite (proj1 (item_trace_frame pending [EvSettle k o] g1)). }
  rewrite item_trace_other; [exact H2|].
  intros e k' item' He Hab Hk' Heq.
  apply (Hrest e He). rewrite Hab. f_equal.
  apply (ids_injective pending k' k item' item Hnd Hk' Hk). congruence.
Qed.

Lemma is_settled_count files :
  forallb is_settled files = true ->
  completed (stats files) + failed (stats files) = total (stats files) /\
  pendingFiles files = List.filter (has_status ERROR) files.
Proof.
  intros Hall. split.
  - unfold stats. cbn [total completed failed].
    fold (count_status COMPLETED files) (count_status ERROR files).
    induction files as [|f files IH]; [reflexivity|].
    simpl in Hall. apply andb_prop in Hall as [Hf Hall]. specialize (IH Hall).
    rewrite !count_status_cons. simpl length. unfold is_settled in Hf. unfold has_status.
    destruct (status f); try discriminate; simpl; lia.
  - unfold pendingFiles. induction files as [|f files IH]; [reflexivity|].
    simpl in Hall. apply andb_prop in Hall as [Hf Hall]. simpl. rewrite (IH Hall).
    unfold isPending, has_status, is_settled in *.
    by destruct (status f).
Qed.

Lemma added_fresh (files : list FileItem) {W : Type} (tr : list (Live.entry W)) src g :
  NoDup (map id files ++ added_ids tr) ->
  In src (Live.added tr) -> In g files -> id g <> id (newItem src).
Proof.
  intros Hnd Hsrc Hg Heq. apply NoDup_app in Hnd as (_ & Hdisj & _).
  apply (Hdisj (id g)).
  - apply list_elem_of_In, in_map. exact Hg.
  - apply list_elem_of_In. rewrite Heq. unfold added_ids.
    apply in_map_iff. exists src. split; [|exact Hsrc]. by destruct src as [f [u url]].
Qed.

Lemma item_event_added (files : list FileItem) (tr : list (Live.entry event)) src e :
  NoDup (map id files ++ added_ids tr) ->
  In src (Live.added tr) ->
  item_event (pendingFiles files) e (newItem src) = newItem src.
Proof.
  intros Hnd Hsrc. apply item_event_other. intros k item _ Hk.
  apply (added_fresh files tr src item Hnd Hsrc).
  apply nth_error_In in Hk. by apply pendingFiles_spec in Hk as [Hk _].
Qed.

(** The items of the collection after a finished batch run during which
    the user added and removed files. *)
Lemma live_run_items (files : list FileItem) (tr : list (Live.entry event)) :
  NoDup (map id files ++ added_ids tr) ->
  let pending := pendingFiles files in
  let files' := Live.files_after (apply_event pending) tr files in
  (forall g', In g' files' ->
     (exists g, In g files /\ g' = item_trace pending (Live.run_part tr) g) \/
     (exists src, In src (Live.added tr) /\ g' = newItem src)) /\
  (forall g, In g files -> ~ In (id g) (Live.removed tr) ->
     In (item_trace pending (Live.run_part tr) g) files').
Proof.
  intros Hnd pending files'.
  apply (files_after_items (apply_event pending) (item_event pending)).
  - intros w prev. apply apply_event_map.
  - intros w g. apply item_event_frame.
  - intros src w Hsrc _. by apply (item_event_added files tr).
Qed.

Lemma not_pending_untouched (files : list FileItem) (tr : list event) g :
  NoDup (map id files) -> In g files -> isPending g = false ->
  item_trace (pendingFiles files) tr g = g.
Proof.
  intros Hnd Hg Hnot. apply item_trace_other. intros e k item _ _ Hk Heq.
  assert (Hitem : In item (pendingFiles files)) by (eapply nth_error_In; exact Hk).
  apply pendingFiles_spec in Hitem as [Hitem Hst].
  apply In_nth_error in Hitem as [q Hq]. apply In_nth_error in Hg as [p Hp].
  assert (q = p) by exact (ids_injective files q p item g Hnd Hq Hp Heq). subst q.
  assert (item = g) by congruence. subst item.
  unfold isPending in Hnot. destruct Hst as [Hs|Hs]; rewrite Hs in Hnot; discriminate.
Qed.

Lemma pending_settles (files : list FileItem) (tr : list event) g :
  exec (length (pendingFiles files)) (AtLoop 0) tr = Some Finished ->
  In g files -> isPending g = true ->
  exists k o, nth_error (pendingFiles files) k = Some g /\ In (EvSettle k o) tr.
Proof.
  intros Hexec Hg Hpend.
  assert (Hin : In g (pendingFiles files)) by (apply filter_In; by split).
  apply In_nth_error in Hin as [k Hk]. exists k.
  assert (Hlt : k < length (pendingFiles files)) by (apply nth_error_Some; by rewrite Hk).
  apply exec_invariant in Hexec as [Hfin _]. destruct (Hfin k Hlt) as [o Ho].
  by exists o.
Qed.

(** Failure isolation.  In a finished batch run, whatever files the user
    added or removed meanwhile (added ids being new): an item of the
    collection is an item of the start or a file added by the user, as
    added; an item of the start that was pending has ended as its own
    promise settled, [COMPLETED] with the blob it resolved to or [ERROR]
    with ['Conversion failed'], whatever happened to the other items; one
    that was not pending is exactly as it was; and every item of the
    start that the user did not remove is still there. *)
Theorem finished_run_items (files : list FileItem) (tr : list (Live.entry event)) :
  NoDup (map id files ++ added_ids tr) ->
  let pending := pendingFiles files in
  exec (length pending) (AtLoop 0) (Live.run_part tr) = Some Finished ->
  let files' := Live.files_after (apply_event pending) tr files in
  (forall g', In g' files' ->
     (exists g, In g files /\
        id g' = id g /\ file g' = file g /\ previewUrl g' = previewUrl g /\
        (isPending g = false -> g' = g) /\
        (forall k o, nth_error pending k = Some g -> In (EvSettle k o) (Live.run_part tr) ->
           settled_as o g') /\
        (isPending g = true -> exists k o,
           nth_error pending k = Some g /\ In (EvSettle k o) (Live.run_part tr))) \/
     (exists src, In src (Live.added tr) /\ g' = newItem src)) /\
  (forall g, In g files -> ~ In (id g) (Live.removed tr) ->
     exists g', In g' files' /\ id g' = id g).
Proof.
  intros Hnd pending Hexec files'.
  destruct (live_run_items files tr Hnd) as [Hfrom Hkept].
  assert (Hndf : NoDup (map id files)) by (by apply NoDup_app in Hnd as [? _]).
  pose proof (pending_ids_NoDup files Hndf) as Hndp.
  split.
  - intros g' Hg'. destruct (Hfrom g' Hg') as [(g & Hg & ->)|Hadded]; [left|by right].
    exists g. split; [exact Hg|].
    destruct (item_trace_frame pending (Live.run_part tr) g) as (Hid & Hfile & Hurl).
    split; [exact Hid|]. split; [exact Hfile|]. split; [exact Hurl|].
    split; [|split].
    + intros Hnot. by apply not_pending_untouched.
    + intros k o Hk Hin.
      by apply (settled_item (length pending) pending (Live.run_part tr) k o g g).
    + intros Hpend. by apply pending_settles.
  - intros g Hg Hrem. exists (item_trace pending (Live.run_part tr) g).
    split; [by apply Hkept|]. apply item_trace_frame.
Qed.

Lemma finished_run_items_witness :
  let files :=
    [mkItem "a" (mkFile "a.webp" 1) "blob:a" IDLE None None;
     mkItem "b" (mkFile "b.webp" 2) "blob:b" COMPLETED (Some "old"%string) None;
     mkItem "c" (mkFile "c.webp" 3) "blob:c" ERROR None (Some "Conversion failed"%string)] in
  let tr :=
    [Live.ByRun (EvSlice 0); Live.ByRun (EvMark 0); Live.ByRun (EvDispatch 0);
     Live.ByRun (EvMark 1); Live.ByRun (EvDispatch 1); Live.ByRun EvAwaitAll;
     Live.ByUser (Live.FilesAdded [(mkFile "d.webp" 4, ("d", "blob:d"))]%string);
     Live.ByRun (EvSettle 1 (Resolved "new"));
     Live.ByUser (Live.RemoveFile "b");
     Live.ByRun (EvSettle 0 Rejected); Live.ByRun EvResume; Live.ByRun EvExit] in
  NoDup (map id files ++ added_ids tr) /\
  exec (length (pendingFiles files)) (AtLoop 0) (Live.run_part tr) = Some Finished /\
  (exists g', In g' (Live.files_after (apply_event (pendingFiles files)) tr files) /\
     id g' = "a"%string) /\
  map (fun f => (id f, status f, convertedBlob f, error f))
    (Live.files_after (apply_event (pendingFiles files)) tr files) =
    [("a", ERROR, None, Some "Conversion failed");
     ("c", COMPLETED, Some "new", Some "Conversion failed");
     ("d", IDLE, None, None)]%string.
Proof.
  intros files tr.
  assert (Hnd : NoDup (map id files ++ added_ids tr)) by (by apply (bool_decide_unpack _)).
  assert (Hexec : exec (length (pendingFiles files)) (AtLoop 0) (Live.run_part tr)
                  = Some Finished) by reflexivity.
  split; [exact Hnd|]. split; [exact Hexec|]. split; [|reflexivity].
  refine (proj2 (finished_run_items files tr Hnd Hexec)
            (mkItem "a" (mkFile "a.webp" 1) "blob:a" IDLE None None) _ _).
  - by left.
  - simpl. intros [H|[]]. discriminate.
Defined.

(** A finished batch run leaves nothing behind.  When no item is
    [CONVERTING] at the start, none is after a finished run, whatever
    files the user added or removed meanwhile (added ids being new); the
    items that are [IDLE] are files the user added during the run; so
    when the user added nothing every item is [COMPLETED] or [ERROR],
    [completed + failed = total], and what a new run would take up is
    exactly the failed items. *)
Theorem finished_run_settles_all (files : list FileItem) (tr : list (Live.entry event)) :
  NoDup (map id files ++ added_ids tr) ->
  Forall (fun f => status f <> CONVERTING) files ->
  let pending := pendingFiles files in
  exec (length pending) (AtLoop 0) (Live.run_part tr) = Some Finished ->
  let files' := Live.files_after (apply_event pending) tr files in
  Forall (fun g' => status g' <> CONVERTING) files' /\
  (forall g', In g' files' -> status g' = IDLE ->
     exists src, In src (Live.added tr) /\ g' = newItem src) /\
  (Live.added tr = [] ->
     forallb is_settled files' = true /\
     completed (stats files') + failed (stats files') = total (stats files') /\
     pendingFiles files' = List.filter (has_status ERROR) files').
Proof.
  intros Hnd Hnoconv pending Hexec files'.
  destruct (live_run_items files tr Hnd) as [Hfrom _].
  assert (Hndf : NoDup (map id files)) by (by apply NoDup_app in Hnd as [? _]).
  pose proof (pending_ids_NoDup files Hndf) as Hndp.
  assert (Horig : forall g, In g files ->
            is_settled (item_trace pending (Live.run_part tr) g) = true).
  { intros g Hg. destruct (isPending g) eqn:Hpend.
    - destruct (pending_settles files (Live.run_part tr) g Hexec Hg Hpend)
        as (k & o & Hk & Ho).
      pose proof (settled_item (length pending) pending (Live.run_part tr) k o g g
                    eq_refl Hndp Hexec Ho Hk eq_refl) as Hs.
      unfold is_settled. destruct o; destruct Hs as [-> _]; reflexivity.
    - unfold pending. rewrite not_pending_untouched by assumption.
      rewrite Forall_forall in Hnoconv. specialize (Hnoconv g).
      unfold isPending in Hpend. unfold is_settled.
      destruct (status g); try discriminate; [|reflexivity].
      exfalso. apply Hnoconv; [by apply list_elem_of_In|reflexivity]. }
  assert (Hcases : forall g', In g' files' ->
            is_settled g' = true \/ exists src, In src (Live.added tr) /\ g' = newItem src).
  { intros g' Hg'. destruct (Hfrom g' Hg') as [(g & Hg & ->)|Hadd]; [left|by right].
    by apply Horig. }
  split; [|split].
  - apply Forall_forall. intros g' Hg'. apply list_elem_of_In in Hg'.
    destruct (Hcases g' Hg') as [Hs|(src & _ & ->)].
    + unfold is_settled in Hs. by destruct (status g').
    + by destruct src as [f [u url]].
  - intros g' Hg' Hidle. destruct (Hcases g' Hg') as [Hs|Hadd]; [|exact Hadd].
    unfold is_settled in Hs. rewrite Hidle in Hs. discriminate.
  - intros Hnone.
    assert (Hall : forallb is_settled files' = true).
    { apply forallb_forall. intros g' Hg'.
      destruct (Hcases g' Hg') as [Hs|(src & Hsrc & _)]; [exact Hs|].
      rewrite Hnone in Hsrc. destruct Hsrc. }
    split; [exact Hall|]. by apply is_settled_count.
Qed.

Lemma finished_run_settles_all_witness :
  let files :=
    [mkItem "a" (mkFile "a.webp" 1) "blob:a" IDLE None None;
     mkItem "b" (mkFile "b.webp" 2) "blob:b" COMPLETED (Some "old"%string) None;
     mkItem "c" (mkFile "c.webp" 3) "blob:c" ERROR None (Some "Conversion failed"%string)] in
  let tr :=
    [Live.ByRun (EvSlice 0); Live.ByRun (EvMark 0); Live.ByRun (EvDispatch 0);
     Live.ByRun (EvMark 1); Live.ByRun (EvDispatch 1); Live.ByRun EvAwaitAll;
     Live.ByUser (Live.FilesAdded [(mkFile "d.webp" 4, ("d", "blob:d"))]%string);
     Live.ByRun (EvSettle 1 (Resolved "new"));
     Live.ByRun (EvSettle 0 Rejected); Live.ByRun EvResume; Live.ByRun EvExit] in
  let files' := Live.files_after (apply_event (pendingFiles files)) tr files in
  NoDup (map id files ++ added_ids tr) /\
  Forall (fun f => status f <> CONVERTING) files /\
  exec (length (pendingFiles files)) (AtLoop 0) (Live.run_part tr) = Some Finished /\
  Forall (fun g' => status g' <> CONVERTING) files' /\
  map status files' = [ERROR; COMPLETED; COMPLETED; IDLE].
Proof.
  intros files tr files'.
  assert (Hnd : NoDup (map id files ++ added_ids tr)) by (by apply (bool_decide_unpack _)).
  assert (Hnc : Forall (fun f => status f <> CONVERTING) files)
    by (repeat constructor; discriminate).
  assert (Hexec : exec (length (pendingFiles files)) (AtLoop 0) (Live.run_part tr)
                  = Some Finished) by reflexivity.
  split; [exact Hnd|]. split; [exact Hnc|]. split; [exact Hexec|].
  split; [exact (proj1 (finished_run_settles_all files tr Hnd Hnc Hexec))|reflexivity].
Defined.

End RunResults.

(** ** Object URLs are released *)

Section UrlLedger.
Import Registry.

Lemma handleFilesAdded_urls newFiles prev :
  map previewUrl (handleFilesAdded newFiles prev) =
  map previewUrl prev ++ map (fun src => snd (snd src)) newFiles.
Proof.
  unfold handleFilesAdded. rewrite map_app, map_map. f_equal.
  apply map_ext. by intros [f [u p]].
Qed.

Lemma updateStatus_urls i st extra prev :
  p_previewUrl extra = None ->
  map previewUrl (updateStatus i st extra prev) = map previewUrl prev.
Proof.
  intros Hurl. unfold updateStatus. rewrite map_map. apply map_ext. intros f.
  destruct (String.eqb (id f) i); [|reflexivity]. unfold spread. simpl. by rewrite Hurl.
Qed.

Lemma handleRemoveFile_urls i prev :
  NoDup (map id prev) ->
  Permutation (map previewUrl prev)
    (snd (handleRemoveFile i prev) ++ map previewUrl (fst (handleRemoveFile i prev))).
Proof.
  intros Hnd.
  destruct (List.find (fun f => String.eqb (id f) i) prev) as [f|] eqn:Hfind.
  - apply find_some in Hfind as [Hin Heq]. apply String.eqb_eq in Heq.
    destruct (List.in_split _ _ Hin) as (l1 & l2 & ->).
    rewrite (remove_present i l1 f l2 Hnd Heq). simpl.
    rewrite !map_app. simpl. by rewrite Permutation_middle.
  - rewrite remove_absent; [reflexivity|].
    intros f Hin Heq. apply (find_none _ _ Hfind) in Hin.
    apply String.eqb_neq in Hin. done.
Qed.

Lemma run_op_ledger st op :
  op_ok st op ->
  NoDup (map id (l_files st)) ->
  Permutation (l_created st) (l_revoked st ++ map previewUrl (l_files st)) ->
  NoDup (map id (l_files (run_op st op))) /\
  Permutation (l_created (run_op st op))
    (l_revoked (run_op st op) ++ map previewUrl (l_files (run_op st op))).
Proof.
  intros Hok Hnd Hperm. destruct op as [newFiles | i | confirmed | i status extra]; simpl.
  - split; [by apply handleFilesAdded_NoDup|].
    rewrite handleFilesAdded_urls, Hperm. by rewrite app_assoc.
  - split; [by apply handleRemoveFile_NoDup|].
    rewrite Hperm, <- app_assoc. apply Permutation_app_head.
    by apply handleRemoveFile_urls.
  - destruct confirmed; simpl.
    + split; [constructor|]. by rewrite app_nil_r.
    + split; [exact Hnd|]. by rewrite app_nil_r.
  - destruct Hok as [Hid Hurl]. split.
    + by rewrite updateStatus_ids.
    + by rewrite updateStatus_urls.
Qed.

Lemma run_ops_ledger ops : forall st,
  ops_ok st ops ->
  NoDup (map id (l_files st)) ->
  Permutation (l_created st) (l_revoked st ++ map previewUrl (l_files st)) ->
  NoDup (map id (l_files (run_ops st ops))) /\
  Permutation (l_created (run_ops st ops))
    (l_revoked (run_ops st ops) ++ map previewUrl (l_files (run_ops st ops))).
Proof.
  induction ops as [|op ops IH]; intros st Hok Hnd Hperm; [by split|].
  destruct Hok as [Hop Hrest]. destruct (run_op_ledger st op Hop Hnd Hperm) as [Hnd' Hperm'].
  by apply (IH (run_op st op)).
Qed.

(** No object URL leaks and none is revoked twice.  Through any sequence
    of adding, removing, clearing and status updates from the empty
    collection (added ids being new, updates leaving id and URL alone),
    the URLs created are exactly the URLs revoked so far together with the
    preview URLs of the items still in the collection; once the
    collection is empty again, every URL created has been revoked. *)
Theorem object_urls_balance (ops : list registry_op) :
  ops_ok (mkLedger [] [] []) ops ->
  let st := run_ops (mkLedger [] [] []) ops in
  NoDup (map id (l_files st)) /\
  Permutation (l_created st) (l_revoked st ++ map previewUrl (l_files st)) /\
  (l_files st = [] -> Permutation (l_created st) (l_revoked st)).
Proof.
  intros Hok st.
  destruct (run_ops_ledger ops (mkLedger [] [] []) Hok) as [Hnd Hperm];
    [constructor|reflexivity|].
  fold st in Hnd, Hperm. split; [exact Hnd|]. split; [exact Hperm|].
  intros Hempty. rewrite Hempty in Hperm. simpl in Hperm. by rewrite app_nil_r in Hperm.
Qed.

Lemma object_urls_balance_witness :
  let ops :=
    [OpAdd [(mkFile "a.webp" 1, ("a", "blob:a")); (mkFile "b.webp" 2, ("b", "blob:b"))]%string;
     OpUpdate "a" COMPLETED (extra_blob "jpeg");
     OpRemove "b";
     OpRemove "b";
     OpAdd [(mkFile "c.webp" 3, ("c", "blob:c"))]%string;
     OpClear true] in
  let st := run_ops (mkLedger [] [] []) ops in
  ops_ok (mkLedger [] [] []) ops /\
  l_revoked st = ["blob:b"; "blob:a"; "blob:c"]%string /\
  Permutation (l_created st) (l_revoked st).
Proof.
  intros ops st.
  assert (Hok : ops_ok (mkLedger [] [] []) ops).
  { simpl. repeat split; by apply (bool_decide_unpack _). }
  split; [exact Hok|]. split; [reflexivity|].
  apply (proj2 (proj2 (object_urls_balance ops Hok))). reflexivity.
Defined.

Lemma remove_after_absent i prev f :
  (forall g, In g prev -> id g <> i) -> id f = i ->
  handleRemoveFile i (prev ++ [f]) = (prev, [previewUrl f]).
Proof.
  intros Habs Hid. unfold handleRemoveFile.
  induction prev as [|g prev IH]; simpl.
  - destruct (String.eqb_spec (id f) i); [reflexivity|done].
  - assert (Hg : id g <> i) by (apply Habs; by left).
    destruct (String.eqb_spec (id g) i) as [|_]; [done|]. simpl.
    assert (IH' := IH (fun h Hh => Habs h (or_intror Hh))).
    injection IH' as Hfilter Hfind. rewrite Hfilter.
    destruct (List.find _ (prev ++ [f])); [|discriminate].
    injection Hfind as ->. reflexivity.
Qed.

(** Adding one file and then removing the id it was given restores the
    collection as it was and revokes exactly the URL that was created for
    the file, provided the id was not already in use. *)
Theorem add_then_remove (prev : list FileItem) (f : File) (uuid url : string) :
  ~ In uuid (map id prev) ->
  handleRemoveFile uuid (handleFilesAdded [(f, (uuid, url))] prev) = (prev, [url]).
Proof.
  intros Hfresh. unfold handleFilesAdded. simpl.
  apply (remove_after_absent uuid prev (newItem (f, (uuid, url)))); [|reflexivity].
  intros g Hg Heq. apply Hfresh. rewrite <- Heq. by apply in_map.
Qed.

Lemma add_then_remove_witness :
  let prev := [mkItem "a" (mkFile "a.webp" 1) "blob:a" IDLE None None] in
  ~ In "b"%string (map id prev) /\
  handleRemoveFile "b" (handleFilesAdded [(mkFile "b.webp" 2, ("b", "blob:b"))]%string prev)
    = (prev, ["blob:b"%string]).
Proof.
  intros prev.
  assert (Hfresh : ~ In "b"%string (map id prev)) by (intros [H|[]]; discriminate).
  split; [exact Hfresh|].
  exact (add_then_remove prev (mkFile "b.webp" 2) "b" "blob:b" Hfresh).
Defined.

End UrlLedger.

(** ** More on archive names and entries *)

Section PackagerMore.
Import Packager.
Local Open Scope string_scope.

Lemma append_length (a b : string) :
  String.length (a ++ b) = String.length a + String.length b.
Proof. induction a as [|c a IH]; simpl; [reflexivity|]. by rewrite IH. Qed.

(** The replace cuts a name only at a final extension: either the name is
    what is kept followed by a dot and one or more characters that are
    neither dots nor slashes, or the name has no such ending and is kept
    whole. *)
Theorem strip_extension_cases (s : string) :
  (exists ext, ext <> "" /\ all_chars not_slash_dot ext = true /\
     s = strip_extension s ++ "." ++ ext) \/
  (strip_extension s = s /\
   forall base ext, ext <> "" -> all_chars not_slash_dot ext = true ->
     s <> base ++ "." ++ ext).
Proof.
  assert (Hcut : (exists ext, ext <> "" /\ all_chars not_slash_dot ext = true /\
                    s = strip_extension s ++ "." ++ ext) \/ strip_extension s = s).
  { induction s as [|c s IH]; [by right|].
    rewrite strip_extension_eq. destruct (ext_here (String c s)) eqn:Hhere.
    - left. unfold ext_here in Hhere. destruct s as [|d rest]; [discriminate|].
      apply andb_prop in Hhere as [Hc Hrest]. apply Ascii.eqb_eq in Hc as ->.
      exists (String d rest). split; [discriminate|]. split; [exact Hrest|reflexivity].
    - destruct IH as [(ext & Hne & Hext & Heq)|Heq].
      + left. exists ext. split; [exact Hne|]. split; [exact Hext|].
        change (String c s = String c (strip_extension s ++ "." ++ ext)). by f_equal.
      + right. by rewrite Heq. }
  destruct Hcut as [Hcut|Hsame]; [by left|right]. split; [exact Hsame|].
  intros base ext Hne Hext Heq.
  pose proof (strip_extension_ext base ext Hne Hext) as Hstrip.
  rewrite <- Heq, Hsame in Hstrip.
  apply (f_equal String.length) in Heq. rewrite Hstrip in Heq.
  rewrite !append_length in Heq. simpl in Heq. lia.
Qed.

(** Naming is stable: the entry name of an entry name is that name, so a
    file that already is [x.jpg] keeps its name. *)
Theorem fileName_idempotent (n : string) :
  fileName (fileName n) = fileName n.
Proof.
  unfold fileName at 2 3.
  change (strip_extension n ++ ".jpg") with (strip_extension n ++ "." ++ "jpg").
  unfold fileName. by rewrite strip_extension_ext.
Qed.

Lemma fold_entries_dom (files : list (string * Blob)) : forall zip : gmap string Blob,
  dom (fold_left add_entry files zip) =
  dom zip ∪ list_to_set (map (fun f => fileName (fst f)) files).
Proof.
  induction files as [|f files IH]; intros zip; simpl.
  - set_solver.
  - rewrite IH. unfold add_entry, zip_file. rewrite dom_insert_L. set_solver.
Qed.

Lemma size_names (l : list string) :
  size (list_to_set l : gset string) <= length l /\
  (size (list_to_set l : gset string) = length l <-> NoDup l).
Proof.
  induction l as [|x l [IHle IHeq]].
  - rewrite list_to_set_nil, size_empty. simpl. split; [lia|]. split; [constructor|done].
  - rewrite list_to_set_cons. simpl length. destruct (decide (x ∈ l)) as [Hin|Hnotin].
    + replace ({[x]} ∪ list_to_set l : gset string) with (list_to_set l : gset string)
        by set_solver.
      split; [lia|]. split; [lia|]. intros Hnd. apply NoDup_cons in Hnd as [Hx _]. done.
    + rewrite size_union by set_solver. rewrite size_singleton.
      split; [lia|]. rewrite NoDup_cons. split.
      * intros Heq. split; [exact Hnotin|]. apply IHeq. lia.
      * intros [_ Hnd]. apply IHeq in Hnd. lia.
Qed.

(** For files whose names hold no slash, the archive has one entry per
    distinct derived name: never more entries than files, and as many
    entries as files exactly when the derived names are pairwise
    distinct; otherwise files are lost. *)
Theorem zipEntries_size (files : list (string * Blob)) :
  Forall (fun f => no_slash (fst f) = true) files ->
  dom (zipEntries files) = list_to_set (map (fun f => fileName (fst f)) files) /\
  size (zipEntries files) <= length files /\
  (size (zipEntries files) = length files <->
   NoDup (map (fun f => fileName (fst f)) files)).
Proof.
  intros _.
  assert (Hdom : dom (zipEntries files) =
                 list_to_set (map (fun f => fileName (fst f)) files)).
  { rewrite zipEntries_fold, fold_entries_dom. set_solver. }
  split; [exact Hdom|].
  rewrite <- size_dom, Hdom.
  destruct (size_names (map (fun f => fileName (fst f)) files)) as [Hle Heq].
  rewrite length_map in Hle, Heq. by split.
Qed.

Lemma zipEntries_size_witness :
  size (zipEntries [("a.webp", "one"); ("a.png", "two"); ("b.webp", "three")]) = 2.
Proof.
  destruct (zipEntries_size [("a.webp", "one"); ("a.png", "two"); ("b.webp", "three")])
    as (Hdom & _ & _).
  { repeat constructor. }
  rewrite <- size_dom, Hdom. by vm_compute.
Defined.

Lemma fold_entries_sound (files : list (string * Blob)) :
  forall (zip : gmap string Blob) key b,
    fold_left add_entry files zip !! key = Some b ->
    zip !! key = Some b \/ exists n, In (n, b) files /\ fileName n = key.
Proof.
  induction files as [|[n0 b0] files IH]; intros zip key b Hlook; simpl in Hlook; [by left|].
  apply IH in Hlook as [Hlook|(n & Hin & Hn)].
  - unfold add_entry, zip_file in Hlook. simpl in Hlook.
    destruct (decide (fileName n0 = key)) as [Heq|Hne].
    + rewrite Heq, lookup_insert_eq in Hlook. injection Hlook as ->.
      right. exists n0. split; [by left|exact Heq].
    + rewrite lookup_insert_ne in Hlook by exact Hne. by left.
  - right. exists n. split; [by right|exact Hn].
Qed.

Lemma completedFiles_sound files n b :
  In (n, b) (completedFiles files) ->
  exists f, In f files /\ status f = COMPLETED /\ convertedBlob f = Some b /\
    name (file f) = n.
Proof.
  unfold completedFiles. rewrite in_flat_map. intros (f & Hf & Hin).
  exists f. split; [exact Hf|].
  destruct (status f) eqn:Hst, (convertedBlob f) as [b0|] eqn:Hb; try (by destruct Hin).
  destruct Hin as [[= <- <-]|[]]. done.
Qed.

(** For items whose file names hold no slash, the archive download
    delivers nothing exactly when no item is completed with a blob; what
    it delivers holds only blobs of completed items, each under the name
    derived from its file. *)
Theorem handleDownload_zip_sound (files : list FileItem) :
  Forall (fun f => no_slash (name (file f)) = true) files ->
  (handleDownload_zip files = None <->
   forall f, In f files -> status f = COMPLETED -> convertedBlob f = None) /\
  (forall zip key b, handleDownload_zip files = Some zip -> zip !! key = Some b ->
     exists f, In f files /\ status f = COMPLETED /\ convertedBlob f = Some b /\
       fileName (name (file f)) = key).
Proof.
  intros _. split.
  - unfold handleDownload_zip. split.
    + intros Hnone f Hin Hst. destruct (convertedBlob f) as [b|] eqn:Hb; [|reflexivity].
      pose proof (completedFiles_In files f b Hin Hst Hb) as Hc.
      destruct (completedFiles files); [destruct Hc|discriminate].
    + intros Hall. destruct (completedFiles files) as [|[n b] l] eqn:E; [reflexivity|].
      assert (Hin : In (n, b) (completedFiles files)) by (rewrite E; by left).
      apply completedFiles_sound in Hin as (f & Hf & Hst & Hb & _).
      rewrite (Hall f Hf Hst) in Hb. discriminate.
  - intros zip key b Hzip Hlook. unfold handleDownload_zip in Hzip.
    destruct (completedFiles files) as [|e es] eqn:E; [discriminate|].
    injection Hzip as <-. rewrite zipEntries_fold in Hlook.
    apply fold_entries_sound in Hlook as [Hlook|(n & Hin & Hn)];
      [by rewrite lookup_empty in Hlook|].
    rewrite <- E in Hin. apply completedFiles_sound in Hin as (f & Hf & Hst & Hb & <-).
    by exists f.
Qed.

Lemma handleDownload_zip_sound_witness :
  handleDownload_zip
    [mkItem "a" (mkFile "a.webp" 1) "blob:a" ERROR None (Some "Conversion failed");
     mkItem "b" (mkFile "b.webp" 2) "blob:b" COMPLETED None None] = None.
Proof.
  apply (proj1 (handleDownload_zip_sound
    [mkItem "a" (mkFile "a.webp" 1) "blob:a" ERROR None (Some "Conversion failed");
     mkItem "b" (mkFile "b.webp" 2) "blob:b" COMPLETED None None]
    ltac:(repeat constructor))).
  intros f [<-|[<-|[]]]; [discriminate|reflexivity].
Defined.

End PackagerMore.

(** ** The document and its pages *)

Section DocumentPages.
Import Pdf.
Context {N : Type} `{JsNumber N}.

Lemma docs_of_app (l1 l2 : list (effect N)) :
  docs_of (l1 ++ l2) = docs_of l1 ++ docs_of l2.
Proof. unfold docs_of. apply flat_map_app. Qed.

Lemma docs_of_pages_log fs : forall (cs : list (doc_call N)) i,
  length cs = length fs ->
  docs_of (pages_log i fs cs) =
  flat_map (fun p => (if 0 <? fst p then [AddPage] else []) ++ [snd p])
    (combine (seq i (length fs)) cs).
Proof.
  induction fs as [|f fs IH]; intros [|c cs] i Hlen; try discriminate; [reflexivity|].
  change (pages_log i (f :: fs) (c :: cs))
    with (page_log i f c ++ pages_log (S i) fs cs).
  rewrite docs_of_app, IH by (simpl in Hlen; lia).
  unfold page_log. simpl. by destruct (0 <? i).
Qed.

Lemma pages_from_one (cs : list (doc_call N)) : forall i,
  0 < i ->
  flat_map (fun p => (if 0 <? fst p then [AddPage] else []) ++ [snd p])
    (combine (seq i (length cs)) cs) =
  flat_map (fun c' => [AddPage; c']) cs.
Proof.
  induction cs as [|c cs IH]; intros i Hi; [reflexivity|].
  simpl. replace (0 <? i) with true by (symmetry; by apply Nat.ltb_lt).
  simpl. by rewrite IH by lia.
Qed.

Lemma page_choice_content (host : Host N) options f c :
  page_choice host options f c -> is_content c = true.
Proof.
  unfold page_choice. destruct (decode host f); [intros [->| ->]|intros ->]; reflexivity.
Qed.

(** Whenever [generatePdf] returns, the document is made of one page per
    file, in the order of the files: after its creation come the content
    of the first page and, for each further file, a new page followed by
    its content, then the output; each content is the fitted image of
    that file or the error text naming it.  So [n] files give [n - 1]
    added pages and [n] placed contents. *)
Theorem document_pages (host : Host N) (options : PdfOptions) (fs : list File)
    (blob : PdfBlob N) (log : list (effect N)) :
  generatePdf host fs options [] = (Ok blob, log) ->
  exists cs,
    Forall2 (page_choice host options) fs cs /\
    blob = NewDoc (orientation options) :: doc_pages cs ++ [Output] /\
    length (List.filter is_addPage blob) = length fs - 1 /\
    length (List.filter is_content blob) = length fs.
Proof.
  intros Hrun. apply generatePdf_returns in Hrun as (cs & Hcs & -> & ->).
  exists cs. split; [exact Hcs|].
  assert (Hlen : length cs = length fs) by (symmetry; eapply Forall2_length; exact Hcs).
  assert (Hcontent : Forall (fun c => is_content c = true) cs).
  { clear Hlen. induction Hcs as [|f c fs cs Hc _ IH]; constructor; [|exact IH].
    by apply (page_choice_content host options f). }
  assert (Hblob : docs_of (run_log options fs cs) =
                  NewDoc (orientation options) :: doc_pages cs ++ [Output]).
  { unfold run_log.
    change (Doc (NewDoc (orientation options)) :: pages_log 0 fs cs ++ [Doc Output])
      with ([Doc (NewDoc (orientation options))] ++ pages_log 0 fs cs ++ [Doc Output]).
    rewrite !docs_of_app, docs_of_pages_log by exact Hlen. simpl. f_equal. f_equal.
    rewrite <- Hlen. destruct cs as [|c cs]; [reflexivity|]. simpl.
    f_equal. apply pages_from_one. lia. }
  split; [exact Hblob|]. rewrite Hblob, <- Hlen. clear Hblob Hlen Hcs.
  destruct cs as [|c cs]; [by split|].
  inversion Hcontent as [|? ? Hc Hrest]; subst.
  assert (Hrest' : length (List.filter is_addPage
                     (flat_map (fun c' => [AddPage; c']) cs ++ [Output])) = length cs /\
                   length (List.filter is_content
                     (flat_map (fun c' => [AddPage; c']) cs ++ [Output])) = length cs).
  { clear Hcontent Hc. induction Hrest as [|c' cs Hc' _ [IH1 IH2]]; [by split|].
    simpl. rewrite Hc'. destruct c'; try discriminate; simpl; by rewrite IH1, IH2. }
  destruct Hrest' as [R1 R2]. simpl. rewrite Hc.
  destruct c; try discriminate; simpl; rewrite R1, R2; split; lia.
Qed.

End DocumentPages.

Section DocumentPagesWitness.
Import Pdf.

Lemma document_pages_witness :
  let r := generatePdf (demo_host false) (map file demo_files)
             (mkOptions small portrait) [] in
  r = (Ok (docs_of (snd r)), snd r) /\
  exists cs,
    Forall2 (page_choice (demo_host false) (mkOptions small portrait))
      (map file demo_files) cs /\
    docs_of (snd r) = NewDoc portrait :: doc_pages cs ++ [Output] /\
    length (List.filter is_addPage (docs_of (snd r))) = length (map file demo_files) - 1 /\
    length (List.filter is_content (docs_of (snd r))) = length (map file demo_files).
Proof.
  intros r.
  assert (Hr : r = (Ok (docs_of (snd r)), snd r)) by (vm_compute; reflexivity).
  split; [exact Hr|].
  exact (document_pages (demo_host false) (mkOptions small portrait)
           (map file demo_files) (docs_of (snd r)) (snd r) Hr).
Defined.

End DocumentPagesWitness.

Section PlacementFacts.
Import Pdf.
Local Open Scope float_scope.

Lemma inside_table : for_sizes 100 inside_margins = true.
Proof. vm_compute. reflexivity. Qed.

(** Whatever the margin, the orientation and the size of the image, in
    binary64 arithmetic the placed image spans the content box along one
    axis: there it starts exactly at the margin and ends exactly at the
    margin of the other side.  For every image of 1 by 1 to 100 by 100
    pixels it lies between the margins on both axes. *)
Theorem image_inside_margins :
  (forall (options : PdfOptions) (w h : float),
     let m := MARGIN_SIZES (margin options) in
     let p := placement options w h in
     (finalWidth p = contentWidth options /\ x p = m /\
      x p + finalWidth p = pageWidth (orientation options) - m) \/
     (finalHeight p = contentHeight options /\ y p = m /\
      y p + finalHeight p = pageHeight (orientation options) - m)) /\
  (forall options w h,
     1 <= w <= 100 -> 1 <= h <= 100 ->
     let m := MARGIN_SIZES (margin options) in
     let p := placement options (js w) (js h) in
     (m <=? x p) = true /\
     (x p + finalWidth p <=? pageWidth (orientation options) - m) = true /\
     (m <=? y p) = true /\
     (y p + finalHeight p <=? pageHeight (orientation options) - m) = true).
Proof.
  split.
  - intros options w h m p. subst m p. unfold placement. rewrite fitImage_float.
    destruct (_ <? _); [right|left]; cbn [finalWidth finalHeight x y];
      destruct options as [[] []]; vm_compute; repeat split.
  - intros options w h Hw Hh m p. subst m p.
    pose proof (for_sizes_spec 100 _ options w h inside_table Hw Hh) as Hchk.
    unfold inside_margins in Hchk.
    apply andb_prop in Hchk as [Hchk H4]. apply andb_prop in Hchk as [Hchk H3].
    apply andb_prop in Hchk as [H1 H2]. by repeat split.
Qed.

Lemma image_inside_margins_witness :
  let options := mkOptions big landscape in
  let p := placement options (js 16) (js 9) in
  (MARGIN_SIZES (margin options) <=? x p) = true /\
  (MARGIN_SIZES (margin options) <=? y p) = true.
Proof.
  destruct (proj2 image_inside_margins (mkOptions big landscape) 16%nat 9%nat
              ltac:(lia) ltac:(lia)) as (H1 & _ & H3 & _).
  split; [exact H1|exact H3].
Defined.

End PlacementFacts.

Section DropZoneFacts.
Import DropZone.

Lemma split_comma_plain (t : string) :
  no_comma t = true -> split_comma t = [t].
Proof.
  induction t as [|c t IH]; simpl; [done|].
  destruct (Ascii.eqb c ",") eqn:Hc; simpl; [done|].
  intros Ht. by rewrite (IH Ht).
Qed.

Lemma split_comma_app (t rest : string) :
  no_comma t = true ->
  split_comma (String.append t (String ","%char rest)) = t :: split_comma rest.
Proof.
  induction t as [|c t IH]; simpl; [done|].
  destruct (Ascii.eqb c ",") eqn:Hc; simpl; [done|].
  intros Ht. by rewrite (IH Ht).
Qed.

Lemma split_comma_concat (t : string) (ts : list string) :
  Forall (fun t => no_comma t = true) (t :: ts) ->
  split_comma (String.concat ", " (t :: ts))
  = t :: map (fun u => String " "%char u) ts.
Proof.
  revert t. induction ts as [|u ts IH]; intros t Hall.
  - simpl. apply split_comma_plain. by inversion Hall.
  - change (String.concat ", " (t :: u :: ts))
      with (String.append t
              (String ","%char (String " "%char (String.concat ", " (u :: ts))))).
    inversion Hall as [|? ? Ht Hrest]; subst.
    rewrite (split_comma_app _ _ Ht).
    change (split_comma (String " "%char (String.concat ", " (u :: ts))))
      with (match split_comma (String.concat ", " (u :: ts)) with
            | h :: tl => String " "%char h :: tl
            | [] => [String " "%char EmptyString]
            end).
    by rewrite (IH u Hrest).
Qed.

Lemma existsb_eqb_In (x : string) (l : list string) :
  existsb (String.eqb x) l = true <-> In x l.
Proof.
  rewrite existsb_exists. split.
  - intros (y & Hin & Heq). apply String.eqb_eq in Heq. by subst.
  - intros Hin. exists x. split; [done|]. apply String.eqb_refl.
Qed.

Lemma filter_valid_sound (accept : string) (files : list DroppedFile) :
  Forall (fun f => validateFile accept f = true)
         (List.filter (validateFile accept) files).
Proof.
  apply List.Forall_forall. intros f Hin.
  by apply List.filter_In in Hin as [_ Hv].
Qed.

(** An accept attribute written as a list of MIME types in ASCII,
    separated by a comma and a space, accepts exactly the files whose
    type is in the list; the pattern [image/*] accepts every type that
    starts with [image/], so each file accepted in JPEG mode is accepted
    in PDF mode. *)
Theorem validateFile_accept_list (ts : list string) (f : DroppedFile) :
  ts <> [] ->
  Forall (fun t => is_ascii t = true) ts ->
  Forall (fun t => no_comma t = true /\ trim t = t) ts ->
  String.concat ", " ts <> "image/*"%string ->
  (validateFile (String.concat ", " ts) f = true <-> In (type f) ts)
  /\ (validateFile (acceptType JPEG) f = true <-> type f = "image/webp"%string)
  /\ (validateFile (acceptType JPEG) f = true ->
      validateFile (acceptType PDF) f = true).
Proof.
  intros Hne _ Hall Hstar.
  assert (Hjpeg : validateFile (acceptType JPEG) f = true
                  <-> type f = "image/webp"%string).
  { unfold validateFile, acceptType. simpl.
    rewrite orb_false_r. apply String.eqb_eq. }
  split; [|split; [exact Hjpeg|]].
  - unfold validateFile.
    destruct (String.eqb (String.concat ", " ts) "image/*") eqn:He.
    { apply String.eqb_eq in He. contradiction. }
    destruct ts as [|t ts]; [done|].
    rewrite split_comma_concat
      by (eapply List.Forall_impl; [|exact Hall]; by intros ? [? _]).
    rewrite existsb_eqb_In.
    assert (Htrim : map trim (t :: map (fun u => String " "%char u) ts) = t :: ts).
    { inversion Hall as [|? ? [_ Ht] Hrest]; subst. simpl. f_equal; [done|].
      rewrite List.map_map. clear -Hrest.
      induction Hrest as [|u us [_ Hu] _ IH]; simpl; [done|].
      f_equal; [|exact IH]. exact Hu. }
    by rewrite Htrim.
  - intros Hv. apply Hjpeg in Hv. unfold validateFile, acceptType.
    simpl. by rewrite Hv.
Qed.

Lemma validateFile_accept_list_witness :
  validateFile "image/png, image/jpeg"
    (mkDropped (mkFile "b.jpg" 2) "image/jpeg") = true
  <-> In "image/jpeg"%string ["image/png"%string; "image/jpeg"%string].
Proof.
  refine (proj1 (validateFile_accept_list
                   ["image/png"%string; "image/jpeg"%string]
                   (mkDropped (mkFile "b.jpg" 2) "image/jpeg") _ _ _ _)).
  - discriminate.
  - repeat constructor.
  - repeat constructor.
  - discriminate.
Defined.

(** Both handlers pass on the accepted files only, in the order they came
    in, and never an empty list; a drop with files of which none is
    accepted raises an alert, the same selection through the file input
    does nothing, and no files at all do nothing. *)
Theorem handlers_pass_valid_files (accept : string) (files : list DroppedFile) :
  let validFiles := List.filter (validateFile accept) files in
  (validFiles <> [] ->
     handleDrop accept files = OnFilesAdded validFiles
     /\ handleFileInput accept files = OnFilesAdded validFiles)
  /\ (files <> [] -> validFiles = [] ->
      (exists msg, handleDrop accept files = Alert msg)
      /\ handleFileInput accept files = NoCall)
  /\ (files = [] ->
      handleDrop accept files = NoCall /\ handleFileInput accept files = NoCall)
  /\ (forall passed,
        handleDrop accept files = OnFilesAdded passed
        \/ handleFileInput accept files = OnFilesAdded passed ->
        passed <> []
        /\ sublist passed files
        /\ Forall (fun f => validateFile accept f = true) passed
        /\ (forall f, In f files -> validateFile accept f = true -> In f passed)).
Proof.
  intros validFiles.
  assert (Hboth : handleDrop accept files = OnFilesAdded validFiles
                  /\ handleFileInput accept files = OnFilesAdded validFiles
                  \/ validFiles = []
                     /\ (forall passed,
                           handleDrop accept files <> OnFilesAdded passed
                           /\ handleFileInput accept files <> OnFilesAdded passed)).
  { unfold handleDrop, handleFileInput. subst validFiles.
    destruct files as [|f0 files]; [right; by split|].
    destruct (List.filter (validateFile accept) (f0 :: files)) eqn:Hf.
    - right. by split.
    - left. by split. }
  split; [|split; [|split]].
  - intros Hne. destruct Hboth as [H|[H _]]; [exact H|contradiction].
  - intros Hne Hnil. unfold handleDrop, handleFileInput.
    destruct files as [|f0 files]; [done|].
    fold validFiles. rewrite Hnil. split; [eauto|done].
  - intros ->. by split.
  - intros passed Hpassed.
    destruct Hboth as [[Hd Hi]|[_ Hnone]].
    + assert (passed = validFiles) as ->.
      { destruct Hpassed as [H|H]; congruence. }
      split; [|split; [|split]].
      * intros Hnil. unfold handleDrop in Hd.
        destruct files as [|f0 files]; [done|].
        fold validFiles in Hd. rewrite Hnil in Hd. discriminate.
      * subst validFiles. clear. induction files as [|f files IH]; simpl.
        { constructor. }
        destruct (validateFile accept f); by constructor.
      * apply filter_valid_sound.
      * intros f Hin Hv. apply List.filter_In. by split.
    + destruct (Hnone passed) as [Hd Hi]. by destruct Hpassed.
Qed.

Lemma handlers_pass_valid_files_witness :
  handleDrop "image/webp"
    [mkDropped (mkFile "a.png" 1) "image/png";
     mkDropped (mkFile "b.webp" 2) "image/webp"]
  = OnFilesAdded [mkDropped (mkFile "b.webp" 2) "image/webp"].
Proof.
  refine (proj1 (proj1 (handlers_pass_valid_files "image/webp"
    [mkDropped (mkFile "a.png" 1) "image/png";
     mkDropped (mkFile "b.webp" 2) "image/webp"]) _)).
  discriminate.
Defined.

End DropZoneFacts.

Section Rasterization.
Import ImageService.
Context {N : Type} `{JsNumber N}.

Lemma draw_position (pre : list browser_call) (x y : nat) (post : list browser_call)
    (l1 : list browser_call) (c : browser_call) (l2 : list browser_call) :
  l1 ++ c :: l2 = pre ++ DrawImage x y :: post ->
  List.filter is_draw l1 = [] -> List.filter is_draw l2 = [] ->
  is_draw c = true ->
  pre = l1 /\ c = DrawImage x y.
Proof.
  revert l1. induction pre as [|p pre IH]; intros l1 Heq H1 H2 Hc.
  - destruct l1 as [|a l1]; simpl in Heq.
    + by inversion Heq.
    + inversion Heq; subst. simpl in H1. discriminate.
  - destruct l1 as [|a l1]; simpl in Heq.
    + inversion Heq; subst.
      assert (Hin : In (DrawImage x y) (List.filter is_draw (pre ++ DrawImage x y :: post))).
      { apply List.filter_In. split; [|done]. apply List.in_or_app. right. by left. }
      rewrite H2 in Hin. destruct Hin.
    + inversion Heq; subst.
      simpl in H1. destruct (is_draw p) eqn:Hp; [discriminate|].
      destruct (IH l1 H4 H1 H2 Hc) as [-> ->]. by split.
Qed.

Lemma no_draw_white {A : Type} (load : image_load A) (calls : list browser_call) :
  List.filter is_draw calls = [] -> white_under_image load calls.
Proof.
  intros Hnone pre x y post Heq.
  assert (Hin : In (DrawImage x y) (List.filter is_draw calls)).
  { apply List.filter_In. split; [|done].
    rewrite Heq. apply List.in_or_app. right. by left. }
  rewrite Hnone in Hin. destruct Hin.
Qed.

Lemma one_draw_white {A : Type} (c : canvas_outcome A) (pre0 : list browser_call)
    (w h : nat) (post0 : list browser_call) :
  List.filter is_draw pre0 = [] -> List.filter is_draw post0 = [] ->
  white_under_image (Loaded w h c)
    ((pre0 ++ [CreateCanvas w h; GetContext2d; FillStyle "#FFFFFF"; FillRect 0 0 w h])
     ++ DrawImage 0 0 :: post0).
Proof.
  intros Hpre Hpost pre x y post Heq.
  destruct (draw_position pre x y post _ _ _ Heq) as [-> Hd].
  - rewrite List.filter_app, Hpre. reflexivity.
  - exact Hpost.
  - reflexivity.
  - inversion Hd; subst. by exists w, h, c, pre0.
Qed.

(** Whatever the browser does with the image, [convertWebPToJpeg] and
    [getImageData] create one object URL and release it once, as their
    last call.  The image is drawn exactly when it has loaded and the
    canvas has a context, and then at the origin of a canvas that has
    the width and height of the image and was filled with white just
    before.  The promise resolves exactly when the image was drawn and
    the encoder gave a result: to the blob of the encoder, asked for
    [image/jpeg] at the given quality, or to the data URL with the width
    and height of the image. *)
Theorem rasterization_releases_url (f : File) (quality : Q) (objectUrl : string) :
  (forall load,
     let r := convertWebPToJpeg f quality objectUrl load in
     released_once objectUrl (fst r)
     /\ white_under_image load (fst r)
     /\ ((exists x y, In (DrawImage x y) (fst r)) <->
         exists w h a, load = Loaded w h (Drawn a))
     /\ (forall b, snd r = Resolve b <->
                   exists w h, load = Loaded w h (Drawn (Some b)))
     /\ (forall b, snd r = Resolve b ->
                   In (ToBlob "image/jpeg" quality) (fst r)))
  /\ (forall load,
     let r := getImageData (N := N) f objectUrl load in
     released_once objectUrl (fst r)
     /\ white_under_image load (fst r)
     /\ ((exists x y, In (DrawImage x y) (fst r)) <->
         exists w h a, load = Loaded w h (Drawn a))
     /\ (forall img, snd r = Resolve img <->
                     exists w h, load = Loaded w h (Drawn (Pdf.dataUrl img))
                                 /\ Pdf.width img = num (Z.of_nat w)
                                 /\ Pdf.height img = num (Z.of_nat h))).
Proof.
  assert (Hnodraw : forall calls : list browser_call,
            List.filter is_draw calls = [] ->
            ~ exists x y, In (DrawImage x y) calls).
  { intros calls Hnone (x & y & Hin).
    assert (Hf : In (DrawImage x y) (List.filter is_draw calls))
      by (apply List.filter_In; by split).
    rewrite Hnone in Hf. destruct Hf. }
  split; intros load r; subst r.
  - destruct load as [|w h [|blob]]; cbn [convertWebPToJpeg fst snd].
    + split; [by repeat split|]. split; [by apply no_draw_white|]. split; [|split].
      * split; [intros Hd; by apply Hnodraw in Hd|]. intros (? & ? & ? & ?). discriminate.
      * intros b. split; [discriminate|]. intros (? & ? & ?). discriminate.
      * discriminate.
    + split; [by repeat split|]. split; [by apply no_draw_white|]. split; [|split].
      * split; [intros Hd; by apply Hnodraw in Hd|]. intros (? & ? & ? & ?). discriminate.
      * intros b. split; [discriminate|]. intros (? & ? & ?). discriminate.
      * discriminate.
    + split; [by repeat split|]. split.
      { exact (one_draw_white (Drawn blob) [CreateObjectURL f; SetSrc objectUrl] w h
                 [ToBlob "image/jpeg" quality; RevokeObjectURL objectUrl]
                 eq_refl eq_refl). }
      split; [|split].
      * split; [intros _; by exists w, h, blob|].
        intros _. exists 0, 0. simpl. tauto.
      * intros b. split.
        -- destruct blob; intros Hr; [|discriminate].
           inversion Hr; subst. by exists w, h.
        -- intros (w' & h' & Hl). by inversion Hl; subst.
      * intros b _. simpl. tauto.
  - destruct load as [|w h [|dataUrl]]; cbn [getImageData fst snd].
    + split; [by repeat split|]. split; [by apply no_draw_white|]. split.
      * split; [intros Hd; by apply Hnodraw in Hd|]. intros (? & ? & ? & ?). discriminate.
      * intros img. split; [discriminate|]. intros (? & ? & ? & _). discriminate.
    + split; [by repeat split|]. split; [by apply no_draw_white|]. split.
      * split; [intros Hd; by apply Hnodraw in Hd|]. intros (? & ? & ? & ?). discriminate.
      * intros img. split; [discriminate|]. intros (? & ? & ? & _). discriminate.
    + split; [by repeat split|]. split.
      { exact (one_draw_white (Drawn dataUrl) [CreateObjectURL f; SetSrc objectUrl] w h
                 [ToDataURL "image/jpeg" (95 # 100); RevokeObjectURL objectUrl]
                 eq_refl eq_refl). }
      split.
      * split; [intros _; by exists w, h, dataUrl|].
        intros _. exists 0, 0. simpl. tauto.
      * intros img. split.
        -- intros Hr. inversion Hr; subst. simpl. by exists w, h.
        -- intros (w' & h' & Hl & Hw & Hh). inversion Hl; subst.
           destruct img as [d iw ih]. simpl in *. by subst.
Qed.

End Rasterization.

Section ConversionErrors.
Import ImageService Scheduler.

(** Whatever makes [convertWebPToJpeg] reject (the image does not load,
    the canvas has no context, the encoder gives nothing), the item of
    the batch ends in ERROR with the one message of the [catch] block,
    and keeps its file and preview; when it resolves the item is
    COMPLETED with the blob of the encoder. *)
Theorem conversion_error_message (pending : list FileItem) (k : nat)
    (item g : FileItem) (quality : Q) (objectUrl : string)
    (load : image_load (option Blob)) :
  nth_error pending k = Some item ->
  id g = id item ->
  let r := convertWebPToJpeg (file item) quality objectUrl load in
  let g' := item_event pending (EvSettle k (seen_by_scheduler (snd r))) g in
  file g' = file g /\ previewUrl g' = previewUrl g /\ id g' = id g
  /\ match load with
     | Loaded _ _ (Drawn (Some b)) =>
         status g' = COMPLETED /\ convertedBlob g' = Some b /\ error g' = error g
     | _ =>
         status g' = ERROR /\ error g' = Some "Conversion failed"%string
         /\ convertedBlob g' = convertedBlob g
     end.
Proof.
  intros Hk Hid r g'. subst r g'.
  unfold item_event. rewrite Hk.
  assert (He : String.eqb (id g) (id item) = true)
    by (rewrite Hid; apply String.eqb_refl).
  destruct load as [|w h [|[b|]]]; simpl; rewrite He; simpl;
    repeat split; reflexivity.
Qed.

Lemma conversion_error_message_witness :
  status (item_event demo_files
            (EvSettle 0 (seen_by_scheduler
               (snd (convertWebPToJpeg (mkFile "a.webp" 1) default_quality
                       "blob:a" LoadFailed))))
            (mkItem "a" (mkFile "a.webp" 1) "blob:a" IDLE None None)) = ERROR.
Proof.
  exact (proj1 (proj2 (proj2 (proj2
    (conversion_error_message demo_files 0
       (mkItem "a" (mkFile "a.webp" 1) "blob:a" IDLE None None)
       (mkItem "a" (mkFile "a.webp" 1) "blob:a" IDLE None None)
       default_quality "blob:a" LoadFailed eq_refl eq_refl))))).
Defined.

End ConversionErrors.
